(** * pisoprinter: admission queue, device bridge and coin-claim ledger

    A shallow embedding of the three cooperating pieces of the kiosk server:

    - [QueueManager] (queue-manager.js): the FIFO of waiting sessions and the
      single active slot, with its timeouts;
    - [CoinListener] (coinListener.js): the line protocol of the coin
      acceptor and the delivery of coin events to the registered observers;
    - [Server] (server.js): the claimed-coin ledger, the `/api/claim-coin`,
      `/api/arduino-status` and `/api/print` handlers;
    - [SerialLink] and [Observers] (coinListener.js): the connection cycle
      of the listener with its reconnections, and the registry of the
      observers;
    - [Routes] and [Helpers] (server.js): the `/api/queue/...` routes and the
      helpers [breakDownPayment], [sanitizeFileName] and [requireAdminAuth].

    Conventions of the embedding.
    - Millisecond clock readings ([Date.now()]) are integers in [Z]; every
      operation receives the reading of the clock as its argument [now].
      One synchronous operation sees one reading.
    - Session ids are strings.  A JS [Map] is an association list in
      insertion order with unique keys ([JsMap]); a JS array of session ids
      is a [list string].
    - [setTimeout] registrations are kept in the state ([pending]); the
      event loop that fires them is [EventLoop].
    - Console output is not modelled. *)

From Stdlib Require Import ZArith List String Ascii Bool Lia DecimalString.
Import ListNotations.
Open Scope string_scope.
Open Scope list_scope.
Open Scope Z_scope.

(* ------------------------------------------------------------------------- *)
(** ** JavaScript helpers *)
(* ------------------------------------------------------------------------- *)

Module Js.

(** [`${n}`] for an integer number below 1e21 in absolute value; from
    there on JS prints an exponent. *)
Definition string_of_Z (z : Z) : string := NilZero.string_of_int (Z.to_int z).

(** [n || d] for a number [n] that may be [undefined]. *)
Definition num_or (o : option Z) (d : Z) : Z :=
  match o with
  | Some n => if n =? 0 then d else n
  | None => d
  end.

(** Truthiness of a value that is either [null]/[undefined] or a string. *)
Definition truthy (o : option string) : bool :=
  match o with
  | Some s => negb (String.eqb s "")
  | None => false
  end.

(** [a === s] where [a] is [null] or a string. *)
Definition strict_eq (a : option string) (s : string) : bool :=
  match a with
  | Some x => String.eqb x s
  | None => false
  end.

(** A JS value as it arrives in a JSON request body or comes out of a
    property lookup.  Numbers are the integers; an object or function is
    carried with the string its [toString()] yields and is always truthy. *)
Inductive Value :=
| VUndefined
| VNull
| VBool (b : bool)
| VNumber (n : Z)
| VString (s : string)
| VObject (rendering : string).

(** Truthiness, as tested by [if (v)] and [!v]. *)
Definition truthy_value (v : Value) : bool :=
  match v with
  | VUndefined | VNull => false
  | VBool b => b
  | VNumber n => negb (n =? 0)
  | VString s => negb (String.eqb s "")
  | VObject _ => true
  end.

(** [`${v}`]. *)
Definition template (v : Value) : string :=
  match v with
  | VUndefined => "undefined"
  | VNull => "null"
  | VBool true => "true"
  | VBool false => "false"
  | VNumber n => string_of_Z n
  | VString s => s
  | VObject r => r
  end.

(** [arr.indexOf(x)], -1 when absent. *)
Fixpoint indexOf_from (i : Z) (x : string) (arr : list string) : Z :=
  match arr with
  | [] => -1
  | y :: rest => if String.eqb y x then i else indexOf_from (i + 1) x rest
  end.

Definition indexOf (x : string) (arr : list string) : Z := indexOf_from 0 x arr.

(** [arr.includes(x)]. *)
Definition includes (x : string) (arr : list string) : bool :=
  existsb (String.eqb x) arr.

(** [arr.splice(i, 1)]: the array without the element at index [i]. *)
Definition splice1 (i : nat) (arr : list string) : list string :=
  firstn i arr ++ skipn (S i) arr.

(** ASCII white space, as removed by [trim].  The white space beyond
    ASCII that [String.prototype.trim] removes as well (U+00A0, U+FEFF and
    the like) is not modelled: [trim] is exact on ASCII strings. *)
Definition is_space (c : ascii) : bool :=
  let n := nat_of_ascii c in
  ((9 <=? n) && (n <=? 13))%nat || (n =? 32)%nat.

Fixpoint trimStart (s : string) : string :=
  match s with
  | EmptyString => EmptyString
  | String c rest => if is_space c then trimStart rest else s
  end.

(** Drops the trailing white space: a character is kept when something
    kept follows it or when it is not a space. *)
Fixpoint trimEnd (s : string) : string :=
  match s with
  | EmptyString => EmptyString
  | String c rest =>
      match trimEnd rest with
      | EmptyString => if is_space c then EmptyString else String c EmptyString
      | kept => String c kept
      end
  end.

Definition trim (s : string) : string := trimEnd (trimStart s).

(** [s.startsWith(p)] and [s.substring(n)]. *)
Definition startsWith (p s : string) : bool := String.prefix p s.

Definition substring_from (n : nat) (s : string) : string :=
  String.substring n (String.length s - n) s.

End Js.

(* ------------------------------------------------------------------------- *)
(** ** The JS [Map] with string keys *)
(* ------------------------------------------------------------------------- *)

Module JsMap.
Section Ops.
Context {V : Type}.

Definition t := list (string * V).

Definition empty : t := [].

Fixpoint get (k : string) (m : t) : option V :=
  match m with
  | [] => None
  | (k', v) :: rest => if String.eqb k k' then Some v else get k rest
  end.

Definition has (k : string) (m : t) : bool :=
  match get k m with Some _ => true | None => false end.

(** [m.set(k, v)]: an existing key keeps its place, a new one goes last. *)
Fixpoint set (k : string) (v : V) (m : t) : t :=
  match m with
  | [] => [(k, v)]
  | (k', v') :: rest =>
      if String.eqb k k' then (k, v) :: rest else (k', v') :: set k v rest
  end.

Fixpoint delete (k : string) (m : t) : t :=
  match m with
  | [] => []
  | (k', v') :: rest =>
      if String.eqb k k' then delete k rest else (k', v') :: delete k rest
  end.

Definition keys (m : t) : list string := map fst m.

Definition values (m : t) : list V := map snd m.

Definition size (m : t) : nat := List.length m.
End Ops.
Arguments t : clear implicits.
End JsMap.

(* ------------------------------------------------------------------------- *)
(** ** queue-manager.js *)
(* ------------------------------------------------------------------------- *)

Module QueueManager.

Inductive Status := waiting | active.

Definition Status_eqb (a b : Status) : bool :=
  match a, b with
  | waiting, waiting | active, active => true
  | _, _ => false
  end.

(** The object the server passes as [fileInfo]. *)
Record FileInfo := mkFileInfo {
  fileName : string;
  pageCount : Z;
  timestamp : Z
}.

Record Session := mkSession {
  id : string;
  fileInfo : FileInfo;
  joinedAt : Z;
  status : Status;
  activatedAt : option Z
}.

(** A [setTimeout(() => this.checkSessionTimeout(target), delay)] issued at
    [armedAt]. *)
Record Timer := mkTimer {
  armedAt : Z;
  delay : Z;
  target : string
}.

Definition due (t : Timer) : Z := armedAt t + delay t.

Record QM := mkQM {
  queue : list string;
  activeSession : option string;
  sessions : JsMap.t Session;
  lastActivityTime : JsMap.t Z;
  completedSessions : Z;
  pending : list Timer
}.

Definition sessionTimeout : Z := 90000.
Definition MAX_QUEUE_SIZE : nat := 10.
Definition maxWaitTime : Z := 10 * 60 * 1000.

(** [new QueueManager()]. *)
Definition init : QM :=
  {| queue := []; activeSession := None; sessions := JsMap.empty;
     lastActivityTime := JsMap.empty; completedSessions := 0; pending := [] |}.

Definition set_queue (q : list string) (st : QM) : QM :=
  {| queue := q; activeSession := activeSession st; sessions := sessions st;
     lastActivityTime := lastActivityTime st;
     completedSessions := completedSessions st; pending := pending st |}.

Definition set_activeSession (a : option string) (st : QM) : QM :=
  {| queue := queue st; activeSession := a; sessions := sessions st;
     lastActivityTime := lastActivityTime st;
     completedSessions := completedSessions st; pending := pending st |}.

Definition set_sessions (m : JsMap.t Session) (st : QM) : QM :=
  {| queue := queue st; activeSession := activeSession st; sessions := m;
     lastActivityTime := lastActivityTime st;
     completedSessions := completedSessions st; pending := pending st |}.

Definition set_lastActivityTime (m : JsMap.t Z) (st : QM) : QM :=
  {| queue := queue st; activeSession := activeSession st; sessions := sessions st;
     lastActivityTime := m;
     completedSessions := completedSessions st; pending := pending st |}.

Definition set_completedSessions (n : Z) (st : QM) : QM :=
  {| queue := queue st; activeSession := activeSession st; sessions := sessions st;
     lastActivityTime := lastActivityTime st;
     completedSessions := n; pending := pending st |}.

(** [setTimeout(() => this.checkSessionTimeout(sessionId), d)] at [now]. *)
Definition setTimeout (now d : Z) (sessionId : string) (st : QM) : QM :=
  {| queue := queue st; activeSession := activeSession st; sessions := sessions st;
     lastActivityTime := lastActivityTime st;
     completedSessions := completedSessions st;
     pending := pending st ++ [mkTimer now d sessionId] |}.

(** The object returned by [getQueueStatus] and [joinQueue]; a field the
    object literal does not set is [None]. *)
Record QueueStatus := mkQueueStatus {
  r_exists : bool;
  r_status : option string;
  r_position : option Z;
  r_canProceed : option bool;
  r_message : option string;
  r_timeRemaining : option Z;
  r_estimatedWait : option Z;
  r_success : option bool;
  r_error : option string;
  r_queueFull : option bool
}.

Definition statusNotFound : QueueStatus :=
  mkQueueStatus false None None None (Some "Session not found")
                None None None None None.

Definition statusQueueFull : QueueStatus :=
  mkQueueStatus false None None None None None None
                (Some false) (Some "Queue is full. Please try again later.")
                (Some true).

Definition statusActive (timeRemaining : Z) : QueueStatus :=
  mkQueueStatus true (Some "active") (Some 0) (Some true)
                (Some "Your turn to pay") (Some timeRemaining)
                None None None None.

Definition statusWaiting (position : Z) : QueueStatus :=
  mkQueueStatus true (Some "waiting") (Some position) (Some false)
                (Some ("You are #" ++ Js.string_of_Z position
                         ++ " in queue. Please wait...")%string)
                None (Some (position * 60)) None None None.

Definition statusUnknown : QueueStatus :=
  mkQueueStatus true (Some "unknown") None (Some false)
                (Some "Session status unknown") None None None None None.

(** [getQueueStatus(sessionId)]. *)
Definition getQueueStatus (now : Z) (sessionId : string) (st : QM) : QueueStatus :=
  match JsMap.get sessionId (sessions st) with
  | None => statusNotFound
  | Some session =>
      if Js.strict_eq (activeSession st) sessionId then
        statusActive
          (Z.max 0 (sessionTimeout - (now - Js.num_or (activatedAt session) now)))
      else
        let position := Js.indexOf sessionId (queue st) + 1 in
        if position >? 0 then statusWaiting position else statusUnknown
  end.

(** [canProceedToPayment(sessionId)]. *)
Definition canProceedToPayment (sessionId : string) (st : QM) : bool :=
  Js.strict_eq (activeSession st) sessionId.

(** [updateActivity(sessionId)]. *)
Definition updateActivity (now : Z) (sessionId : string) (st : QM) : QM :=
  if Js.strict_eq (activeSession st) sessionId
  then set_lastActivityTime (JsMap.set sessionId now (lastActivityTime st)) st
  else st.

(** The promotion shared by [joinQueue] and [processQueue]:
    [activeSession = id; session.status = 'active'; session.activatedAt = now;
     lastActivityTime.set(id, now); setTimeout(..., sessionTimeout)]. *)
Definition activate (now : Z) (sessionId : string) (session : Session) (st : QM) : QM :=
  let st1 := set_activeSession (Some sessionId) st in
  let session' := mkSession (id session) (fileInfo session) (joinedAt session)
                            active (Some now) in
  let st2 := set_sessions (JsMap.set sessionId session' (sessions st1)) st1 in
  let st3 := set_lastActivityTime (JsMap.set sessionId now (lastActivityTime st2)) st2 in
  setTimeout now sessionTimeout sessionId st3.

(** [joinQueue(sessionId, fileInfo)]. *)
Definition joinQueue (now : Z) (sessionId : string) (fi : FileInfo) (st : QM)
  : QM * QueueStatus :=
  if JsMap.has sessionId (sessions st) then (st, getQueueStatus now sessionId st)
  else if (MAX_QUEUE_SIZE <=? List.length (queue st))%nat && Js.truthy (activeSession st)
  then (st, statusQueueFull)
  else
    let session := mkSession sessionId fi now waiting None in
    let st1 := set_sessions (JsMap.set sessionId session (sessions st)) st in
    let st2 :=
      if negb (Js.truthy (activeSession st1)) then
        activate now sessionId session st1
      else if negb (Js.includes sessionId (queue st1)) then
        set_queue (queue st1 ++ [sessionId]) st1
      else st1 in
    (st2, getQueueStatus now sessionId st2).

(** The part of [removeSession] before the call of [processQueue]. *)
Definition removeSession_detach (sessionId : string) (st : QM) : QM :=
  let st1 := if Js.strict_eq (activeSession st) sessionId
             then set_activeSession None st else st in
  let queueIndex := Js.indexOf sessionId (queue st1) in
  let st2 := if queueIndex >? -1
             then set_queue (Js.splice1 (Z.to_nat queueIndex) (queue st1)) st1
             else st1 in
  let st3 := set_sessions (JsMap.delete sessionId (sessions st2)) st2 in
  set_lastActivityTime (JsMap.delete sessionId (lastActivityTime st3)) st3.

(** [removeSession(sessionId, processNext)], over the [processQueue] it
    calls. *)
Definition removeSession_with (next : QM -> option QM)
           (sessionId : string) (processNext : bool) (st : QM) : option QM :=
  let wasActive := Js.strict_eq (activeSession st) sessionId in
  let st' := removeSession_detach sessionId st in
  if wasActive && processNext then next st' else Some st'.

(** One turn of the loop of [cleanupExpiredSessions]: the entry of key [k],
    if the live iterator still finds it. *)
Definition cleanup_visit (remove : string -> QM -> option QM)
           (now : Z) (k : string) (st : QM) : option QM :=
  match JsMap.get k (sessions st) with
  | Some session =>
      if Status_eqb (status session) waiting && (now - joinedAt session >? maxWaitTime)
      then remove k st
      else Some st
  | None => Some st
  end.

(** [for (const [sessionId, session] of this.sessions)]: the keys in
    insertion order; an entry deleted before its turn is skipped. *)
Fixpoint cleanup_loop (remove : string -> QM -> option QM)
         (now : Z) (ks : list string) (st : QM) : option QM :=
  match ks with
  | [] => Some st
  | k :: rest =>
      match cleanup_visit remove now k st with
      | Some st' => cleanup_loop remove now rest st'
      | None => None
      end
  end.

(** [processQueue()], with the recursion through [cleanupExpiredSessions]
    and [removeSession] bounded by [fuel]; [None] is fuel exhaustion. *)
Fixpoint processQueue_fuel (fuel : nat) (now : Z) (st : QM)
  : option (QM * option string) :=
  match fuel with
  | O => None
  | S f =>
      let next := fun s => option_map fst (processQueue_fuel f now s) in
      let remove := fun k s => removeSession_with next k true s in
      match cleanup_loop remove now (JsMap.keys (sessions st)) st with
      | None => None
      | Some st1 =>
          match queue st1 with
          | [] => Some (set_activeSession None st1, None)
          | nextSessionId :: rest =>
              let st2 := set_queue rest st1 in
              match JsMap.get nextSessionId (sessions st2) with
              | None => processQueue_fuel f now st2
              | Some session =>
                  Some (activate now nextSessionId session st2, Some nextSessionId)
              end
          end
      end
  end.

(** The entries a state holds: each nested call of [processQueue] has
    lost a session or a queue entry, so one more than this is fuel enough. *)
Definition size_of (st : QM) : nat :=
  (List.length (sessions st) + List.length (queue st))%nat.

Definition fuel_of (st : QM) : nat := S (size_of st).

Definition processQueue (now : Z) (st : QM) : option (QM * option string) :=
  processQueue_fuel (fuel_of st) now st.

Definition removeSession (now : Z) (sessionId : string) (processNext : bool)
           (st : QM) : option QM :=
  removeSession_with (fun s => option_map fst (processQueue now s))
                     sessionId processNext st.

Definition cleanupExpiredSessions (now : Z) (st : QM) : option QM :=
  cleanup_loop (fun k s => removeSession now k true s) now
               (JsMap.keys (sessions st)) st.

(** [completeSession(sessionId)]. *)
Definition completeSession (now : Z) (sessionId : string) (st : QM) : option QM :=
  removeSession now sessionId true
                (set_completedSessions (completedSessions st + 1) st).

(** [checkSessionTimeout(sessionId)]. *)
Definition checkSessionTimeout (now : Z) (sessionId : string) (st : QM) : option QM :=
  if negb (Js.strict_eq (activeSession st) sessionId) then Some st
  else
    let lastActivity := Js.num_or (JsMap.get sessionId (lastActivityTime st)) 0 in
    let timeSinceActivity := now - lastActivity in
    if timeSinceActivity >=? sessionTimeout
    then removeSession now sessionId true st
    else Some (setTimeout now (sessionTimeout - timeSinceActivity) sessionId st).

(** [getQueueInfo()]. *)
Record QueueEntry := mkQueueEntry {
  e_sessionId : string;
  e_position : Z;
  e_fileInfo : option FileInfo
}.

Record QueueInfo := mkQueueInfo {
  i_activeSession : option string;
  i_queueLength : nat;
  i_totalSessions : nat;
  i_queue : list QueueEntry
}.

Fixpoint queueEntries (index : Z) (q : list string) (m : JsMap.t Session)
  : list QueueEntry :=
  match q with
  | [] => []
  | k :: rest =>
      mkQueueEntry k (index + 1) (option_map fileInfo (JsMap.get k m))
        :: queueEntries (index + 1) rest m
  end.

Definition getQueueInfo (st : QM) : QueueInfo :=
  mkQueueInfo (activeSession st) (List.length (queue st)) (JsMap.size (sessions st))
              (queueEntries 0 (queue st) (sessions st)).

End QueueManager.

(* ------------------------------------------------------------------------- *)
(** ** The timers of the queue manager, fired by the event loop *)
(* ------------------------------------------------------------------------- *)

Module EventLoop.
Import QueueManager.

Definition set_pending (p : list Timer) (st : QM) : QM :=
  {| queue := queue st; activeSession := activeSession st; sessions := sessions st;
     lastActivityTime := lastActivityTime st;
     completedSessions := completedSessions st; pending := p |}.

(** The pending timer that fires first: least due time, the earlier
    registration on a tie. *)
Fixpoint earliest (ts : list Timer) : option Timer :=
  match ts with
  | [] => None
  | t :: rest =>
      match earliest rest with
      | Some t' => if due t' <? due t then Some t' else Some t
      | None => Some t
      end
  end.

Definition Timer_eqb (a b : Timer) : bool :=
  (armedAt a =? armedAt b) && (delay a =? delay b) && String.eqb (target a) (target b).

Fixpoint unregister (t : Timer) (ts : list Timer) : list Timer :=
  match ts with
  | [] => []
  | t' :: rest => if Timer_eqb t t' then rest else t' :: unregister t rest
  end.

(** Lets the clock run up to [upto] with no request arriving: every timer
    that comes due fires at its due time, in due order, and runs its
    [checkSessionTimeout].  [fuel] bounds the number of firings. *)
Fixpoint advance (fuel : nat) (upto : Z) (st : QM) : option QM :=
  match fuel with
  | O => None
  | S f =>
      match earliest (pending st) with
      | None => Some st
      | Some t =>
          if due t <=? upto then
            match checkSessionTimeout (due t) (target t)
                                      (set_pending (unregister t (pending st)) st) with
            | Some st' => advance f upto st'
            | None => None
            end
          else Some st
      end
  end.

End EventLoop.

(* ------------------------------------------------------------------------- *)
(** ** coinListener.js: the line protocol and the observers *)
(* ------------------------------------------------------------------------- *)

Module CoinListener.

(** [this.coinValues], the own properties of the object literal. *)
Definition coinValues : JsMap.t Js.Value :=
  [("1", Js.VNumber 1); ("5", Js.VNumber 5);
   ("10", Js.VNumber 10); ("20", Js.VNumber 20)].

Definition nativeFunction (name : string) : Js.Value :=
  Js.VObject ("function " ++ name ++ "() { [native code] }")%string.

(** The members of [Object.prototype], which every object literal
    inherits. *)
Definition objectPrototype : JsMap.t Js.Value :=
  [("constructor", nativeFunction "Object");
   ("__defineGetter__", nativeFunction "__defineGetter__");
   ("__defineSetter__", nativeFunction "__defineSetter__");
   ("hasOwnProperty", nativeFunction "hasOwnProperty");
   ("__lookupGetter__", nativeFunction "__lookupGetter__");
   ("__lookupSetter__", nativeFunction "__lookupSetter__");
   ("isPrototypeOf", nativeFunction "isPrototypeOf");
   ("propertyIsEnumerable", nativeFunction "propertyIsEnumerable");
   ("toString", nativeFunction "toString");
   ("valueOf", nativeFunction "valueOf");
   ("__proto__", Js.VObject "[object Object]");
   ("toLocaleString", nativeFunction "toLocaleString")].

(** [this.coinValues[coinType]]: the own property, else the inherited
    one, else [undefined]. *)
Definition lookupCoinValue (coinType : string) : Js.Value :=
  match JsMap.get coinType coinValues with
  | Some v => v
  | None =>
      match JsMap.get coinType objectPrototype with
      | Some v => v
      | None => Js.VUndefined
      end
  end.

Inductive Completion :=
| Normal
| Throw (error : string).

Section Bridge.
(** The state the observers act on. *)
Variable U : Type.

(** A registered observer: what a call [callback(coinValue, coinType)]
    does to the observers' state, and how it completes.  An observer acts
    on that state only: one that registers or removes observers while it
    is called is not modelled. *)
Definition Callback := Js.Value -> string -> U -> U * Completion.

(** One call of an observer: its registration index and its arguments. *)
Record Delivery := mkDelivery {
  d_index : nat;
  d_value : Js.Value;
  d_type : string
}.

Record World := mkWorld {
  user : U;
  deliveries : list Delivery
}.

(** [callback(coinValue, coinType)] for the observer registered at
    [index]. *)
Definition call (index : nat) (cb : Callback) (v : Js.Value) (t : string)
           (w : World) : World * Completion :=
  let (u', c) := cb v t (user w) in
  (mkWorld u' (deliveries w ++ [mkDelivery index v t]), c).

(** [try { body } catch (error) { console.error(...) }]. *)
Definition try_catch (body : World -> World * Completion) (w : World)
  : World * Completion :=
  match body w with
  | (w', Throw _) => (w', Normal)
  | r => r
  end.

(** [arr.forEach(f)]: an abrupt completion of [f] ends the loop. *)
Fixpoint forEach_from (index : nat)
         (f : nat -> Callback -> World -> World * Completion)
         (arr : list Callback) (w : World) : World * Completion :=
  match arr with
  | [] => (w, Normal)
  | cb :: rest =>
      match f index cb w with
      | (w', Normal) => forEach_from (S index) f rest w'
      | (w', Throw e) => (w', Throw e)
      end
  end.

(** [onCoinDetected(callback)]. *)
Definition onCoinDetected (cb : Callback) (coinCallbacks : list Callback)
  : list Callback :=
  coinCallbacks ++ [cb].

(** [handleCoinDetection(coinType)]. *)
Definition handleCoinDetection (coinCallbacks : list Callback)
           (coinType : string) (w : World) : World * Completion :=
  let coinValue := lookupCoinValue coinType in
  if Js.truthy_value coinValue then
    forEach_from 0
      (fun index callback => try_catch (call index callback coinValue coinType))
      coinCallbacks w
  else (w, Normal).

(** [handleArduinoData(data)]; the parser hands it the trimmed line. *)
Definition handleArduinoData (coinCallbacks : list Callback)
           (data : string) (w : World) : World * Completion :=
  if Js.startsWith "COIN:" data then
    handleCoinDetection coinCallbacks (Js.trim (Js.substring_from 5 data)) w
  else if Js.startsWith "STATUS:" data then (w, Normal)
  else if Js.startsWith "ERROR:" data then (w, Normal)
  else if String.eqb data "READY" then (w, Normal)
  else (w, Normal).

(** [parser.on('data', (data) => this.handleArduinoData(data.trim()))]. *)
Definition onData (coinCallbacks : list Callback) (line : string) (w : World)
  : World * Completion :=
  handleArduinoData coinCallbacks (Js.trim line) w.

End Bridge.

Arguments mkWorld {U} _ _.
Arguments user {U} _.
Arguments deliveries {U} _.
Arguments handleCoinDetection {U}.
Arguments handleArduinoData {U}.
Arguments onData {U}.
Arguments onCoinDetected {U}.

End CoinListener.

(* ------------------------------------------------------------------------- *)
(** ** server.js: the claimed-coin ledger and the payment gate *)
(* ------------------------------------------------------------------------- *)

Module Server.

Record ClaimedCoin := mkClaimedCoin {
  c_timestamp : Js.Value;
  c_value : Js.Value;
  c_sessionId : Js.Value;
  claimedAt : Z
}.

(** [global.lastCoinDetected]. *)
Record LastCoin := mkLastCoin {
  l_value : Js.Value;
  l_type : string;
  l_timestamp : Z
}.

Record State := mkState {
  queueManager : QueueManager.QM;
  claimedCoins : JsMap.t ClaimedCoin;
  lastCoinDetected : option LastCoin
}.

Definition set_claimedCoins (m : JsMap.t ClaimedCoin) (st : State) : State :=
  mkState (queueManager st) m (lastCoinDetected st).

Definition set_queueManager (q : QueueManager.QM) (st : State) : State :=
  mkState q (claimedCoins st) (lastCoinDetected st).

(** [`${timestamp}_${value}`]. *)
Definition coinKey (timestamp value : Js.Value) : string :=
  (Js.template timestamp ++ "_" ++ Js.template value)%string.

(** The observer the server registers with the coin listener: it stores
    the coin as the last one detected. *)
Definition coinObserver (now : Z) : CoinListener.Callback State :=
  fun coinValue coinType st =>
    (mkState (queueManager st) (claimedCoins st)
             (Some (mkLastCoin coinValue coinType now)),
     CoinListener.Normal).

(** The body of [POST /api/claim-coin]. *)
Record ClaimBody := mkClaimBody {
  b_timestamp : Js.Value;
  b_value : Js.Value;
  b_sessionId : Js.Value
}.

Inductive ClaimResponse :=
| ClaimMissingFields                 (* 400 *)
| ClaimSuccess (coinKey : string).   (* 200, success: true *)

Definition api_claim_coin (now : Z) (body : ClaimBody) (st : State)
  : State * ClaimResponse :=
  if negb (Js.truthy_value (b_timestamp body))
     || negb (Js.truthy_value (b_value body))
     || negb (Js.truthy_value (b_sessionId body))
  then (st, ClaimMissingFields)
  else
    let key := coinKey (b_timestamp body) (b_value body) in
    (set_claimedCoins
       (JsMap.set key
          (mkClaimedCoin (b_timestamp body) (b_value body) (b_sessionId body) now)
          (claimedCoins st)) st,
     ClaimSuccess key).

(** The ledger operations of the spec, as the handlers perform them. *)
Definition claim (now : Z) (timestamp value sessionId : Js.Value) (st : State) : State :=
  fst (api_claim_coin now (mkClaimBody timestamp value sessionId) st).

Definition lookup (timestamp value : Js.Value) (st : State) : option ClaimedCoin :=
  JsMap.get (coinKey timestamp value) (claimedCoins st).

(** The [lastCoin] member of the answer of [GET /api/arduino-status]. *)
Record LastCoinView := mkLastCoinView {
  v_coin : LastCoin;
  v_sessionId : option Js.Value;
  v_isClaimed : bool
}.

Definition api_arduino_status_lastCoin (st : State) : option LastCoinView :=
  match lastCoinDetected st with
  | None => None
  | Some lastCoin =>
      match lookup (Js.VNumber (l_timestamp lastCoin)) (l_value lastCoin) st with
      | Some claimedCoin => Some (mkLastCoinView lastCoin (Some (c_sessionId claimedCoin)) true)
      | None => Some (mkLastCoinView lastCoin None false)
      end
  end.

(** The callback of [setInterval(..., 60000)]: one visit per entry that the
    live iterator still finds. *)
Definition sweep_visit (fiveMinutesAgo : Z) (m : JsMap.t ClaimedCoin) (coinKey : string)
  : JsMap.t ClaimedCoin :=
  match JsMap.get coinKey m with
  | Some coinData =>
      if claimedAt coinData <? fiveMinutesAgo then JsMap.delete coinKey m else m
  | None => m
  end.

Definition sweepClaimedCoins (now : Z) (st : State) : State :=
  let fiveMinutesAgo := now - 5 * 60 * 1000 in
  set_claimedCoins
    (fold_left (sweep_visit fiveMinutesAgo) (JsMap.keys (claimedCoins st))
               (claimedCoins st)) st.

Definition sweepInterval : Z := 60000.
Definition claimTTL : Z := 5 * 60 * 1000.

(** The sweeps of the interval timer started at [start] that have fired up
    to [now], oldest first: the [k]-th fires at [start + k * 60000]. *)
Fixpoint sweeps_from (fuel : nat) (next now : Z) (st : State) : State :=
  match fuel with
  | O => st
  | S f =>
      if next <=? now
      then sweeps_from f (next + sweepInterval) now (sweepClaimedCoins next st)
      else st
  end.

(** [POST /api/print]. *)
Record PrintRequest := mkPrintRequest {
  file : option string;        (* req.file: the uploaded file, if any *)
  p_sessionId : option string; (* req.body.sessionId, a multipart text field *)
  p_fields : list (string * string) (* the other fields of the body *)
}.

Inductive PrintResponse :=
| PrintNoFile                                      (* 400 *)
| PrintNotYourTurn (queueStatus : QueueManager.QueueStatus) (* 403 *)
| PrintSent                                        (* 200 *)
| PrintError.                                      (* 500 *)

Section Print.
(** The collaborators behind the gate: saving, conversion and
    [printFile]; [true] when [printResult.success] is reached. *)
Variable printPipeline : PrintRequest -> bool.

(** The admission check of the handler: [Some] is the 403 answer. *)
Definition print_gate (now : Z) (req : PrintRequest) (st : State)
  : option PrintResponse :=
  match p_sessionId req with
  | Some sessionId =>
      if Js.truthy (Some sessionId) then
        if negb (QueueManager.canProceedToPayment sessionId (queueManager st))
        then Some (PrintNotYourTurn
                     (QueueManager.getQueueStatus now sessionId (queueManager st)))
        else None
      else None
  | None => None
  end.

(** [if (sessionId) queueManager.completeSession(sessionId)]. *)
Definition print_complete (now : Z) (req : PrintRequest) (st : State)
  : option State :=
  match p_sessionId req with
  | Some sessionId =>
      if Js.truthy (Some sessionId) then
        option_map (fun q => set_queueManager q st)
                   (QueueManager.completeSession now sessionId (queueManager st))
      else Some st
  | None => Some st
  end.

(** The handler taken in one turn: the admission check, the pipeline and
    the completion on one state at one clock reading.  The handler awaits
    the pipeline between the check and the completion, so this is exact
    for a request without a session id, which neither reads nor writes
    the queue. *)
Definition api_print (now : Z) (req : PrintRequest) (st : State)
  : option (State * PrintResponse) :=
  match file req with
  | None => Some (st, PrintNoFile)
  | Some _ =>
      match print_gate now req st with
      | Some refusal => Some (st, refusal)
      | None =>
          if printPipeline req
          then option_map (fun st' => (st', PrintSent)) (print_complete now req st)
          else Some (st, PrintError)
      end
  end.
End Print.

End Server.

(* ------------------------------------------------------------------------- *)
(** ** Runs of the queue manager and its invariants *)
(* ------------------------------------------------------------------------- *)

Module QueueRuns.
Import QueueManager.

(** The operations of the class. *)
Inductive Op :=
| OpJoinQueue (sessionId : string) (fi : FileInfo)
| OpProcessQueue
| OpUpdateActivity (sessionId : string)
| OpCompleteSession (sessionId : string)
| OpRemoveSession (sessionId : string) (processNext : bool)
| OpCheckSessionTimeout (sessionId : string)
| OpCleanupExpiredSessions.

Definition run_op (now : Z) (op : Op) (st : QM) : option QM :=
  match op with
  | OpJoinQueue sessionId fi => Some (fst (joinQueue now sessionId fi st))
  | OpProcessQueue => option_map fst (processQueue now st)
  | OpUpdateActivity sessionId => Some (updateActivity now sessionId st)
  | OpCompleteSession sessionId => completeSession now sessionId st
  | OpRemoveSession sessionId processNext => removeSession now sessionId processNext st
  | OpCheckSessionTimeout sessionId => checkSessionTimeout now sessionId st
  | OpCleanupExpiredSessions => cleanupExpiredSessions now st
  end.

(** A run: each operation with the clock reading it sees. *)
Fixpoint run (events : list (Z * Op)) (st : QM) : option QM :=
  match events with
  | [] => Some st
  | (now, op) :: rest =>
      match run_op now op st with
      | Some st' => run rest st'
      | None => None
      end
  end.

(** Session ids are truthy strings: server.js answers 400 to a join
    without one. *)
Definition admissible (op : Op) : bool :=
  match op with
  | OpJoinQueue sessionId _ => Js.truthy (Some sessionId)
  | _ => true
  end.

(** The operations called from outside the class: [processQueue] is only
    ever called by [removeSession] and by itself. *)
Definition external (op : Op) : bool :=
  match op with
  | OpProcessQueue => false
  | _ => admissible op
  end.

(** The calls server.js and the timers make: [removeSession] always with
    its default [processNext = true]. *)
Definition served (op : Op) : bool :=
  match op with
  | OpRemoveSession _ processNext => processNext
  | _ => external op
  end.

Definition reaches (allowed : Op -> bool) (events : list (Z * Op)) (st : QM) : Prop :=
  forallb (fun e => allowed (snd e)) events = true /\ run events init = Some st.

(** The number of sessions whose [status] is ['active']. *)
Definition activeCount (st : QM) : nat :=
  List.length (filter (fun s => Status_eqb (status s) active)
                      (JsMap.values (sessions st))).

(** The array without the first occurrence of [x]. *)
Fixpoint remove_first (x : string) (l : list string) : list string :=
  match l with
  | [] => []
  | y :: rest => if String.eqb y x then rest else y :: remove_first x rest
  end.

(** [a] stands before [b] in the waiting line. *)
Inductive Before (a b : string) : list string -> Prop :=
| Before_here rest : In b rest -> Before a b (a :: rest)
| Before_later x rest : Before a b rest -> Before a b (x :: rest).

(** Well-formedness of the state. *)
Record WF (st : QM) : Prop := mkWF {
  wf_keys : NoDup (JsMap.keys (sessions st));
  wf_ids : forall k, In k (JsMap.keys (sessions st)) -> k <> "";
  wf_queue : NoDup (queue st);
  wf_waiting : forall k, In k (queue st) ->
               exists s, JsMap.get k (sessions st) = Some s /\ status s = waiting;
  wf_active : forall a, activeSession st = Some a ->
              exists s, JsMap.get a (sessions st) = Some s /\ status s = active;
  wf_cap : (List.length (queue st) <= MAX_QUEUE_SIZE)%nat
}.

(** Only the session in the active slot has the status ['active']. *)
Definition OneActive (st : QM) : Prop :=
  forall k s, JsMap.get k (sessions st) = Some s -> status s = active ->
              activeSession st = Some k.

(** An empty slot means an empty waiting line. *)
Definition NoIdleSlot (st : QM) : Prop :=
  activeSession st = None -> queue st = [].

(** The test of the sweep on the session stored under [k]. *)
Definition expired (now : Z) (st : QM) (k : string) : bool :=
  match JsMap.get k (sessions st) with
  | Some session =>
      Status_eqb (status session) waiting && (now - joinedAt session >? maxWaitTime)
  | None => false
  end.

(** The sweep when no swept session holds the active slot. *)
Definition sweep_step (now : Z) (st : QM) (k : string) : QM :=
  if expired now st k then removeSession_detach k st else st.

Definition sweep (now : Z) (ks : list string) (st : QM) : QM :=
  fold_left (sweep_step now) ks st.

(** The promotion step of [processQueue] after the sweep, when the head
    of the queue has its session. *)
Definition promote (now : Z) (st : QM) : QM * option string :=
  match queue st with
  | [] => (set_activeSession None st, None)
  | nextSessionId :: rest =>
      match JsMap.get nextSessionId (sessions st) with
      | Some session =>
          (activate now nextSessionId session (set_queue rest st), Some nextSessionId)
      | None => (set_queue rest st, None)
      end
  end.

(** [processQueue] on a well-formed state: the sweep, then the promotion. *)
Definition processQueue_wf (now : Z) (st : QM) : QM * option string :=
  promote now (sweep now (JsMap.keys (sessions st)) st).

(** [removeSession] on a well-formed state. *)
Definition removeSession_wf (now : Z) (k : string) (processNext : bool) (st : QM) : QM :=
  if Js.strict_eq (activeSession st) k && processNext
  then fst (processQueue_wf now (removeSession_detach k st))
  else removeSession_detach k st.

(** The state after an admitted join of a new session. *)
Definition joined (now : Z) (k : string) (fi : FileInfo) (st : QM) : QM :=
  let session := mkSession k fi now waiting None in
  let st1 := set_sessions (JsMap.set k session (sessions st)) st in
  if Js.truthy (activeSession st) then set_queue (queue st ++ [k]) st1
  else activate now k session st1.

(** One step respects the order of the waiting line: [b] is not promoted
    while [a], ahead of it, still waits, and the two keep their order. *)
Definition FifoStep (st st' : QM) : Prop :=
  forall a b, Before a b (queue st) ->
    (activeSession st' = Some b -> ~ In a (queue st')) /\
    (In a (queue st') -> In b (queue st') -> Before a b (queue st')).

(** The waiting line without the sessions the sweep at [now] removes. *)
Definition live (now : Z) (st : QM) : list string :=
  filter (fun k => negb (expired now st k)) (queue st).

End QueueRuns.

(* ------------------------------------------------------------------------- *)
(** ** Scenarios *)
(* ------------------------------------------------------------------------- *)

Module Scenarios.
Import QueueManager QueueRuns.

Definition someFile : FileInfo := mkFileInfo "a.pdf" 3 0.

(** The active session [a] sends a heartbeat every 80 s, [n] times from
    [t] on; in between the clock runs and the timers that come due fire. *)
Fixpoint keepAlive (n : nat) (t : Z) (a : string) (st : QM) : option QM :=
  match n with
  | O => Some st
  | S n' =>
      match EventLoop.advance 4 (t + 80000) st with
      | Some st1 => keepAlive n' (t + 80000) a (updateActivity (t + 80000) a st1)
      | None => None
      end
  end.

(** "A" joins at 1 s and holds the slot, "B" joins at 2 s and waits; "A"
    sends [n] heartbeats, the last one at [1 + 80 n] s. *)
Definition staleAfter (n : nat) : option QM :=
  let st1 := fst (joinQueue 1000 "A" someFile init) in
  let st2 := fst (joinQueue 2000 "B" someFile st1) in
  keepAlive n 1000 "A" st2.

(** "X" joins at 1 s and holds the slot with a heartbeat every 80 s up
    to 641 s; "A" joins at 2 s and "B" at 82 s, and both wait. *)
Definition overtaking : option QM :=
  let st1 := fst (joinQueue 1000 "X" someFile init) in
  let st2 := fst (joinQueue 2000 "A" someFile st1) in
  match keepAlive 1 1000 "X" st2 with
  | Some st3 => keepAlive 7 81000 "X" (fst (joinQueue 82000 "B" someFile st3))
  | None => None
  end.

(** Eleven sessions join one after the other: one active, ten waiting. *)
Definition fullHouse : list (Z * Op) :=
  map (fun n => (Z.of_nat n, OpJoinQueue (Js.string_of_Z (Z.of_nat n)) someFile))
      (seq 1 11).

(** The full house, then the active session is removed without a
    promotion and a session with the empty string as its id joins: it
    takes the slot, and ten sessions still wait. *)
Definition emptyIdHolds : list (Z * Op) :=
  fullHouse ++ [(12, OpRemoveSession "1" false); (13, OpJoinQueue "" someFile)].

End Scenarios.

(* ------------------------------------------------------------------------- *)
(** ** More of the queue manager: bookkeeping invariants and the event loop *)
(* ------------------------------------------------------------------------- *)

Module QueueMore.
Import QueueManager QueueRuns.

(** Every session that waits stands in the waiting line. *)
Definition WaitingQueued (st : QM) : Prop :=
  forall k s, JsMap.get k (sessions st) = Some s -> status s = waiting ->
              In k (queue st).

(** [lastActivityTime] has an entry for the session in the slot and for no
    other. *)
Definition ActivityTracked (st : QM) : Prop :=
  (forall k, In k (JsMap.keys (lastActivityTime st)) -> activeSession st = Some k)
  /\ (forall a, activeSession st = Some a ->
                exists t, JsMap.get a (lastActivityTime st) = Some t).

(** The session in the slot has a timeout check pending. *)
Definition Watched (st : QM) : Prop :=
  forall a, activeSession st = Some a ->
            exists t, In t (pending st) /\ target t = a.

Definition is_completeSession (e : Z * Op) : bool :=
  match snd e with
  | OpCompleteSession _ => true
  | _ => false
  end.

(** The number of [completeSession] calls of a run. *)
Definition completions (events : list (Z * Op)) : Z :=
  Z.of_nat (List.length (filter is_completeSession events)).

(** One turn of the event loop: a call of an operation at a clock reading,
    or a pending timer firing at its due time. *)
Inductive Turn :=
| Call (now : Z) (op : Op)
| Fire (t : Timer).

(** The callback of the timer [t]: the timer leaves the pending ones and
    [checkSessionTimeout] runs for its target. *)
Definition fire (t : Timer) (st : QM) : option QM :=
  checkSessionTimeout (due t) (target t)
    (EventLoop.set_pending (EventLoop.unregister t (pending st)) st).

(** A timer that is not pending does not fire. *)
Definition turn (e : Turn) (st : QM) : option QM :=
  match e with
  | Call now op => run_op now op st
  | Fire t => if existsb (EventLoop.Timer_eqb t) (pending st) then fire t st else Some st
  end.

Fixpoint turns (es : list Turn) (st : QM) : option QM :=
  match es with
  | [] => Some st
  | e :: rest =>
      match turn e st with
      | Some st' => turns rest st'
      | None => None
      end
  end.

Definition admissible_turn (e : Turn) : bool :=
  match e with
  | Call _ op => admissible op
  | Fire _ => true
  end.

End QueueMore.

(* ------------------------------------------------------------------------- *)
(** ** coinListener.js: the connection to the device *)
(* ------------------------------------------------------------------------- *)

Module SerialLink.

(** The asynchronous steps of the class are taken one event at a time: a
    timer firing, a ['close'] or ['error'] event of a port, or a call from
    outside.  What the operating system answers is the [Env] of the event.
    The callback of [port.open] and the resolution of [SerialPort.list()]
    are run within the event that asked for them, and the callbacks of
    [port.set] are taken to be called. *)

(** The [SerialPort] object held in [this.port]. *)
Record Port := mkPort {
  path : string;
  isOpen : bool
}.

(** The callbacks the class hands to [setTimeout]. *)
Inductive Action :=
| ActConnectToArduino
| ActTryNextPort (comPorts : list string) (index : nat)
| ActResetPulse
| ActHandshake.

(** The listener, with the timers it has pending, the lines written to the
    port and the paths on which a [SerialPort] was constructed. *)
Record Listener := mkListener {
  isConnected : bool;
  port : option Port;
  reconnectAttempts : Z;
  pending : list (Z * Action);
  written : list string;
  attempted : list string
}.

Definition maxReconnectAttempts : Z := 5.
Definition reconnectDelay : Z := 8000.
Definition startupDelay : Z := 5000.

Definition setTimeout (delay : Z) (a : Action) (l : Listener) : Listener :=
  mkListener (isConnected l) (port l) (reconnectAttempts l)
             (pending l ++ [(delay, a)]) (written l) (attempted l).

(** [init()]. *)
Definition init (l : Listener) : Listener :=
  setTimeout startupDelay ActConnectToArduino l.

(** [new CoinListener()]: the constructor ends with [this.init()]. *)
Definition constructed : Listener :=
  init (mkListener false None 0 [] [] []).

(** [handleConnectionError()]. *)
Definition handleConnectionError (l : Listener) : Listener :=
  let l1 := mkListener false (port l) (reconnectAttempts l)
                       (pending l) (written l) (attempted l) in
  if reconnectAttempts l1 <? maxReconnectAttempts then
    setTimeout reconnectDelay ActConnectToArduino
      (mkListener (isConnected l1) (port l1) (reconnectAttempts l1 + 1)
                  (pending l1) (written l1) (attempted l1))
  else l1.

(** [cleanup()]: an open port is closed; the port object stays.  The
    ['close'] event that follows is an event of its own
    ([EvPortClosed]). *)
Definition cleanup (l : Listener) : Listener :=
  let port' :=
    match port l with
    | Some p => if isOpen p then Some (mkPort (path p) false) else Some p
    | None => None
    end in
  mkListener false port' (reconnectAttempts l) (pending l) (written l) (attempted l).

(** [sendCommand(command)]. *)
Definition sendCommand (command : string) (l : Listener) : Listener :=
  match isConnected l, port l with
  | true, Some _ =>
      mkListener (isConnected l) (port l) (reconnectAttempts l) (pending l)
                 (written l ++ [(command ++ String "010" EmptyString)%string])
                 (attempted l)
  | _, _ => l
  end.

(** [testConnection()]. *)
Definition testConnection (l : Listener) : Listener * bool :=
  if isConnected l then (sendCommand "TEST" l, true) else (l, false).

(** [getConnectionStatus()]. *)
Record ConnectionStatus := mkConnectionStatus {
  s_isConnected : bool;
  s_port : option string;
  s_reconnectAttempts : Z
}.

Definition getConnectionStatus (l : Listener) : ConnectionStatus :=
  mkConnectionStatus (isConnected l) (option_map path (port l)) (reconnectAttempts l).

(** What the operating system answers to one attempt on a path:
    [new SerialPort] throws, or the port is created and [open] calls back
    with an error, or with none. *)
Inductive Attempt :=
| Throws
| OpenFails
| Opens.

(** The surroundings of one connection cycle. *)
Record Env := mkEnv {
  SERIAL_PORT : string;                      (* process.env.SERIAL_PORT || '' *)
  isWindows : bool;                          (* process.platform === 'win32' *)
  listed : option (list (option string));    (* SerialPort.list(): the paths, or a rejection *)
  attempt : string -> Attempt
}.

(** [tryNextPort(comPorts, index)], with the callback of [open].  When
    [new SerialPort] throws, [this.port] keeps what it held. *)
Definition tryNextPort (env : Env) (comPorts : list string) (index : nat)
           (l : Listener) : Listener :=
  match nth_error comPorts index with
  | None => handleConnectionError l
  | Some portPath =>
      let l0 := mkListener (isConnected l) (port l) (reconnectAttempts l)
                           (pending l) (written l) (attempted l ++ [portPath]) in
      match attempt env portPath with
      | Throws => setTimeout 500 (ActTryNextPort comPorts (S index)) l0
      | OpenFails =>
          handleConnectionError
            (cleanup (mkListener (isConnected l0) (Some (mkPort portPath false))
                                 (reconnectAttempts l0) (pending l0) (written l0)
                                 (attempted l0)))
      | Opens =>
          setTimeout 500 ActResetPulse
            (mkListener true (Some (mkPort portPath true)) 0
                        (pending l0) (written l0) (attempted l0))
      end
  end.

(** The serial ports the Linux branch keeps. *)
Definition isCandidate (p : option string) : bool :=
  match p with
  | Some pth =>
      negb (String.eqb pth "")
      && (Js.startsWith "/dev/ttyACM" pth || Js.startsWith "/dev/ttyUSB" pth)
  | None => false
  end.

Fixpoint candidatesOf (ports : list (option string)) : list string :=
  match ports with
  | [] => []
  | Some pth :: rest =>
      if isCandidate (Some pth) then pth :: candidatesOf rest else candidatesOf rest
  | None :: rest => candidatesOf rest
  end.

(** [connectToArduino()]. *)
Definition connectToArduino (env : Env) (l : Listener) : Listener :=
  let configuredPort := Js.trim (SERIAL_PORT env) in
  if negb (String.eqb configuredPort "") then tryNextPort env [configuredPort] 0 l
  else if isWindows env then tryNextPort env ["COM3"] 0 l
  else
    match listed env with
    | None => handleConnectionError l
    | Some ports =>
        match candidatesOf ports with
        | [] => handleConnectionError l
        | candidates => tryNextPort env candidates 0 l
        end
    end.

(** [setComPort(portPath)]. *)
Definition setComPort (portPath : string) (l : Listener) : Listener :=
  setTimeout 1000 (ActTryNextPort [portPath] 0)
             (if isConnected l then cleanup l else l).

(** The handlers of the port events ['close'] and ['error']. *)
Definition onPortClosed (l : Listener) : Listener :=
  handleConnectionError
    (mkListener false (port l) (reconnectAttempts l) (pending l) (written l)
                (attempted l)).

(** What a timer does when it fires.  The reset of the device is two
    timers: 500 ms between the two [port.set] calls, then 3000 ms before
    the READY line. *)
Definition perform (env : Env) (a : Action) (l : Listener) : Listener :=
  match a with
  | ActConnectToArduino => connectToArduino env l
  | ActTryNextPort comPorts index => tryNextPort env comPorts index l
  | ActResetPulse => setTimeout 3000 ActHandshake l
  | ActHandshake => sendCommand "READY" l
  end.

Fixpoint remove_nth {A} (n : nat) (l : list A) : list A :=
  match n, l with
  | _, [] => []
  | O, _ :: rest => rest
  | S n', x :: rest => x :: remove_nth n' rest
  end.

(** What happens to the listener. *)
Inductive Event :=
| EvTimer (n : nat) (env : Env)       (* the [n]-th pending timer fires *)
| EvPortClosed                        (* 'close' or 'error' on the port *)
| EvSendCommand (command : string)
| EvTestConnection
| EvSetComPort (portPath : string)
| EvCleanup
| EvInit.

Definition step (e : Event) (l : Listener) : Listener :=
  match e with
  | EvTimer n env =>
      match nth_error (pending l) n with
      | Some (_, a) =>
          perform env a
            (mkListener (isConnected l) (port l) (reconnectAttempts l)
                        (remove_nth n (pending l)) (written l) (attempted l))
      | None => l
      end
  | EvPortClosed => onPortClosed l
  | EvSendCommand command => sendCommand command l
  | EvTestConnection => fst (testConnection l)
  | EvSetComPort portPath => setComPort portPath l
  | EvCleanup => cleanup l
  | EvInit => init l
  end.

Definition steps (es : list Event) (l : Listener) : Listener :=
  fold_left (fun l e => step e l) es l.

(** The timers fire one after the other, oldest first, in the same
    surroundings, until none is pending or [fuel] runs out. *)
Fixpoint drain (fuel : nat) (env : Env) (l : Listener) : Listener :=
  match fuel with
  | O => l
  | S f =>
      match pending l with
      | [] => l
      | _ :: _ => drain f env (step (EvTimer 0 env) l)
      end
  end.

(** The paths one connection cycle walks through; none when the listing
    fails or finds no candidate. *)
Definition portsOf (env : Env) : list string :=
  let configuredPort := Js.trim (SERIAL_PORT env) in
  if negb (String.eqb configuredPort "") then [configuredPort]
  else if isWindows env then ["COM3"]
  else
    match listed env with
    | None => []
    | Some ports => candidatesOf ports
    end.

(** The listener while no port has opened yet: nothing written, and at
    most one timer pending, which starts a cycle or tries a path of the
    cycle. *)
Definition Cycling (env : Env) (l : Listener) : Prop :=
  isConnected l = false /\ written l = []
  /\ 0 <= reconnectAttempts l <= maxReconnectAttempts
  /\ ((pending l = [] /\ reconnectAttempts l = maxReconnectAttempts)
      \/ (exists d, pending l = [(d, ActConnectToArduino)])
      \/ (exists d index,
            pending l = [(d, ActTryNextPort (portsOf env) index)]
            /\ (index <= List.length (portsOf env))%nat)).

(** A bound on the timers that still fire before the listener gives up. *)
Definition budget (env : Env) (l : Listener) : nat :=
  let left := Z.to_nat (maxReconnectAttempts - reconnectAttempts l) in
  let k := List.length (portsOf env) in
  match pending l with
  | (_, ActConnectToArduino) :: _ => (left * (k + 2) + k + 2)%nat
  | (_, ActTryNextPort _ index) :: _ => (left * (k + 2) + (k - index) + 1)%nat
  | _ => 0%nat
  end.

(** What every state of the listener satisfies. *)
Definition Linked (l : Listener) : Prop :=
  0 <= reconnectAttempts l <= maxReconnectAttempts
  /\ (isConnected l = true -> port l <> None).

End SerialLink.

(* ------------------------------------------------------------------------- *)
(** ** coinListener.js: registering and removing observers *)
(* ------------------------------------------------------------------------- *)

Module Observers.
Section Registry.
(** Function objects, compared by identity. *)
Variable Ref : Type.
Variable same : Ref -> Ref -> bool.

Fixpoint indexOf_from (i : Z) (x : Ref) (arr : list Ref) : Z :=
  match arr with
  | [] => -1
  | y :: rest => if same y x then i else indexOf_from (i + 1) x rest
  end.

(** [onCoinDetected(callback)]. *)
Definition onCoinDetected (callback : Ref) (coinCallbacks : list Ref) : list Ref :=
  coinCallbacks ++ [callback].

(** [removeCallback(callback)]. *)
Definition removeCallback (callback : Ref) (coinCallbacks : list Ref) : list Ref :=
  let index := indexOf_from 0 callback coinCallbacks in
  if index >? -1
  then firstn (Z.to_nat index) coinCallbacks ++ skipn (S (Z.to_nat index)) coinCallbacks
  else coinCallbacks.
End Registry.
End Observers.

(* ------------------------------------------------------------------------- *)
(** ** server.js: helpers and the queue routes *)
(* ------------------------------------------------------------------------- *)

Module Helpers.

Definition denominations : list Z := [20; 10; 5; 1].

(** The loop of [breakDownPayment]: [coins] is the object under
    construction, its keys the denominations as property names; the
    order in which the properties are enumerated is not kept. *)
Fixpoint breakDown_loop (ds : list Z) (remaining : Z) (coins : JsMap.t Z)
  : JsMap.t Z * Z :=
  match ds with
  | [] => (coins, remaining)
  | denomination :: rest =>
      let count := remaining / denomination in
      if count >? 0
      then breakDown_loop rest (remaining - count * denomination)
                          (JsMap.set (Js.string_of_Z denomination) count coins)
      else breakDown_loop rest remaining coins
  end.

(** [Number.MAX_SAFE_INTEGER]: up to it the doubles of the code hold the
    integers, their quotients round to the right side of every integer,
    and [Math.floor(remaining / denomination)] is the integer quotient. *)
Definition MAX_SAFE_INTEGER : Z := 2 ^ 53 - 1.

(** [breakDownPayment(amount)] for an integer amount up to
    [MAX_SAFE_INTEGER]. *)
Definition breakDownPayment (amount : Z) : JsMap.t Z :=
  fst (breakDown_loop denominations amount JsMap.empty).

(** [coins[denomination]], 0 when the property is absent. *)
Definition countOf (coins : JsMap.t Z) (denomination : Z) : Z :=
  match JsMap.get (Js.string_of_Z denomination) coins with
  | Some count => count
  | None => 0
  end.

(** The value of a breakdown. *)
Definition valueOf (coins : JsMap.t Z) : Z :=
  fold_right (fun d acc => d * countOf coins d + acc) 0 denominations.

(** [/[^a-zA-Z0-9._ -]/]: the characters [sanitizeFileName] keeps. *)
Definition isSafeChar (c : ascii) : bool :=
  let n := nat_of_ascii c in
  ((97 <=? n) && (n <=? 122))%nat        (* a-z *)
  || ((65 <=? n) && (n <=? 90))%nat      (* A-Z *)
  || ((48 <=? n) && (n <=? 57))%nat      (* 0-9 *)
  || (n =? 46)%nat || (n =? 95)%nat      (* . _ *)
  || (n =? 32)%nat || (n =? 45)%nat.     (* space - *)

(** [/[\\/]+/]: a backslash or a slash. *)
Definition isSeparator (c : ascii) : bool :=
  let n := nat_of_ascii c in (n =? 92)%nat || (n =? 47)%nat.

(** [s.replace(/[...]/g, '')] for a class of single characters: the
    characters of the class are dropped. *)
Fixpoint dropChars (drop : ascii -> bool) (s : string) : string :=
  match s with
  | EmptyString => EmptyString
  | String c rest =>
      if drop c then dropChars drop rest else String c (dropChars drop rest)
  end.

Fixpoint forallChars (p : ascii -> bool) (s : string) : bool :=
  match s with
  | EmptyString => true
  | String c rest => p c && forallChars p rest
  end.

(** The strings of ASCII characters: on them the bytes of the embedding
    are the code units of the JS string, and [Js.trim] removes what
    [String.prototype.trim] removes. *)
Definition asciiOnly (s : string) : bool :=
  forallChars (fun c => (nat_of_ascii c <? 128)%nat) s.

(** [sanitizeFileName(name)]. *)
Definition sanitizeFileName (name : string) : string :=
  let cleaned :=
    Js.trim (dropChars isSeparator (dropChars (fun c => negb (isSafeChar c)) name)) in
  if String.eqb cleaned "" then "file" else cleaned.

(** admin_config.js. *)
Definition ADMIN_TOKEN : string := "admin123".

Inductive AuthResult :=
| AuthNext                   (* next() *)
| AuthRefused (error : string). (* 401 *)

(** [requireAdminAuth]: [authorization] is [req.headers.authorization]. *)
Definition requireAdminAuth (authorization : option string) : AuthResult :=
  match authorization with
  | None => AuthRefused "No token provided"
  | Some authHeader =>
      if negb (Js.truthy (Some authHeader))
         || negb (Js.startsWith "Bearer " authHeader)
      then AuthRefused "No token provided"
      else if String.eqb (Js.substring_from 7 authHeader) ADMIN_TOKEN
           then AuthNext
           else AuthRefused "Invalid token"
  end.

End Helpers.

Module Routes.
Import QueueManager Server.

(** The session ids of the request bodies are strings, as the clients
    send them; a member the body lacks is [None]. *)

(** [a || b] for a string that may be [undefined]. *)
Definition str_or (o : option string) (d : string) : string :=
  match o with
  | Some s => if String.eqb s "" then d else s
  | None => d
  end.

(** The answer of a queue route: 400, or 200 with the [success] member and
    the members of the status spread over it. *)
Inductive QueueResponse :=
| BadRequest
| Answer (success : bool) (status : QueueStatus).

(** [{ success: true, ...queueStatus }]: a [success] member of the status
    wins. *)
Definition spread (status : QueueStatus) : QueueResponse :=
  Answer (match r_success status with Some b => b | None => true end) status.

Record JoinBody := mkJoinBody {
  j_sessionId : option string;
  j_fileName : option string;
  j_pageCount : option Z
}.

(** [POST /api/queue/join]. *)
Definition api_queue_join (now : Z) (body : JoinBody) (st : State)
  : State * QueueResponse :=
  match j_sessionId body with
  | Some sessionId =>
      if Js.truthy (Some sessionId) then
        let (q, queueStatus) :=
          joinQueue now sessionId
                    (mkFileInfo (str_or (j_fileName body) "Unknown file")
                                (Js.num_or (j_pageCount body) 0) now)
                    (queueManager st) in
        (set_queueManager q st, spread queueStatus)
      else (st, BadRequest)
  | None => (st, BadRequest)
  end.


(** [POST /api/queue/heartbeat]. *)
Definition api_queue_heartbeat (now : Z) (sessionId : option string) (st : State)
  : State * QueueResponse :=
  match sessionId with
  | Some sessionId =>
      if Js.truthy (Some sessionId) then
        let q := updateActivity now sessionId (queueManager st) in
        (set_queueManager q st, spread (getQueueStatus now sessionId q))
      else (st, BadRequest)
  | None => (st, BadRequest)
  end.

(** The answer of [POST /api/queue/leave]. *)
Inductive LeaveResponse :=
| LeaveBadRequest
| LeftQueue.

(** [POST /api/queue/leave]. *)
Definition api_queue_leave (now : Z) (sessionId : option string) (st : State)
  : option (State * LeaveResponse) :=
  match sessionId with
  | Some sessionId =>
      if Js.truthy (Some sessionId) then
        option_map (fun q => (set_queueManager q st, LeftQueue))
                   (removeSession now sessionId true (queueManager st))
      else Some (st, LeaveBadRequest)
  | None => Some (st, LeaveBadRequest)
  end.

(** [POST /api/print] takes two turns of the event loop.  When the
    request arrives the handler runs up to its first [await]: the test of
    the file and the admission check.  Conversion, [printFile] and the
    database are awaited; whatever requests and timers arrive meanwhile
    are handled meanwhile.  Then the handler runs to its end, in the
    state and at the clock reading it finds then. *)

(** The first turn: [Some] is the answer given at once (400 or 403),
    [None] means that the print is under way.  The state is read only. *)
Definition print_arrives (now : Z) (req : PrintRequest) (st : State)
  : option PrintResponse :=
  match file req with
  | None => Some PrintNoFile
  | Some _ => print_gate now req st
  end.

(** The last turn.  [success] is what the awaited collaborators gave:
    [true] when [printResult.success] is reached, and then
    [completeSession] runs and the answer is 200; else the answer is
    500. *)
Definition print_finishes (success : bool) (now : Z) (req : PrintRequest)
           (st : State) : option (State * PrintResponse) :=
  if success
  then option_map (fun st' => (st', PrintSent)) (print_complete now req st)
  else Some (st, PrintError).

(** The server with the prints that are under way. *)
Record Serving := mkServing {
  server : State;
  printing : list PrintRequest
}.

(** What the event loop of a running server handles, one turn each: the
    requests of the queue routes (status and info only read) and of the
    claim route, a print request arriving, the [n]-th print under way
    finishing with or without success, and a timer of the queue
    firing. *)
Inductive Request :=
| ReqJoin (now : Z) (body : JoinBody)
| ReqStatus (now : Z) (sessionId : string)
| ReqInfo
| ReqHeartbeat (now : Z) (sessionId : option string)
| ReqLeave (now : Z) (sessionId : option string)
| PrintArrives (now : Z) (req : PrintRequest)
| PrintFinishes (now : Z) (n : nat) (success : bool)
| ReqClaimCoin (now : Z) (body : ClaimBody)
| TimerFires (t : Timer).

Definition serve (r : Request) (s : Serving) : option Serving :=
  let st := server s in
  match r with
  | ReqJoin now body =>
      Some (mkServing (fst (api_queue_join now body st)) (printing s))
  | ReqStatus _ _ => Some s
  | ReqInfo => Some s
  | ReqHeartbeat now sessionId =>
      Some (mkServing (fst (api_queue_heartbeat now sessionId st)) (printing s))
  | ReqLeave now sessionId =>
      option_map (fun r => mkServing (fst r) (printing s))
                 (api_queue_leave now sessionId st)
  | PrintArrives now req =>
      match print_arrives now req st with
      | Some _ => Some s
      | None => Some (mkServing st (printing s ++ [req]))
      end
  | PrintFinishes now n success =>
      match nth_error (printing s) n with
      | Some req =>
          option_map (fun r => mkServing (fst r) (SerialLink.remove_nth n (printing s)))
                     (print_finishes success now req st)
      | None => Some s
      end
  | ReqClaimCoin now body =>
      Some (mkServing (fst (api_claim_coin now body st)) (printing s))
  | TimerFires t =>
      option_map (fun q => mkServing (set_queueManager q st) (printing s))
                 (QueueMore.turn (QueueMore.Fire t) (queueManager st))
  end.

Fixpoint serveAll (rs : list Request) (s : Serving) : option Serving :=
  match rs with
  | [] => Some s
  | r :: rest =>
      match serve r s with
      | Some s' => serveAll rest s'
      | None => None
      end
  end.

(** What the queue of a running server satisfies. *)
Record Sound (q : QM) : Prop := mkSound {
  s_wf : QueueRuns.WF q;
  s_one : QueueRuns.OneActive q;
  s_idle : QueueRuns.NoIdleSlot q;
  s_line : QueueMore.WaitingQueued q
}.

(** The server as it starts. *)
Definition started : State := mkState init JsMap.empty None.

Definition startedServing : Serving := mkServing started [].

End Routes.

(* ------------------------------------------------------------------------- *)
(** ** Facts about the JS helpers *)
(* ------------------------------------------------------------------------- *)

Module JsMapFacts.
Import JsMap.

Ltac eqb_cases :=
  repeat match goal with
  | |- context [String.eqb ?a ?b] => destruct (String.eqb_spec a b); subst
  | H : context [String.eqb ?a ?b] |- _ => destruct (String.eqb_spec a b); subst
  end.

Section Facts.
Context {V : Type}.
Implicit Types (m : t V) (k : string) (v : V).

Lemma get_set_same k v m : get k (set k v m) = Some v.
Proof.
  induction m as [|[k' v'] m IH]; simpl; eqb_cases; simpl; eqb_cases;
    try congruence; auto.
Qed.

Lemma get_set_other k k' v m : k <> k' -> get k (set k' v m) = get k m.
Proof.
  intros Hne. induction m as [|[k2 v2] m IH]; simpl; eqb_cases; simpl;
    eqb_cases; try congruence; auto.
Qed.

Lemma get_delete_same k m : get k (delete k m) = None.
Proof.
  induction m as [|[k' v'] m IH]; simpl; eqb_cases; simpl; eqb_cases;
    try congruence; auto.
Qed.

Lemma get_delete_other k k' m : k <> k' -> get k (delete k' m) = get k m.
Proof.
  intros Hne. induction m as [|[k2 v2] m IH]; simpl; eqb_cases; simpl;
    eqb_cases; try congruence; auto.
Qed.

Lemma get_Some_key k v m : get k m = Some v -> In k (keys m).
Proof.
  induction m as [|[k' v'] m IH]; simpl; [discriminate|].
  eqb_cases; auto.
Qed.

Lemma key_get_Some k m : In k (keys m) -> exists v, get k m = Some v.
Proof.
  induction m as [|[k' v'] m IH]; simpl; [tauto|].
  intros [->|Hin]; eqb_cases; eauto; congruence.
Qed.

Lemma get_None_key k m : get k m = None -> ~ In k (keys m).
Proof.
  intros Hg Hin. apply key_get_Some in Hin as [v Hv]. congruence.
Qed.

Lemma has_true k m : has k m = true <-> In k (keys m).
Proof.
  unfold has. split.
  - destruct (get k m) eqn:E; [eauto using get_Some_key | discriminate].
  - intros [v ->]%key_get_Some. reflexivity.
Qed.

Lemma has_false k m : has k m = false <-> ~ In k (keys m).
Proof.
  rewrite <- has_true. destruct (has k m); split; intros; congruence.
Qed.

Lemma keys_set_present k v m : In k (keys m) -> keys (set k v m) = keys m.
Proof.
  induction m as [|[k' v'] m IH]; simpl; [tauto|].
  intros Hin. eqb_cases; simpl; [reflexivity|].
  f_equal. apply IH. destruct Hin; congruence.
Qed.

Lemma keys_set_absent k v m : ~ In k (keys m) -> keys (set k v m) = keys m ++ [k].
Proof.
  induction m as [|[k' v'] m IH]; simpl; [reflexivity|].
  intros Hnin. eqb_cases; simpl; [tauto|]. f_equal. apply IH. tauto.
Qed.

Lemma in_keys_set x k v m : In x (keys (set k v m)) <-> x = k \/ In x (keys m).
Proof.
  induction m as [|[k' v'] m IH]; simpl; [intuition congruence|].
  eqb_cases; simpl; [intuition congruence|]. rewrite IH. tauto.
Qed.

Lemma NoDup_keys_set k v m : NoDup (keys m) -> NoDup (keys (set k v m)).
Proof.
  induction m as [|[k' v'] m IH]; simpl; intros Hnd.
  - constructor; [tauto | constructor].
  - inversion Hnd; subst. eqb_cases; simpl; constructor; auto.
    rewrite in_keys_set. intuition congruence.
Qed.

Lemma in_keys_delete x k m : In x (keys (delete k m)) <-> x <> k /\ In x (keys m).
Proof.
  induction m as [|[k' v'] m IH]; simpl; [tauto|].
  eqb_cases; simpl; rewrite IH; intuition congruence.
Qed.

Lemma NoDup_keys_delete k m : NoDup (keys m) -> NoDup (keys (delete k m)).
Proof.
  induction m as [|[k' v'] m IH]; simpl; intros Hnd; [constructor|].
  inversion Hnd; subst. eqb_cases; simpl; auto.
  constructor; auto. rewrite in_keys_delete. tauto.
Qed.

Lemma length_delete_le k m : (List.length (delete k m) <= List.length m)%nat.
Proof.
  induction m as [|[k' v'] m IH]; simpl; [lia|]. eqb_cases; simpl; lia.
Qed.

Lemma length_delete_lt k m :
  In k (keys m) -> (List.length (delete k m) < List.length m)%nat.
Proof.
  induction m as [|[k' v'] m IH]; simpl; [tauto|].
  intros Hin. eqb_cases; simpl.
  - pose proof (length_delete_le k' m). lia.
  - destruct Hin; [congruence|]. apply IH in H. lia.
Qed.

Lemma delete_absent k m : ~ In k (keys m) -> delete k m = m.
Proof.
  induction m as [|[k' v'] m IH]; simpl; [reflexivity|].
  intros Hnin. eqb_cases; [tauto|]. f_equal. apply IH. tauto.
Qed.

(** Entries of a map with unique keys are found by [get]. *)
Lemma in_get k v m : NoDup (keys m) -> In (k, v) m -> get k m = Some v.
Proof.
  induction m as [|[k' v'] m IH]; simpl; [tauto|].
  intros Hnd [Heq|Hin]; inversion Hnd; subst.
  - inversion Heq; subst. eqb_cases; congruence.
  - eqb_cases; auto. exfalso. apply H1. apply (in_map fst) in Hin. exact Hin.
Qed.

Lemma filter_none {A} (p : A -> bool) (l : list A) :
  (forall x, In x l -> p x = false) -> filter p l = [].
Proof.
  induction l as [|a l IH]; simpl; intros Hall; [reflexivity|].
  rewrite (Hall a) by auto. apply IH. auto.
Qed.

(** At most one entry satisfies a test that singles out one key. *)
Lemma filter_values_unique (p : V -> bool) m :
  NoDup (keys m) ->
  (forall k k' v v', get k m = Some v -> get k' m = Some v' ->
                     p v = true -> p v' = true -> k = k') ->
  (List.length (filter p (values m)) <= 1)%nat.
Proof.
  induction m as [|[k v] m IH]; simpl; intros Hnd Huniq; [lia|].
  inversion Hnd as [|? ? Hnin Hnd']; subst.
  destruct (p v) eqn:Hp; simpl.
  - assert (Hnone : filter p (values m) = []).
    { apply filter_none. intros v1 Hv1.
      apply in_map_iff in Hv1 as [[k1 v1'] [Heq Hin]]. simpl in Heq. subst v1'.
      destruct (p v1) eqn:Hp1; [|reflexivity]. exfalso.
      assert (k = k1).
      { apply (Huniq k k1 v v1); auto.
        - simpl. now rewrite String.eqb_refl.
        - apply (in_get k1 v1 ((k, v) :: m)); [exact Hnd | right; exact Hin]. }
      subst. apply Hnin. apply (in_map fst) in Hin. exact Hin. }
    rewrite Hnone. simpl. lia.
  - apply IH; [exact Hnd'|].
    intros k1 k2 v1 v2 H1 H2 Hp1 Hp2.
    apply (Huniq k1 k2 v1 v2); auto.
    + simpl. destruct (String.eqb_spec k1 k); subst; auto.
      exfalso. apply Hnin. eauto using get_Some_key.
    + simpl. destruct (String.eqb_spec k2 k); subst; auto.
      exfalso. apply Hnin. eauto using get_Some_key.
Qed.
End Facts.
End JsMapFacts.

Module JsFacts.
Import Js QueueRuns JsMapFacts.

Lemma indexOf_from_range i x l :
  indexOf_from i x l = -1 \/
  (i <= indexOf_from i x l < i + Z.of_nat (List.length l)).
Proof.
  revert i. induction l as [|y l IH]; intros i; simpl; [auto|].
  destruct (String.eqb y x); [right; lia|].
  destruct (IH (i + 1)) as [->|H]; [auto | right; lia].
Qed.

(** [indexOf] followed by [splice(index, 1)] removes the first
    occurrence. *)
Lemma splice1_indexOf_from i x l :
  0 <= i ->
  (if indexOf_from i x l >? -1
   then splice1 (Z.to_nat (indexOf_from i x l - i)) l else l) = remove_first x l.
Proof.
  revert i. induction l as [|y l IH]; intros i Hi; simpl.
  - reflexivity.
  - destruct (String.eqb y x) eqn:E.
    + replace (i >? -1) with true by (symmetry; apply Z.gtb_lt; lia).
      replace (i - i) with 0 by lia. reflexivity.
    + specialize (IH (i + 1) ltac:(lia)).
      destruct (indexOf_from_range (i + 1) x l) as [Hm|Hr].
      * rewrite Hm in *. simpl in *. now rewrite <- IH.
      * replace (indexOf_from (i + 1) x l >? -1) with true in *
          by (symmetry; apply Z.gtb_lt; lia).
        rewrite <- IH.
        replace (Z.to_nat (indexOf_from (i + 1) x l - i))
          with (S (Z.to_nat (indexOf_from (i + 1) x l - (i + 1)))) by lia.
        reflexivity.
Qed.

Lemma splice1_indexOf x l :
  (if indexOf x l >? -1 then splice1 (Z.to_nat (indexOf x l)) l else l)
  = remove_first x l.
Proof.
  pose proof (splice1_indexOf_from 0 x l ltac:(lia)) as H.
  unfold indexOf. now rewrite Z.sub_0_r in H.
Qed.

Lemma indexOf_from_absent i x l : ~ In x l -> indexOf_from i x l = -1.
Proof.
  revert i. induction l as [|y l IH]; intros i Hnin; simpl; [reflexivity|].
  destruct (String.eqb_spec y x); [subst; simpl in Hnin; tauto|].
  apply IH. simpl in Hnin. tauto.
Qed.

Lemma indexOf_from_present i x l : In x l -> i <= indexOf_from i x l.
Proof.
  revert i. induction l as [|y l IH]; intros i Hin; simpl; [destruct Hin|].
  destruct (String.eqb_spec y x); [lia|].
  destruct Hin; [congruence|]. specialize (IH (i + 1) H). lia.
Qed.

Lemma indexOf_head x l : indexOf x (x :: l) = 0.
Proof. unfold indexOf. simpl. now rewrite String.eqb_refl. Qed.

Lemma includes_true x l : includes x l = true <-> In x l.
Proof.
  unfold includes. rewrite existsb_exists. split.
  - intros [y [Hin Heq]]. apply String.eqb_eq in Heq. now subst.
  - intros Hin. exists x. split; [exact Hin | apply String.eqb_refl].
Qed.

Lemma includes_false x l : includes x l = false <-> ~ In x l.
Proof.
  rewrite <- includes_true. destruct (includes x l); split; intros; congruence.
Qed.

Lemma truthy_Some s : truthy (Some s) = true <-> s <> "".
Proof.
  simpl. destruct (String.eqb_spec s ""); simpl; split; intros; congruence.
Qed.

Lemma strict_eq_true a s : strict_eq a s = true <-> a = Some s.
Proof.
  destruct a as [x|]; simpl; [|split; intros; congruence].
  destruct (String.eqb_spec x s); split; intros; congruence.
Qed.

Lemma strict_eq_false a s : strict_eq a s = false <-> a <> Some s.
Proof.
  rewrite <- strict_eq_true. destruct (strict_eq a s); split; intros; congruence.
Qed.

(** *** The waiting line without one entry *)

Lemma remove_first_in x k l : In x (remove_first k l) -> In x l.
Proof.
  induction l as [|y l IH]; simpl; [tauto|].
  destruct (String.eqb y k); simpl; intuition.
Qed.

Lemma remove_first_keeps x k l : x <> k -> In x l -> In x (remove_first k l).
Proof.
  intros Hne. induction l as [|y l IH]; simpl; [tauto|].
  destruct (String.eqb_spec y k); subst; simpl; intuition congruence.
Qed.

Lemma remove_first_NoDup k l : NoDup l -> NoDup (remove_first k l).
Proof.
  induction l as [|y l IH]; simpl; intros Hnd; [constructor|].
  inversion Hnd; subst. destruct (String.eqb y k); [assumption|].
  constructor; auto. intros Hin. apply remove_first_in in Hin. tauto.
Qed.

Lemma remove_first_gone k l : NoDup l -> ~ In k (remove_first k l).
Proof.
  induction l as [|y l IH]; simpl; intros Hnd; [tauto|].
  inversion Hnd; subst. destruct (String.eqb_spec y k); subst; [assumption|].
  simpl. intuition.
Qed.

Lemma remove_first_length k l :
  (List.length (remove_first k l) <= List.length l)%nat.
Proof.
  induction l as [|y l IH]; simpl; [lia|].
  destruct (String.eqb y k); simpl; lia.
Qed.

Lemma remove_first_absent k l : ~ In k l -> remove_first k l = l.
Proof.
  induction l as [|y l IH]; simpl; intros Hnin; [reflexivity|].
  destruct (String.eqb_spec y k); [subst; tauto|]. f_equal. apply IH. tauto.
Qed.

Lemma remove_first_filter k l :
  NoDup l -> remove_first k l = filter (fun x => negb (String.eqb x k)) l.
Proof.
  induction l as [|y l IH]; simpl; intros Hnd; [reflexivity|].
  inversion Hnd as [|? ? Hnin Hnd']; subst.
  destruct (String.eqb_spec y k); subst; simpl.
  - rewrite <- IH by assumption. symmetry. now apply remove_first_absent.
  - f_equal. now apply IH.
Qed.

(** *** Order in the waiting line *)

Lemma Before_in a b l : Before a b l -> In a l /\ In b l.
Proof.
  induction 1; simpl; tauto.
Qed.

Lemma Before_head_absurd a b l : NoDup (b :: l) -> ~ Before a b (b :: l).
Proof.
  intros Hnd HB. inversion Hnd; subst. inversion HB; subst.
  - tauto.
  - apply Before_in in H0. tauto.
Qed.

Lemma Before_app_right a b l : In a l -> ~ In b l -> Before a b (l ++ [b]).
Proof.
  induction l as [|y l IH]; simpl; [tauto|].
  intros [->|Hin] Hnb.
  - apply Before_here. apply in_or_app. right. simpl. auto.
  - apply Before_later. apply IH; tauto.
Qed.

Lemma Before_app_keep a b l x : Before a b l -> Before a b (l ++ [x]).
Proof.
  induction 1; simpl.
  - apply Before_here. apply in_or_app. auto.
  - now apply Before_later.
Qed.

Lemma Before_filter (p : string -> bool) a b l :
  NoDup l -> Before a b l -> p a = true -> p b = true ->
  Before a b (filter p l).
Proof.
  intros Hnd HB Ha Hb. induction HB as [rest Hin | x rest HB IH]; simpl.
  - rewrite Ha. apply Before_here. apply filter_In. auto.
  - inversion Hnd; subst. destruct (p x); [apply Before_later|]; auto.
Qed.

Lemma Before_tail a b x l : NoDup (x :: l) -> Before a b (x :: l) -> a <> x ->
                            Before a b l.
Proof.
  intros Hnd HB Hne. inversion HB; subst; [congruence | assumption].
Qed.

End JsFacts.

(* ------------------------------------------------------------------------- *)
(** ** The queue manager on well-formed states *)
(* ------------------------------------------------------------------------- *)

Module QueueFacts.
Import Js JsMap QueueManager QueueRuns JsMapFacts JsFacts.

(** *** [removeSession] up to its call of [processQueue] *)

Lemma detach_queue k st :
  queue (removeSession_detach k st) = remove_first k (queue st).
Proof.
  unfold removeSession_detach. rewrite <- splice1_indexOf.
  destruct (strict_eq (activeSession st) k); simpl;
    destruct (indexOf k (queue st) >? -1); reflexivity.
Qed.

Lemma detach_sessions k st :
  sessions (removeSession_detach k st) = delete k (sessions st).
Proof.
  unfold removeSession_detach.
  destruct (strict_eq (activeSession st) k); simpl;
    destruct (indexOf k (queue st) >? -1); reflexivity.
Qed.

Lemma detach_lastActivityTime k st :
  lastActivityTime (removeSession_detach k st) = delete k (lastActivityTime st).
Proof.
  unfold removeSession_detach.
  destruct (strict_eq (activeSession st) k); simpl;
    destruct (indexOf k (queue st) >? -1); reflexivity.
Qed.

Lemma detach_activeSession k st :
  activeSession (removeSession_detach k st)
  = if strict_eq (activeSession st) k then None else activeSession st.
Proof.
  unfold removeSession_detach.
  destruct (strict_eq (activeSession st) k); simpl;
    destruct (indexOf k (queue st) >? -1); reflexivity.
Qed.

Lemma detach_pending k st : pending (removeSession_detach k st) = pending st.
Proof.
  unfold removeSession_detach.
  destruct (strict_eq (activeSession st) k); simpl;
    destruct (indexOf k (queue st) >? -1); reflexivity.
Qed.

Lemma detach_get x k st :
  get x (sessions (removeSession_detach k st))
  = if String.eqb x k then None else get x (sessions st).
Proof.
  rewrite detach_sessions. destruct (String.eqb_spec x k); subst.
  - apply get_delete_same.
  - now apply get_delete_other.
Qed.

Lemma init_WF : WF init.
Proof.
  constructor; simpl; try constructor; try tauto; try discriminate.
  unfold MAX_QUEUE_SIZE. lia.
Qed.

Lemma WF_active_not_queued st a : WF st -> activeSession st = Some a -> ~ In a (queue st).
Proof.
  intros HW Ha Hin.
  destruct (wf_active st HW a Ha) as [s [Hs Hst]].
  destruct (wf_waiting st HW a Hin) as [s' [Hs' Hst']]. congruence.
Qed.

Lemma WF_active_truthy st : WF st -> truthy (activeSession st) = true <-> activeSession st <> None.
Proof.
  intros HW. destruct (activeSession st) as [a|] eqn:Ha; simpl.
  - destruct (wf_active st HW a Ha) as [s [Hs _]].
    apply get_Some_key in Hs. apply (wf_ids st HW) in Hs.
    destruct (String.eqb_spec a ""); simpl; split; intros; congruence.
  - split; intros; congruence.
Qed.

Lemma WF_waiting_not_active st k s :
  WF st -> get k (sessions st) = Some s -> status s = waiting ->
  strict_eq (activeSession st) k = false.
Proof.
  intros HW Hs Hst. apply strict_eq_false. intros Ha.
  destruct (wf_active st HW k Ha) as [s' [Hs' Hst']]. congruence.
Qed.

Lemma detach_WF k st : WF st -> WF (removeSession_detach k st).
Proof.
  intros HW. constructor.
  - rewrite detach_sessions. apply NoDup_keys_delete, HW.
  - intros x. rewrite detach_sessions, in_keys_delete. intros [_ Hin].
    now apply (wf_ids st HW).
  - rewrite detach_queue. apply remove_first_NoDup, HW.
  - intros x. rewrite detach_queue. intros Hin.
    assert (x <> k).
    { intros ->. revert Hin. apply remove_first_gone, HW. }
    apply remove_first_in in Hin.
    rewrite detach_get. destruct (String.eqb_spec x k); [congruence|].
    now apply (wf_waiting st HW).
  - intros a. rewrite detach_activeSession.
    destruct (strict_eq (activeSession st) k) eqn:E; [discriminate|].
    intros Ha. apply strict_eq_false in E.
    rewrite detach_get. destruct (String.eqb_spec a k); [congruence|].
    now apply (wf_active st HW).
  - rewrite detach_queue. pose proof (remove_first_length k (queue st)).
    pose proof (wf_cap st HW). lia.
Qed.

Lemma detach_OneActive k st : OneActive st -> OneActive (removeSession_detach k st).
Proof.
  intros HO x s. rewrite detach_get, detach_activeSession.
  destruct (String.eqb_spec x k); [discriminate|].
  intros Hs Hst. specialize (HO x s Hs Hst). rewrite HO. simpl.
  destruct (String.eqb_spec x k); congruence.
Qed.

(** *** The sweep *)

Lemma cleanup_visit_WF next now k st :
  WF st ->
  cleanup_visit (fun k s => removeSession_with next k true s) now k st
  = Some (sweep_step now st k).
Proof.
  intros HW. unfold cleanup_visit, sweep_step, expired.
  destruct (get k (sessions st)) as [s|] eqn:Hs; [|reflexivity].
  destruct (Status_eqb (status s) waiting) eqn:Hw; [|reflexivity].
  destruct (now - joinedAt s >? maxWaitTime); [|reflexivity]. simpl.
  unfold removeSession_with.
  rewrite (WF_waiting_not_active st k s HW Hs); [reflexivity|].
  destruct (status s); [reflexivity | discriminate].
Qed.

Lemma expired_waiting now st k :
  expired now st k = true ->
  exists s, get k (sessions st) = Some s /\ status s = waiting
            /\ maxWaitTime < now - joinedAt s.
Proof.
  unfold expired. destruct (get k (sessions st)) as [s|]; [|discriminate].
  intros H. apply andb_true_iff in H as [Hw Ht]. exists s.
  repeat split; [destruct (status s); [reflexivity | discriminate] | lia].
Qed.

Lemma sweep_step_WF now st k : WF st -> WF (sweep_step now st k).
Proof.
  intros HW. unfold sweep_step. destruct (expired now st k); [|assumption].
  now apply detach_WF.
Qed.

Lemma sweep_step_OneActive now st k : OneActive st -> OneActive (sweep_step now st k).
Proof.
  intros HO. unfold sweep_step. destruct (expired now st k); [|assumption].
  now apply detach_OneActive.
Qed.

Lemma sweep_step_activeSession now st k :
  WF st -> activeSession (sweep_step now st k) = activeSession st.
Proof.
  intros HW. unfold sweep_step. destruct (expired now st k) eqn:E; [|reflexivity].
  apply expired_waiting in E as [s [Hs [Hst _]]].
  rewrite detach_activeSession.
  now rewrite (WF_waiting_not_active st k s HW Hs Hst).
Qed.

Lemma sweep_step_pending now st k : pending (sweep_step now st k) = pending st.
Proof.
  unfold sweep_step. destruct (expired now st k); [|reflexivity].
  apply detach_pending.
Qed.

Lemma cleanup_loop_WF next now ks st :
  WF st ->
  cleanup_loop (fun k s => removeSession_with next k true s) now ks st
  = Some (sweep now ks st).
Proof.
  revert st. induction ks as [|k ks IH]; intros st HW; simpl; [reflexivity|].
  rewrite cleanup_visit_WF by assumption. apply IH. now apply sweep_step_WF.
Qed.

Lemma sweep_WF now ks st : WF st -> WF (sweep now ks st).
Proof.
  revert st. induction ks as [|k ks IH]; intros st HW; simpl; [assumption|].
  apply IH. now apply sweep_step_WF.
Qed.

Lemma sweep_OneActive now ks st : OneActive st -> OneActive (sweep now ks st).
Proof.
  revert st. induction ks as [|k ks IH]; intros st HO; simpl; [assumption|].
  apply IH. now apply sweep_step_OneActive.
Qed.

Lemma sweep_activeSession now ks st :
  WF st -> activeSession (sweep now ks st) = activeSession st.
Proof.
  revert st. induction ks as [|k ks IH]; intros st HW; simpl; [reflexivity|].
  rewrite IH by now apply sweep_step_WF. now apply sweep_step_activeSession.
Qed.

Lemma sweep_pending now ks st : pending (sweep now ks st) = pending st.
Proof.
  revert st. induction ks as [|k ks IH]; intros st; simpl; [reflexivity|].
  rewrite IH. apply sweep_step_pending.
Qed.

Lemma expired_detach now st k x :
  x <> k -> expired now (removeSession_detach k st) x = expired now st x.
Proof.
  intros Hne. unfold expired. rewrite detach_get.
  destruct (String.eqb_spec x k); congruence.
Qed.

Lemma filter_filter {A} (p q : A -> bool) l :
  filter p (filter q l) = filter (fun x => q x && p x) l.
Proof.
  induction l as [|a l IH]; simpl; [reflexivity|].
  destruct (q a); simpl; [destruct (p a)|]; now rewrite IH.
Qed.

Lemma filter_all {A} (p : A -> bool) l :
  (forall x, In x l -> p x = true) -> filter p l = l.
Proof.
  induction l as [|a l IH]; simpl; intros Hall; [reflexivity|].
  rewrite (Hall a) by auto. f_equal. apply IH. auto.
Qed.

(** The waiting line after the sweep over the keys [ks]. *)
Lemma sweep_queue now ks st :
  WF st ->
  queue (sweep now ks st)
  = filter (fun x => negb (existsb (String.eqb x) ks && expired now st x)) (queue st).
Proof.
  revert st. induction ks as [|k ks IH]; intros st HW; simpl.
  - symmetry. now apply filter_all.
  - rewrite IH by now apply sweep_step_WF.
    unfold sweep_step. destruct (expired now st k) eqn:E.
    + rewrite detach_queue, remove_first_filter by apply HW.
      rewrite filter_filter. apply filter_ext_in. intros x Hin.
      destruct (String.eqb_spec x k); subst; simpl.
      * now rewrite E.
      * now rewrite expired_detach.
    + apply filter_ext_in. intros x Hin.
      destruct (String.eqb_spec x k); subst; simpl; [|reflexivity].
      rewrite E. now rewrite andb_false_r.
Qed.

(** The sessions after the sweep over the keys [ks]. *)
Lemma sweep_get now ks st x :
  get x (sessions (sweep now ks st))
  = if existsb (String.eqb x) ks && expired now st x then None
    else get x (sessions st).
Proof.
  revert st. induction ks as [|k ks IH]; intros st; simpl; [reflexivity|].
  rewrite IH. unfold sweep_step. destruct (expired now st k) eqn:E.
  - rewrite detach_get. destruct (String.eqb_spec x k); subst; cbn [orb andb].
    + rewrite E.
      now destruct (existsb (String.eqb k) ks && expired now (removeSession_detach k st) k).
    + now rewrite expired_detach by assumption.
  - destruct (String.eqb_spec x k); subst; cbn [orb andb]; [|reflexivity].
    rewrite E, andb_false_r. reflexivity.
Qed.

Lemma existsb_eqb_in x l : existsb (String.eqb x) l = true <-> In x l.
Proof. apply includes_true. Qed.

Lemma sweep_all_queue now st :
  WF st -> queue (sweep now (keys (sessions st)) st) = live now st.
Proof.
  intros HW. rewrite sweep_queue by assumption. unfold live.
  apply filter_ext_in. intros x Hin.
  destruct (wf_waiting st HW x Hin) as [s [Hs _]].
  apply get_Some_key in Hs. apply existsb_eqb_in in Hs. now rewrite Hs.
Qed.

Lemma sweep_all_get now st x :
  get x (sessions (sweep now (keys (sessions st)) st))
  = if expired now st x then None else get x (sessions st).
Proof.
  rewrite sweep_get. destruct (expired now st x) eqn:E.
  - apply expired_waiting in E as [s [Hs _]].
    apply get_Some_key in Hs. apply existsb_eqb_in in Hs. now rewrite Hs.
  - now rewrite andb_false_r.
Qed.

End QueueFacts.

Module QueueSteps.
Import Js JsMap QueueManager QueueRuns JsMapFacts JsFacts QueueFacts.

(** *** [processQueue] *)

Lemma processQueue_fuel_WF f now st :
  WF st -> processQueue_fuel (S f) now st = Some (processQueue_wf now st).
Proof.
  intros HW. cbn [processQueue_fuel].
  rewrite cleanup_loop_WF by assumption.
  unfold processQueue_wf, promote.
  pose proof (sweep_WF now (keys (sessions st)) st HW) as HW1.
  destruct (queue (sweep now (keys (sessions st)) st)) as [|n rest] eqn:Hq;
    [reflexivity|].
  destruct (wf_waiting _ HW1 n) as [s [Hs _]]; [rewrite Hq; simpl; auto|].
  cbn [sessions set_queue]. now rewrite Hs.
Qed.

Lemma processQueue_WF now st :
  WF st -> processQueue now st = Some (processQueue_wf now st).
Proof. apply processQueue_fuel_WF. Qed.

Lemma NoDup_snoc (x : string) l : NoDup l -> ~ In x l -> NoDup (l ++ [x]).
Proof.
  induction l as [|y l IH]; simpl; intros Hnd Hnin.
  - constructor; [tauto | constructor].
  - inversion Hnd; subst. constructor.
    + rewrite in_app_iff. simpl. intuition congruence.
    + apply IH; tauto.
Qed.

Lemma activate_WF now n s st :
  WF st -> get n (sessions st) = Some s -> ~ In n (queue st) ->
  WF (activate now n s st).
Proof.
  intros HW Hs Hnq. pose proof (get_Some_key _ _ _ Hs) as Hk.
  constructor; unfold activate; cbn [sessions queue activeSession set_sessions
    set_activeSession set_lastActivityTime setTimeout].
  - apply NoDup_keys_set, HW.
  - intros x. rewrite in_keys_set. intros [->|Hin]; now apply (wf_ids st HW).
  - apply HW.
  - intros x Hin. rewrite get_set_other by congruence.
    now apply (wf_waiting st HW).
  - intros a [= <-]. rewrite get_set_same. eauto.
  - apply HW.
Qed.

Lemma activate_OneActive now n s st :
  (forall k s', get k (sessions st) = Some s' -> status s' = active -> k = n) ->
  OneActive (activate now n s st).
Proof.
  intros Hnone k s'. unfold activate; cbn [sessions queue activeSession
    set_sessions set_activeSession set_lastActivityTime setTimeout].
  destruct (String.eqb_spec k n); subst; [reflexivity|].
  rewrite get_set_other by assumption. intros H1 H2.
  exfalso. eauto.
Qed.

Lemma set_queue_tail_WF n rest st :
  WF st -> queue st = n :: rest -> WF (set_queue rest st).
Proof.
  intros HW Hq. pose proof (wf_queue st HW) as Hnd. rewrite Hq in Hnd.
  inversion Hnd; subst.
  constructor; cbn [sessions queue activeSession set_queue]; try apply HW; auto.
  - intros x Hin. apply (wf_waiting st HW). rewrite Hq. simpl. auto.
  - pose proof (wf_cap st HW) as Hc. rewrite Hq in Hc. simpl in Hc. lia.
Qed.

Lemma set_activeSession_None_WF st : WF st -> WF (set_activeSession None st).
Proof.
  intros HW. constructor; cbn [sessions queue activeSession set_activeSession];
    try apply HW. discriminate.
Qed.

Lemma promote_WF now st : WF st -> WF (fst (promote now st)).
Proof.
  intros HW. unfold promote.
  destruct (queue st) as [|n rest] eqn:Hq; simpl.
  - now apply set_activeSession_None_WF.
  - pose proof (set_queue_tail_WF n rest st HW Hq) as HW'.
    pose proof (wf_queue st HW) as Hnd. rewrite Hq in Hnd. inversion Hnd; subst.
    destruct (get n (sessions st)) as [s|] eqn:Hs; simpl; [|assumption].
    apply activate_WF; auto.
Qed.

Lemma promote_OneActive now st :
  WF st -> OneActive st -> activeSession st = None ->
  OneActive (fst (promote now st)).
Proof.
  intros HW HO Hnone. unfold promote.
  assert (Hno : forall k s, get k (sessions st) = Some s -> status s <> active).
  { intros k s Hs Hst. specialize (HO k s Hs Hst). congruence. }
  destruct (queue st) as [|n rest] eqn:Hq; simpl.
  - intros k s Hs Hst. exfalso. eapply Hno; eauto.
  - destruct (get n (sessions st)) as [s|] eqn:Hs; simpl.
    + apply activate_OneActive. intros k s' Hs' Hst'. exfalso. eapply Hno; eauto.
    + intros k s Hs' Hst. exfalso. eapply Hno; eauto.
Qed.

Lemma promote_NoIdleSlot now st : WF st -> NoIdleSlot (fst (promote now st)).
Proof.
  intros HW. unfold promote, NoIdleSlot.
  destruct (queue st) as [|n rest] eqn:Hq; simpl; [auto|].
  destruct (wf_waiting st HW n) as [s [Hs _]]; [rewrite Hq; simpl; auto|].
  rewrite Hs. simpl. discriminate.
Qed.

Lemma processQueue_wf_WF now st : WF st -> WF (fst (processQueue_wf now st)).
Proof. intros HW. apply promote_WF. now apply sweep_WF. Qed.

Lemma processQueue_wf_OneActive now st :
  WF st -> OneActive st -> activeSession st = None ->
  OneActive (fst (processQueue_wf now st)).
Proof.
  intros HW HO Hn. apply promote_OneActive.
  - now apply sweep_WF.
  - now apply sweep_OneActive.
  - now rewrite sweep_activeSession.
Qed.

(** *** [removeSession], [cleanupExpiredSessions], [completeSession],
    [checkSessionTimeout] *)

Lemma removeSession_WF_eq now k processNext st :
  WF st -> removeSession now k processNext st
           = Some (removeSession_wf now k processNext st).
Proof.
  intros HW. unfold removeSession, removeSession_with, removeSession_wf.
  destruct (strict_eq (activeSession st) k && processNext); [|reflexivity].
  rewrite processQueue_WF by now apply detach_WF. reflexivity.
Qed.

Lemma removeSession_wf_WF now k processNext st :
  WF st -> WF (removeSession_wf now k processNext st).
Proof.
  intros HW. unfold removeSession_wf.
  destruct (strict_eq (activeSession st) k && processNext).
  - apply processQueue_wf_WF. now apply detach_WF.
  - now apply detach_WF.
Qed.

Lemma removeSession_wf_OneActive now k processNext st :
  WF st -> OneActive st -> OneActive (removeSession_wf now k processNext st).
Proof.
  intros HW HO. unfold removeSession_wf.
  destruct (strict_eq (activeSession st) k) eqn:E; simpl;
    [destruct processNext|]; try now apply detach_OneActive.
  apply processQueue_wf_OneActive.
  - now apply detach_WF.
  - now apply detach_OneActive.
  - now rewrite detach_activeSession, E.
Qed.

Lemma cleanupExpiredSessions_WF now st :
  WF st -> cleanupExpiredSessions now st
           = Some (sweep now (keys (sessions st)) st).
Proof.
  intros HW. unfold cleanupExpiredSessions, removeSession.
  now apply (cleanup_loop_WF (fun s => option_map fst (processQueue now s))).
Qed.

Lemma set_completedSessions_WF n st : WF st -> WF (set_completedSessions n st).
Proof. intros HW. constructor; apply HW. Qed.

Lemma setTimeout_WF now d k st : WF st -> WF (setTimeout now d k st).
Proof. intros HW. constructor; apply HW. Qed.

Lemma updateActivity_WF now k st : WF st -> WF (updateActivity now k st).
Proof.
  intros HW. unfold updateActivity.
  destruct (strict_eq (activeSession st) k); [|assumption].
  constructor; apply HW.
Qed.

(** *** [joinQueue] *)

Lemma joinQueue_known now k fi st :
  has k (sessions st) = true ->
  joinQueue now k fi st = (st, getQueueStatus now k st).
Proof. intros H. unfold joinQueue. now rewrite H. Qed.

Lemma joinQueue_full now k fi st :
  has k (sessions st) = false ->
  (MAX_QUEUE_SIZE <=? List.length (queue st))%nat && truthy (activeSession st) = true ->
  joinQueue now k fi st = (st, statusQueueFull).
Proof. intros H1 H2. unfold joinQueue. now rewrite H1, H2. Qed.

Lemma joinQueue_admitted now k fi st :
  WF st -> has k (sessions st) = false ->
  (MAX_QUEUE_SIZE <=? List.length (queue st))%nat && truthy (activeSession st) = false ->
  joinQueue now k fi st
  = (joined now k fi st, getQueueStatus now k (joined now k fi st)).
Proof.
  intros HW H1 H2. unfold joinQueue, joined. rewrite H1, H2.
  cbn [activeSession queue set_sessions].
  destruct (truthy (activeSession st)); cbn [negb]; [|reflexivity].
  assert (Hnq : includes k (queue st) = false).
  { apply includes_false. intros Hin.
    destruct (wf_waiting st HW k Hin) as [s [Hs _]].
    unfold has in H1. now rewrite Hs in H1. }
  rewrite Hnq. reflexivity.
Qed.

Lemma joined_WF now k fi st :
  WF st -> k <> "" -> has k (sessions st) = false ->
  (MAX_QUEUE_SIZE <=? List.length (queue st))%nat && truthy (activeSession st) = false ->
  WF (joined now k fi st).
Proof.
  intros HW Hk Hhas Hroom. apply has_false in Hhas.
  assert (Hnq : ~ In k (queue st)).
  { intros Hin. destruct (wf_waiting st HW k Hin) as [s [Hs _]].
    apply Hhas. eauto using get_Some_key. }
  assert (HW1 : WF (set_sessions
                      (set k (mkSession k fi now waiting None) (sessions st)) st)).
  { constructor; cbn [sessions queue activeSession set_sessions]; try apply HW.
    - apply NoDup_keys_set, HW.
    - intros x. rewrite in_keys_set. intros [->|Hin]; [assumption|].
      now apply (wf_ids st HW).
    - intros x Hin. rewrite get_set_other.
      + now apply (wf_waiting st HW).
      + intros ->. tauto.
    - intros a Ha. rewrite get_set_other.
      + now apply (wf_active st HW).
      + intros ->. destruct (wf_active st HW k Ha) as [s [Hs _]].
        apply Hhas. eauto using get_Some_key. }
  unfold joined. destruct (truthy (activeSession st)) eqn:Ht.
  - rewrite andb_true_r in Hroom. apply Nat.leb_gt in Hroom.
    constructor; cbn [sessions queue activeSession set_sessions set_queue];
      try apply HW1.
    + apply NoDup_snoc; [apply HW | assumption].
    + intros x. rewrite in_app_iff. simpl. intros [Hin|[<-|[]]].
      * now apply (wf_waiting _ HW1).
      * rewrite get_set_same. eauto.
    + rewrite length_app. simpl. unfold MAX_QUEUE_SIZE in *. lia.
  - apply activate_WF; [assumption | | assumption].
    cbn [sessions set_sessions]. apply get_set_same.
Qed.

Lemma joined_OneActive now k fi st :
  WF st -> OneActive st -> has k (sessions st) = false ->
  OneActive (joined now k fi st).
Proof.
  intros HW HO Hhas. unfold joined.
  destruct (truthy (activeSession st)) eqn:Ht.
  - intros x s. cbn [sessions activeSession set_sessions set_queue].
    destruct (String.eqb_spec x k); subst.
    + rewrite get_set_same. intros [= <-]. discriminate.
    + rewrite get_set_other by assumption. apply HO.
  - apply activate_OneActive. intros x s.
    cbn [sessions set_sessions].
    destruct (String.eqb_spec x k); subst; [reflexivity|].
    rewrite get_set_other by assumption. intros Hs Hst.
    specialize (HO x s Hs Hst).
    assert (Hsome : activeSession st <> None) by congruence.
    apply (WF_active_truthy st HW) in Hsome. congruence.
Qed.

End QueueSteps.

Module QueueInvariants.
Import Js JsMap QueueManager QueueRuns JsMapFacts JsFacts QueueFacts QueueSteps.

Lemma joinQueue_cases now k fi st :
  WF st ->
  fst (joinQueue now k fi st) = st \/
  (has k (sessions st) = false /\
   (MAX_QUEUE_SIZE <=? List.length (queue st))%nat && truthy (activeSession st) = false /\
   fst (joinQueue now k fi st) = joined now k fi st).
Proof.
  intros HW. destruct (has k (sessions st)) eqn:Hhas.
  - left. now rewrite joinQueue_known.
  - destruct ((MAX_QUEUE_SIZE <=? List.length (queue st))%nat
              && truthy (activeSession st)) eqn:Hfull.
    + left. now rewrite joinQueue_full.
    + right. repeat split. now rewrite joinQueue_admitted.
Qed.

Lemma external_admissible op : external op = true -> admissible op = true.
Proof. destruct op; simpl; auto. Qed.

Lemma served_external op : served op = true -> external op = true.
Proof. destruct op; simpl; auto. Qed.

Lemma checkSessionTimeout_cases now k st :
  WF st ->
  checkSessionTimeout now k st = Some st \/
  checkSessionTimeout now k st = Some (removeSession_wf now k true st) \/
  exists d, checkSessionTimeout now k st = Some (setTimeout now d k st).
Proof.
  intros HW. unfold checkSessionTimeout.
  rewrite (removeSession_WF_eq now k true st HW).
  generalize (removeSession_wf now k true st). intros removed.
  destruct (negb (strict_eq (activeSession st) k)); [auto|].
  destruct (now - num_or (get k (lastActivityTime st)) 0 >=? sessionTimeout);
    [auto|].
  right. right. eexists. reflexivity.
Qed.

(** A check that finds the last activity recent changes nothing but the
    timers. *)
Lemma checkSessionTimeout_alive now k st :
  now - num_or (get k (lastActivityTime st)) 0 < sessionTimeout ->
  checkSessionTimeout now k st = Some st \/
  checkSessionTimeout now k st
  = Some (setTimeout now
            (sessionTimeout - (now - num_or (get k (lastActivityTime st)) 0)) k st).
Proof.
  intros Hidle. unfold checkSessionTimeout.
  generalize (removeSession now k true st). intros removed.
  destruct (negb (strict_eq (activeSession st) k)); [auto|].
  replace (now - num_or (get k (lastActivityTime st)) 0 >=? sessionTimeout)
    with false by (symmetry; rewrite Z.geb_leb; apply Z.leb_gt; lia).
  auto.
Qed.

(** Every operation returns, and keeps the state well formed. *)
Lemma run_op_WF now op st :
  WF st -> admissible op = true ->
  exists st', run_op now op st = Some st' /\ WF st'.
Proof.
  intros HW Hadm. destruct op as [k fi| |k|k|k pn|k|]; simpl in *.
  - eexists. split; [reflexivity|].
    destruct (joinQueue_cases now k fi st HW) as [->|[Hhas [Hroom ->]]];
      [assumption|].
    apply joined_WF; auto. now apply truthy_Some.
  - rewrite processQueue_WF by assumption. simpl. eexists. split; [reflexivity|].
    now apply processQueue_wf_WF.
  - eexists. split; [reflexivity|]. now apply updateActivity_WF.
  - unfold completeSession.
    rewrite removeSession_WF_eq by now apply set_completedSessions_WF.
    eexists. split; [reflexivity|].
    now apply removeSession_wf_WF, set_completedSessions_WF.
  - rewrite removeSession_WF_eq by assumption.
    eexists. split; [reflexivity|]. now apply removeSession_wf_WF.
  - destruct (checkSessionTimeout_cases now k st HW) as [->|[->|[d ->]]];
      eexists; (split; [reflexivity|]); auto.
    + now apply removeSession_wf_WF.
    + now apply setTimeout_WF.
  - rewrite cleanupExpiredSessions_WF by assumption.
    eexists. split; [reflexivity|]. now apply sweep_WF.
Qed.

(** Operations called from outside keep the status ['active'] for the
    session in the slot alone. *)
Lemma run_op_OneActive now op st st' :
  WF st -> OneActive st -> external op = true ->
  run_op now op st = Some st' -> OneActive st'.
Proof.
  intros HW HO Hext. destruct op as [k fi| |k|k|k pn|k|]; simpl in *;
    try discriminate.
  - intros [= <-].
    destruct (joinQueue_cases now k fi st HW) as [->|[Hhas [Hroom ->]]];
      [assumption|].
    now apply joined_OneActive.
  - intros [= <-]. unfold updateActivity.
    destruct (strict_eq (activeSession st) k); assumption.
  - unfold completeSession.
    rewrite removeSession_WF_eq by now apply set_completedSessions_WF.
    intros [= <-].
    apply removeSession_wf_OneActive; [now apply set_completedSessions_WF|].
    exact HO.
  - rewrite removeSession_WF_eq by assumption. intros [= <-].
    now apply removeSession_wf_OneActive.
  - destruct (checkSessionTimeout_cases now k st HW) as [->|[->|[d ->]]];
      intros [= <-]; auto.
    now apply removeSession_wf_OneActive.
  - rewrite cleanupExpiredSessions_WF by assumption. intros [= <-].
    now apply sweep_OneActive.
Qed.

Lemma removeSession_wf_NoIdleSlot now k st :
  WF st -> NoIdleSlot st -> NoIdleSlot (removeSession_wf now k true st).
Proof.
  intros HW HN. unfold removeSession_wf.
  destruct (strict_eq (activeSession st) k) eqn:E; simpl.
  - apply promote_NoIdleSlot. now apply sweep_WF, detach_WF.
  - unfold NoIdleSlot. rewrite detach_activeSession, E, detach_queue.
    intros Ha. now rewrite (HN Ha).
Qed.

(** The calls the server makes never leave the slot empty in front of a
    waiting session. *)
Lemma run_op_NoIdleSlot now op st st' :
  WF st -> NoIdleSlot st -> served op = true ->
  run_op now op st = Some st' -> NoIdleSlot st'.
Proof.
  intros HW HN Hsrv. destruct op as [k fi| |k|k|k pn|k|]; simpl in *;
    try discriminate.
  - intros [= <-].
    destruct (joinQueue_cases now k fi st HW) as [->|[Hhas [Hroom ->]]];
      [assumption|].
    unfold joined, NoIdleSlot.
    destruct (truthy (activeSession st)) eqn:Ht.
    + cbn [activeSession set_queue set_sessions]. intros Ha.
      rewrite Ha in Ht. discriminate.
    + unfold activate. cbn [activeSession setTimeout set_lastActivityTime
        set_sessions set_activeSession]. discriminate.
  - intros [= <-]. unfold updateActivity.
    destruct (strict_eq (activeSession st) k); assumption.
  - unfold completeSession.
    rewrite removeSession_WF_eq by now apply set_completedSessions_WF.
    intros [= <-].
    apply removeSession_wf_NoIdleSlot; [now apply set_completedSessions_WF|].
    exact HN.
  - subst pn. rewrite removeSession_WF_eq by assumption. intros [= <-].
    now apply removeSession_wf_NoIdleSlot.
  - destruct (checkSessionTimeout_cases now k st HW) as [->|[->|[d ->]]];
      intros [= <-]; auto.
    now apply removeSession_wf_NoIdleSlot.
  - rewrite cleanupExpiredSessions_WF by assumption. intros [= <-].
    unfold NoIdleSlot. rewrite sweep_activeSession, sweep_queue by assumption.
    intros Ha. now rewrite (HN Ha).
Qed.

(** *** Runs *)

Lemma run_WF allowed events st0 :
  (forall op, allowed op = true -> admissible op = true) ->
  WF st0 -> forallb (fun e => allowed (snd e)) events = true ->
  exists st, run events st0 = Some st /\ WF st.
Proof.
  intros Hsub. revert st0.
  induction events as [|[now op] events IH]; intros st0 HW Hall; simpl in *.
  - eauto.
  - apply andb_true_iff in Hall as [Hop Hall].
    destruct (run_op_WF now op st0 HW (Hsub op Hop)) as [st1 [-> HW1]].
    now apply IH.
Qed.

Lemma run_OneActive allowed events st0 st :
  (forall op, allowed op = true -> external op = true) ->
  WF st0 -> OneActive st0 ->
  forallb (fun e => allowed (snd e)) events = true ->
  run events st0 = Some st -> OneActive st.
Proof.
  intros Hsub. revert st0.
  induction events as [|[now op] events IH]; intros st0 HW HO Hall; simpl in *.
  - now intros [= <-].
  - apply andb_true_iff in Hall as [Hop Hall].
    destruct (run_op_WF now op st0 HW (external_admissible op (Hsub op Hop)))
      as [st1 [Hst1 HW1]].
    rewrite Hst1. apply IH; auto.
    exact (run_op_OneActive now op st0 st1 HW HO (Hsub op Hop) Hst1).
Qed.

Lemma run_NoIdleSlot events st0 st :
  WF st0 -> NoIdleSlot st0 ->
  forallb (fun e => served (snd e)) events = true ->
  run events st0 = Some st -> NoIdleSlot st.
Proof.
  revert st0.
  induction events as [|[now op] events IH]; intros st0 HW HN Hall; simpl in *.
  - now intros [= <-].
  - apply andb_true_iff in Hall as [Hop Hall].
    destruct (run_op_WF now op st0 HW
                (external_admissible op (served_external op Hop)))
      as [st1 [Hst1 HW1]].
    rewrite Hst1. apply IH; auto.
    exact (run_op_NoIdleSlot now op st0 st1 HW HN Hop Hst1).
Qed.

Lemma init_OneActive : OneActive init.
Proof. intros k s. discriminate. Qed.

Lemma init_NoIdleSlot : NoIdleSlot init.
Proof. intros _. reflexivity. Qed.

Lemma reaches_WF allowed events st :
  (forall op, allowed op = true -> admissible op = true) ->
  reaches allowed events st -> WF st.
Proof.
  intros Hsub [Hall Hrun].
  destruct (run_WF allowed events init Hsub init_WF Hall) as [st' [Hrun' HW]].
  congruence.
Qed.

Lemma reaches_admissible_WF events st : reaches admissible events st -> WF st.
Proof. apply reaches_WF. auto. Qed.

Lemma reaches_external_WF events st : reaches external events st -> WF st.
Proof. apply reaches_WF. apply external_admissible. Qed.

Lemma reaches_external_OneActive events st :
  reaches external events st -> OneActive st.
Proof.
  intros [Hall Hrun].
  eapply (run_OneActive external); eauto using init_WF, init_OneActive.
Qed.

Lemma reaches_served_NoIdleSlot events st :
  reaches served events st -> NoIdleSlot st.
Proof.
  intros [Hall Hrun].
  eapply run_NoIdleSlot; eauto using init_WF, init_NoIdleSlot.
Qed.

Lemma OneActive_count st : WF st -> OneActive st -> (activeCount st <= 1)%nat.
Proof.
  intros HW HO. unfold activeCount.
  apply filter_values_unique; [apply HW|].
  intros k k' s s' Hs Hs' Hp Hp'.
  assert (status s = active) by (destruct (status s); [discriminate | reflexivity]).
  assert (status s' = active) by (destruct (status s'); [discriminate | reflexivity]).
  pose proof (HO k s Hs ltac:(assumption)).
  pose proof (HO k' s' Hs' ltac:(assumption)). congruence.
Qed.

End QueueInvariants.

(* ------------------------------------------------------------------------- *)
(** ** Termination: [fuel_of] is enough in every state *)
(* ------------------------------------------------------------------------- *)

Module QueueTotality.
Import Js JsMap QueueManager QueueRuns JsMapFacts JsFacts QueueFacts.

Lemma length_set_present {V} k (v : V) m :
  In k (keys m) -> List.length (set k v m) = List.length m.
Proof.
  induction m as [|[k' v'] m IH]; simpl; [tauto|].
  intros Hin. destruct (String.eqb_spec k k'); simpl; [reflexivity|].
  f_equal. apply IH. destruct Hin; congruence.
Qed.

Lemma detach_size_le k st : (size_of (removeSession_detach k st) <= size_of st)%nat.
Proof.
  unfold size_of. rewrite detach_sessions, detach_queue.
  pose proof (length_delete_le k (sessions st)).
  pose proof (remove_first_length k (queue st)). lia.
Qed.

Lemma detach_size_lt k st :
  In k (keys (sessions st)) ->
  (size_of (removeSession_detach k st) < size_of st)%nat.
Proof.
  intros Hin. unfold size_of. rewrite detach_sessions, detach_queue.
  pose proof (length_delete_lt k (sessions st) Hin).
  pose proof (remove_first_length k (queue st)). lia.
Qed.

Section Loop.
Variable next : QM -> option QM.
Variable bound : nat.
Hypothesis next_total :
  forall s, (size_of s < bound)%nat ->
            exists s', next s = Some s' /\ (size_of s' <= size_of s)%nat.

Lemma cleanup_visit_total now k st :
  (size_of st <= bound)%nat ->
  exists st', cleanup_visit (fun k s => removeSession_with next k true s) now k st
              = Some st'
              /\ (size_of st' <= size_of st)%nat.
Proof.
  intros Hb. unfold cleanup_visit.
  destruct (get k (sessions st)) as [s|] eqn:Hs; [|eauto].
  destruct (Status_eqb (status s) waiting && (now - joinedAt s >? maxWaitTime));
    [|eauto].
  apply get_Some_key in Hs. pose proof (detach_size_lt k st Hs) as Hlt.
  unfold removeSession_with.
  destruct (strict_eq (activeSession st) k && true).
  - destruct (next_total (removeSession_detach k st)) as [s' [-> Hle]]; [lia|].
    exists s'. split; [reflexivity | lia].
  - eexists. split; [reflexivity | lia].
Qed.

Lemma cleanup_loop_total now ks : forall st,
  (size_of st <= bound)%nat ->
  exists st', cleanup_loop (fun k s => removeSession_with next k true s) now ks st
              = Some st'
              /\ (size_of st' <= size_of st)%nat.
Proof.
  induction ks as [|k ks IH]; intros st Hb; simpl; [eauto|].
  destruct (cleanup_visit_total now k st Hb) as [st1 [-> Hle]].
  destruct (IH st1) as [st2 [-> Hle2]]; [lia|].
  exists st2. split; [reflexivity | lia].
Qed.
End Loop.

Lemma processQueue_fuel_total now : forall fuel st,
  (size_of st < fuel)%nat ->
  exists r, processQueue_fuel fuel now st = Some r
            /\ (size_of (fst r) <= size_of st)%nat.
Proof.
  induction fuel as [|f IH]; intros st Hlt; [lia|].
  cbn [processQueue_fuel].
  destruct (cleanup_loop_total
              (fun s => option_map fst (processQueue_fuel f now s)) f
              ltac:(intros s Hs; destruct (IH s Hs) as [r [-> Hr]];
                    exists (fst r); split; [reflexivity | assumption])
              now (keys (sessions st)) st ltac:(lia)) as [st1 [-> Hle1]].
  destruct (queue st1) as [|n rest] eqn:Hq.
  - eexists. split; [reflexivity|]. unfold size_of in *. simpl. rewrite Hq. simpl. lia.
  - assert (Hsz : (size_of (set_queue rest st1) < size_of st1)%nat).
    { unfold size_of. simpl. rewrite Hq. simpl. lia. }
    cbn [sessions set_queue].
    destruct (get n (sessions st1)) as [s|] eqn:Hn.
    + eexists. split; [reflexivity|].
      unfold size_of in *. unfold activate. simpl in *.
      rewrite length_set_present by eauto using get_Some_key. lia.
    + destruct (IH (set_queue rest st1)) as [r [-> Hr]]; [lia|].
      exists r. split; [reflexivity | lia].
Qed.

(** [processQueue] returns in every state. *)
Lemma processQueue_total now st : exists r, processQueue now st = Some r.
Proof.
  destruct (processQueue_fuel_total now (fuel_of st) st) as [r [Hr _]];
    [unfold fuel_of, size_of; lia | eauto].
Qed.

Lemma removeSession_total now k processNext st :
  exists st', removeSession now k processNext st = Some st'.
Proof.
  unfold removeSession, removeSession_with.
  destruct (strict_eq (activeSession st) k && processNext); [|eauto].
  destruct (processQueue_total now (removeSession_detach k st)) as [r ->].
  simpl. eauto.
Qed.

Lemma cleanupExpiredSessions_total now st :
  exists st', cleanupExpiredSessions now st = Some st'.
Proof.
  unfold cleanupExpiredSessions.
  generalize (keys (sessions st)). intros ks. revert st.
  induction ks as [|k ks IH]; intros st; simpl; [eauto|].
  unfold cleanup_visit.
  destruct (get k (sessions st)) as [s|]; [|apply IH].
  destruct (Status_eqb (status s) waiting && (now - joinedAt s >? maxWaitTime));
    [|apply IH].
  destruct (removeSession_total now k true st) as [st1 ->]. apply IH.
Qed.

(** Every operation returns in every state. *)
Lemma run_op_total now op st : exists st', run_op now op st = Some st'.
Proof.
  destruct op as [k fi| |k|k|k pn|k|]; simpl; eauto.
  - destruct (processQueue_total now st) as [r ->]. simpl. eauto.
  - apply removeSession_total.
  - apply removeSession_total.
  - unfold checkSessionTimeout.
    destruct (negb (strict_eq (activeSession st) k)); [eauto|].
    destruct (now - num_or (get k (lastActivityTime st)) 0 >=? sessionTimeout);
      [apply removeSession_total | eauto].
  - apply cleanupExpiredSessions_total.
Qed.

End QueueTotality.

(* ------------------------------------------------------------------------- *)
(** ** The admission queue: the single active slot, capacity and order *)
(* ------------------------------------------------------------------------- *)

Module QueueTheorems.
Import Js JsMap QueueManager QueueRuns Scenarios.
Import JsMapFacts JsFacts QueueFacts QueueSteps QueueInvariants.

(** C1, as stated, fails: [processQueue] is among the operations it lists,
    and a call of it while a session holds the slot promotes the head of
    the waiting line without retiring the holder; two sessions then have
    the status ['active']. *)
Lemma C1_counterexample :
  exists st,
    reaches admissible
            [(1000, OpJoinQueue "A" someFile); (2000, OpJoinQueue "B" someFile);
             (3000, OpProcessQueue)] st
    /\ activeCount st = 2%nat.
Proof.
  eexists. split; [split; reflexivity|]. reflexivity.
Qed.

(** C1, amended: in every state reached from the initial one by the
    operations that are called from outside the class (joinQueue with a
    non-empty id, updateActivity, completeSession, removeSession,
    checkSessionTimeout, cleanupExpiredSessions; processQueue only as
    removeSession calls it), every operation returns, at most one session
    has the status ['active'], and that session is the one in the
    [activeSession] slot. *)
Theorem C1_at_most_one_active events :
  forallb (fun e => external (snd e)) events = true ->
  exists st,
    run events init = Some st
    /\ (activeCount st <= 1)%nat
    /\ (forall k s, get k (sessions st) = Some s -> status s = active ->
                    activeSession st = Some k).
Proof.
  intros Hall.
  destruct (run_WF external events init external_admissible init_WF Hall)
    as [st [Hrun HW]].
  assert (HO : OneActive st) by (apply (reaches_external_OneActive events); now split).
  exists st. split; [assumption|]. split; [now apply OneActive_count | exact HO].
Qed.

Lemma C1_at_most_one_active_witness :
  let events := [(1000, OpJoinQueue "A" someFile); (2000, OpJoinQueue "B" someFile);
                 (3000, OpUpdateActivity "A"); (95000, OpCheckSessionTimeout "A");
                 (96000, OpCompleteSession "A"); (97000, OpRemoveSession "B" true)] in
  forallb (fun e => external (snd e)) events = true
  /\ exists st,
       run events init = Some st
       /\ (activeCount st <= 1)%nat
       /\ (forall k s, get k (sessions st) = Some s -> status s = active ->
                       activeSession st = Some k).
Proof.
  split; [reflexivity|]. apply C1_at_most_one_active. reflexivity.
Defined.

(** The ids must be truthy for this: [joinQueue] tests the slot with
    [!this.activeSession], and the empty string in the slot reads as free. *)
Lemma empty_id_reads_as_free_slot :
  exists st,
    run [(1000, OpJoinQueue "" someFile); (2000, OpJoinQueue "B" someFile)] init
    = Some st
    /\ activeCount st = 2%nat.
Proof. eexists. split; reflexivity. Qed.

(** The scenario of the specification: "s1" joins and is active at position
    0, "s2" joins and waits at position 1, "s1" completes and "s2" is
    active at position 0. *)
Example scenario_s1_s2 :
  let f := mkFileInfo "a.pdf" 3 0 in
  let (st1, r1) := joinQueue 1000 "s1" f init in
  let (st2, r2) := joinQueue 2000 "s2" f st1 in
  (r_status r1, r_position r1) = (Some "active", Some 0)
  /\ (r_status r2, r_position r2) = (Some "waiting", Some 1)
  /\ exists st3,
       completeSession 3000 "s1" st2 = Some st3
       /\ r_status (getQueueStatus 4000 "s2" st3) = Some "active"
       /\ r_position (getQueueStatus 4000 "s2" st3) = Some 0
       /\ getQueueStatus 4000 "s1" st3 = statusNotFound.
Proof.
  simpl. split; [reflexivity|]. split; [reflexivity|].
  eexists. split; [vm_compute; reflexivity|]. repeat split.
Qed.

Lemma getQueueStatus_queueFull now k st : r_queueFull (getQueueStatus now k st) = None.
Proof.
  unfold getQueueStatus. destruct (get k (sessions st)); [|reflexivity].
  destruct (strict_eq (activeSession st) k); [reflexivity|].
  destruct (indexOf k (queue st) + 1 >? 0); reflexivity.
Qed.

(** C2, as stated, fails where the session in the slot has the empty
    string as its id: [this.activeSession] is then falsy, so with ten
    sessions waiting and that session active a join of an unknown id is
    not answered QueueFull; the newcomer is stored and takes the slot. *)
Lemma C2_counterexample :
  exists st,
    run emptyIdHolds init = Some st
    /\ List.length (queue st) = MAX_QUEUE_SIZE
    /\ activeSession st = Some ""
    /\ option_map status (get "" (sessions st)) = Some active
    /\ has "z" (sessions st) = false
    /\ snd (joinQueue 14 "z" someFile st) = statusActive sessionTimeout
    /\ has "z" (sessions (fst (joinQueue 14 "z" someFile st))) = true.
Proof.
  eexists. split; [vm_compute; reflexivity|].
  repeat split; vm_compute; reflexivity.
Qed.

(** C2, amended: in a state reached by operations whose session ids are
    not empty (server.js answers 400 to a join without an id), for a
    session id the queue does not know, [joinQueue] answers with the
    QueueFull result exactly when ten sessions wait and one is active;
    the state is then unchanged; with the slot empty the answer is never
    QueueFull. *)
Theorem C2_queue_full events st now k fi :
  reaches admissible events st ->
  has k (sessions st) = false ->
  (snd (joinQueue now k fi st) = statusQueueFull
   <-> List.length (queue st) = MAX_QUEUE_SIZE /\ activeSession st <> None)
  /\ (snd (joinQueue now k fi st) = statusQueueFull -> fst (joinQueue now k fi st) = st)
  /\ (activeSession st = None -> snd (joinQueue now k fi st) <> statusQueueFull).
Proof.
  intros Hreach Hhas. pose proof (reaches_admissible_WF _ _ Hreach) as HW.
  pose proof (wf_cap st HW) as Hcap.
  pose proof (WF_active_truthy st HW) as Htruthy.
  destruct ((MAX_QUEUE_SIZE <=? List.length (queue st))%nat
            && truthy (activeSession st)) eqn:Hfull.
  - rewrite joinQueue_full by assumption. simpl.
    apply andb_true_iff in Hfull as [Hlen Hact]. apply Nat.leb_le in Hlen.
    apply Htruthy in Hact.
    split; [split; [intros _; split; [lia | assumption] | reflexivity]|].
    split; [reflexivity | congruence].
  - rewrite joinQueue_admitted by assumption. simpl.
    assert (Hne : getQueueStatus now k (joined now k fi st) <> statusQueueFull).
    { intros Heq. pose proof (getQueueStatus_queueFull now k (joined now k fi st)) as Hq.
      rewrite Heq in Hq. discriminate. }
    split; [split; [tauto|] | split; tauto].
    intros [Hlen Hact]. apply Htruthy in Hact.
    rewrite Hact, andb_true_r in Hfull. apply Nat.leb_gt in Hfull. lia.
Qed.

Lemma C2_queue_full_witness :
  exists st,
    reaches admissible fullHouse st
    /\ has "12" (sessions st) = false
    /\ List.length (queue st) = MAX_QUEUE_SIZE
    /\ activeSession st = Some "1"
    /\ snd (joinQueue 12 "12" someFile st) = statusQueueFull
    /\ fst (joinQueue 12 "12" someFile st) = st.
Proof.
  eexists. split; [split; [reflexivity | vm_compute; reflexivity]|].
  match goal with
  | |- has _ (sessions ?st0) = _ /\ _ => set (st := st0)
  end.
  assert (Hhas : has "12" (sessions st) = false) by (vm_compute; reflexivity).
  assert (Hlen : List.length (queue st) = MAX_QUEUE_SIZE) by (vm_compute; reflexivity).
  assert (Hact : activeSession st = Some "1") by (vm_compute; reflexivity).
  assert (Hne : activeSession st <> None) by congruence.
  assert (Hreach : reaches admissible fullHouse st)
    by (split; vm_compute; reflexivity).
  destruct (C2_queue_full fullHouse st 12 "12" someFile Hreach Hhas)
    as [Hiff [Hsame _]].
  pose proof (proj2 Hiff (conj Hlen Hne)) as Hfull.
  split; [exact Hhas|]. split; [exact Hlen|]. split; [exact Hact|].
  split; [exact Hfull | exact (Hsame Hfull)].
Defined.

(** *** Order of promotion *)

Lemma fifo_filtered (p : string -> bool) st st' :
  WF st -> queue st' = filter p (queue st) ->
  activeSession st' = activeSession st \/ activeSession st' = None ->
  FifoStep st st'.
Proof.
  intros HW Hq Ha a b HB. rewrite Hq. split.
  - intros Hb. destruct Ha as [Ha|Ha]; [|congruence].
    exfalso. apply (WF_active_not_queued st b HW); [congruence|].
    now apply Before_in in HB.
  - intros Hina Hinb. apply filter_In in Hina, Hinb.
    apply Before_filter; [apply HW | assumption | tauto | tauto].
Qed.

Lemma fifo_unchanged st st' :
  WF st -> queue st' = queue st ->
  activeSession st' = activeSession st \/ activeSession st' = None ->
  FifoStep st st'.
Proof.
  intros HW Hq. apply (fifo_filtered (fun _ => true)); [assumption|].
  rewrite Hq. symmetry. now apply filter_all.
Qed.

Lemma fifo_promoted (p : string -> bool) n st st' :
  WF st -> filter p (queue st) = n :: queue st' ->
  activeSession st' = Some n ->
  FifoStep st st'.
Proof.
  intros HW Hq Ha a b HB.
  assert (Hnd : NoDup (n :: queue st')).
  { rewrite <- Hq. apply NoDup_filter, HW. }
  assert (HB' : In a (queue st') -> In b (n :: queue st') ->
                Before a b (n :: queue st')).
  { intros Hina Hinb. rewrite <- Hq in *.
    assert (Hina' : In a (filter p (queue st))) by (rewrite Hq; simpl; auto).
    apply filter_In in Hina', Hinb.
    apply Before_filter; [apply HW | assumption | tauto | tauto]. }
  split.
  - intros Hb Hina. assert (n = b) by congruence. subst n.
    apply (Before_head_absurd a b (queue st') Hnd).
    apply HB'; simpl; auto.
  - intros Hina Hinb. apply (Before_tail a b n); [assumption | |].
    + apply HB'; simpl; auto.
    + intros ->. inversion Hnd; subst. tauto.
Qed.

Lemma processQueue_wf_queue now st :
  WF st ->
  (live now st = [] /\ queue (fst (processQueue_wf now st)) = []
   /\ activeSession (fst (processQueue_wf now st)) = None)
  \/ (exists n, live now st = n :: queue (fst (processQueue_wf now st))
                /\ activeSession (fst (processQueue_wf now st)) = Some n).
Proof.
  intros HW. unfold processQueue_wf, promote.
  pose proof (sweep_WF now (keys (sessions st)) st HW) as HW1.
  rewrite <- (sweep_all_queue now st HW).
  destruct (queue (sweep now (keys (sessions st)) st)) as [|n rest] eqn:Hq.
  - left. repeat split; simpl; auto.
  - right. exists n.
    destruct (wf_waiting _ HW1 n) as [s [Hs _]]; [rewrite Hq; simpl; auto|].
    rewrite Hs. simpl. auto.
Qed.

Lemma live_detach_active now a st :
  WF st -> activeSession st = Some a ->
  live now (removeSession_detach a st) = live now st.
Proof.
  intros HW Ha. pose proof (WF_active_not_queued st a HW Ha) as Hnq.
  unfold live. rewrite detach_queue, remove_first_absent by assumption.
  apply filter_ext_in. intros x Hin. rewrite expired_detach; [reflexivity|].
  intros ->. tauto.
Qed.

Lemma processQueue_wf_absent now st x :
  WF st -> get x (sessions st) = None ->
  get x (sessions (fst (processQueue_wf now st))) = None.
Proof.
  intros HW Hx. unfold processQueue_wf, promote.
  assert (Hsw : get x (sessions (sweep now (keys (sessions st)) st)) = None).
  { rewrite sweep_all_get. now destruct (expired now st x). }
  destruct (queue (sweep now (keys (sessions st)) st)) as [|n rest]; simpl;
    [assumption|].
  destruct (get n (sessions (sweep now (keys (sessions st)) st))) as [s|] eqn:Hn;
    simpl; [|assumption].
  destruct (String.eqb_spec x n); [congruence|].
  now rewrite get_set_other.
Qed.

Lemma live_in now st x : In x (live now st) -> In x (queue st) /\ expired now st x = false.
Proof.
  unfold live. rewrite filter_In. intros [H1 H2].
  split; [assumption|]. now destruct (expired now st x).
Qed.

Lemma processQueue_wf_fifo now (p : string -> bool) st0 st :
  WF st0 -> WF st -> queue st = filter p (queue st0) ->
  FifoStep st0 (fst (processQueue_wf now st)).
Proof.
  intros HW0 HW Hq.
  destruct (processQueue_wf_queue now st HW) as [[Hl [Hq' Ha']]|[n [Hl Ha']]].
  - apply (fifo_filtered (fun x => p x && negb (expired now st x))); auto.
    rewrite Hq'. rewrite <- filter_filter, <- Hq. symmetry. exact Hl.
  - apply (fifo_promoted (fun x => p x && negb (expired now st x)) n); auto.
    rewrite <- filter_filter, <- Hq. exact Hl.
Qed.

Lemma removeSession_wf_fifo now k processNext st :
  WF st -> FifoStep st (removeSession_wf now k processNext st).
Proof.
  intros HW. unfold removeSession_wf.
  assert (Hq : queue (removeSession_detach k st)
               = filter (fun x => negb (String.eqb x k)) (queue st)).
  { rewrite detach_queue. apply remove_first_filter, HW. }
  destruct (strict_eq (activeSession st) k && processNext).
  - eapply processQueue_wf_fifo; eauto using detach_WF.
  - eapply fifo_filtered; eauto.
    rewrite detach_activeSession. destruct (strict_eq (activeSession st) k); auto.
Qed.

Lemma run_op_fifo now op st st' :
  WF st -> admissible op = true -> run_op now op st = Some st' -> FifoStep st st'.
Proof.
  intros HW Hadm. destruct op as [k fi| |k|k|k pn|k|]; simpl in *.
  - intros [= <-].
    destruct (joinQueue_cases now k fi st HW) as [->|[Hhas [Hroom ->]]].
    + apply fifo_unchanged; auto.
    + unfold joined. destruct (truthy (activeSession st)) eqn:Ht.
      * intros a b HB. cbn [queue activeSession set_queue set_sessions]. split.
        -- intros Hb. exfalso. apply (WF_active_not_queued st b HW Hb).
           now apply Before_in in HB.
        -- intros _ _. now apply Before_app_keep.
      * intros a b HB. unfold activate.
        cbn [queue activeSession set_queue set_sessions setTimeout
             set_lastActivityTime set_activeSession]. split; [|auto].
        intros [= ->]. exfalso. apply Before_in in HB as [_ Hin].
        destruct (wf_waiting st HW b Hin) as [s [Hs _]].
        unfold has in Hhas. now rewrite Hs in Hhas.
  - rewrite processQueue_WF by assumption. intros [= <-].
    apply (processQueue_wf_fifo now (fun _ => true)); auto.
    symmetry. now apply filter_all.
  - intros [= <-]. apply fifo_unchanged; auto.
    + unfold updateActivity. now destruct (strict_eq (activeSession st) k).
    + unfold updateActivity. destruct (strict_eq (activeSession st) k); auto.
  - unfold completeSession.
    rewrite removeSession_WF_eq by now apply set_completedSessions_WF.
    intros [= <-].
    exact (removeSession_wf_fifo now k true
             (set_completedSessions (completedSessions st + 1) st)
             (set_completedSessions_WF _ st HW)).
  - rewrite removeSession_WF_eq by assumption. intros [= <-].
    now apply removeSession_wf_fifo.
  - destruct (checkSessionTimeout_cases now k st HW) as [->|[->|[d ->]]];
      intros [= <-].
    + apply fifo_unchanged; auto.
    + now apply removeSession_wf_fifo.
    + apply fifo_unchanged; auto.
  - rewrite cleanupExpiredSessions_WF by assumption. intros [= <-].
    eapply fifo_filtered; [assumption | now apply sweep_queue |].
    left. now apply sweep_activeSession.
Qed.

Lemma processQueue_wf_sweeps now st x :
  WF st -> expired now st x = true ->
  get x (sessions (fst (processQueue_wf now st))) = None.
Proof.
  intros HW Hx. unfold processQueue_wf, promote.
  assert (Hsw : get x (sessions (sweep now (keys (sessions st)) st)) = None).
  { rewrite sweep_all_get. now rewrite Hx. }
  destruct (queue (sweep now (keys (sessions st)) st)) as [|n rest]; simpl;
    [assumption|].
  destruct (get n (sessions (sweep now (keys (sessions st)) st))) as [s|] eqn:Hn;
    simpl; [|assumption].
  destruct (String.eqb_spec x n); [congruence|].
  now rewrite get_set_other.
Qed.

Lemma overtaken_is_expired now st a b rest :
  WF st -> live now st = b :: rest -> Before a b (queue st) ->
  expired now st a = true.
Proof.
  intros HW Hl HB. destruct (expired now st a) eqn:Ea; [reflexivity|].
  exfalso.
  assert (Hb : expired now st b = false).
  { apply (live_in now st b). rewrite Hl. now left. }
  assert (HB' : Before a b (live now st)).
  { unfold live. apply Before_filter; [apply HW | assumption | |].
    - now rewrite Ea.
    - now rewrite Hb. }
  rewrite Hl in HB'.
  apply (Before_head_absurd a b rest); [|assumption].
  rewrite <- Hl. unfold live. apply NoDup_filter, HW.
Qed.

(** When [removeSession] hands the slot to a session of the line, that
    session is the head of the line the sweep leaves, and those that
    stood before it have been swept. *)
Lemma removeSession_wf_head now k processNext st b :
  WF st -> In b (queue st) ->
  activeSession (removeSession_wf now k processNext st) = Some b ->
  live now st = b :: queue (removeSession_wf now k processNext st)
  /\ forall a, Before a b (queue st) ->
               expired now st a = true
               /\ get a (sessions (removeSession_wf now k processNext st)) = None.
Proof.
  intros HW Hb. unfold removeSession_wf.
  destruct (strict_eq (activeSession st) k && processNext) eqn:E.
  - apply andb_true_iff in E as [E _]. apply strict_eq_true in E.
    assert (HW1 : WF (removeSession_detach k st)) by now apply detach_WF.
    intros Hact.
    destruct (processQueue_wf_queue now (removeSession_detach k st) HW1)
      as [[_ [_ Hn]]|[n [Hl Hn]]]; [congruence|].
    assert (n = b) by congruence. subst n.
    rewrite (live_detach_active now k st HW E) in Hl.
    split; [exact Hl|]. intros a HB.
    pose proof (overtaken_is_expired now st a b _ HW Hl HB) as Ha.
    split; [exact Ha|].
    apply processQueue_wf_sweeps; [assumption|].
    rewrite expired_detach; [assumption|].
    intros ->. apply (WF_active_not_queued st k HW E). now apply Before_in in HB.
  - rewrite detach_activeSession.
    destruct (strict_eq (activeSession st) k); [discriminate|].
    intros Hact. destruct (WF_active_not_queued st b HW Hact Hb).
Qed.

(** A promotion takes the head of the line the sweep leaves. *)
Lemma run_op_promotes_head now op st st' b :
  WF st -> admissible op = true -> run_op now op st = Some st' ->
  In b (queue st) -> activeSession st' = Some b ->
  live now st = b :: queue st'
  /\ forall a, Before a b (queue st) ->
               expired now st a = true /\ get a (sessions st') = None.
Proof.
  intros HW Hadm Hrun Hb.
  assert (Hkeep : activeSession st = Some b -> False).
  { intros Hact. exact (WF_active_not_queued st b HW Hact Hb). }
  destruct op as [k fi| |k|k|k pn|k|]; cbn [run_op] in Hrun.
  - injection Hrun as <-. intros Hact. exfalso.
    destruct (joinQueue_cases now k fi st HW) as [Heq|[Hhas [Hroom Heq]]];
      rewrite Heq in Hact; [now apply Hkeep|].
    unfold joined in Hact. destruct (truthy (activeSession st)).
    + now apply Hkeep.
    + cbn in Hact. injection Hact as ->.
      destruct (wf_waiting st HW b Hb) as [s [Hs _]].
      unfold has in Hhas. now rewrite Hs in Hhas.
  - rewrite processQueue_WF in Hrun by assumption. injection Hrun as <-.
    intros Hact.
    destruct (processQueue_wf_queue now st HW) as [[_ [_ Hn]]|[n [Hl Hn]]];
      [congruence|].
    assert (n = b) by congruence. subst n.
    split; [exact Hl|]. intros a HB.
    pose proof (overtaken_is_expired now st a b _ HW Hl HB) as Ha.
    split; [exact Ha | now apply processQueue_wf_sweeps].
  - injection Hrun as <-. intros Hact. exfalso. apply Hkeep.
    unfold updateActivity in Hact.
    now destruct (strict_eq (activeSession st) k).
  - unfold completeSession in Hrun.
    rewrite removeSession_WF_eq in Hrun by now apply set_completedSessions_WF.
    injection Hrun as <-.
    exact (removeSession_wf_head now k true
             (set_completedSessions (completedSessions st + 1) st) b
             (set_completedSessions_WF _ st HW) Hb).
  - rewrite removeSession_WF_eq in Hrun by assumption. injection Hrun as <-.
    now apply removeSession_wf_head.
  - destruct (checkSessionTimeout_cases now k st HW) as [Heq|[Heq|[d Heq]]];
      rewrite Heq in Hrun; injection Hrun as <-.
    + intros Hact. exfalso. now apply Hkeep.
    + now apply removeSession_wf_head.
    + intros Hact. exfalso. now apply Hkeep.
  - rewrite cleanupExpiredSessions_WF in Hrun by assumption. injection Hrun as <-.
    intros Hact. exfalso. apply Hkeep.
    now rewrite sweep_activeSession in Hact.
Qed.

Lemma removeSession_wf_refill now k st a :
  WF st -> activeSession st = Some a ->
  get a (sessions (removeSession_wf now k true st)) = None ->
  activeSession (removeSession_wf now k true st) = hd_error (live now st)
  /\ queue (removeSession_wf now k true st) = tl (live now st).
Proof.
  intros HW Ha. unfold removeSession_wf.
  destruct (wf_active st HW a Ha) as [s [Hs _]].
  destruct (strict_eq (activeSession st) k) eqn:E; cbn [andb].
  - apply strict_eq_true in E. assert (k = a) by congruence. subst k.
    intros _. rewrite <- (live_detach_active now a st HW Ha).
    destruct (processQueue_wf_queue now (removeSession_detach a st)
                (detach_WF a st HW)) as [[Hl [Hq Hn]]|[n [Hl Hn]]];
      rewrite Hl; cbn [hd_error tl]; auto.
  - rewrite detach_get. apply strict_eq_false in E.
    destruct (String.eqb_spec a k); [congruence|]. congruence.
Qed.

(** When a call of the server removes the session in the slot, the head
    of the line the sweep leaves takes the slot. *)
Lemma run_op_refills_slot now op st st' a :
  WF st -> served op = true -> run_op now op st = Some st' ->
  activeSession st = Some a -> get a (sessions st') = None ->
  activeSession st' = hd_error (live now st) /\ queue st' = tl (live now st).
Proof.
  intros HW Hsrv Hrun Ha.
  destruct (wf_active st HW a Ha) as [s [Hs Hst]].
  destruct op as [k fi| |k|k|k pn|k|]; cbn [run_op] in Hrun.
  - injection Hrun as <-. intros Hgone. exfalso.
    destruct (joinQueue_cases now k fi st HW) as [Heq|[Hhas [Hroom Heq]]];
      rewrite Heq in Hgone; [congruence|].
    unfold joined in Hgone.
    replace (truthy (activeSession st)) with true in Hgone
      by (symmetry; apply (WF_active_truthy st HW); congruence).
    cbn in Hgone.
    destruct (String.eqb_spec a k) as [->|Hne].
    + unfold has in Hhas. now rewrite Hs in Hhas.
    + rewrite get_set_other in Hgone by assumption. congruence.
  - discriminate Hsrv.
  - injection Hrun as <-. intros Hgone. exfalso.
    unfold updateActivity in Hgone.
    destruct (strict_eq (activeSession st) k); cbn in Hgone; congruence.
  - unfold completeSession in Hrun.
    rewrite removeSession_WF_eq in Hrun by now apply set_completedSessions_WF.
    injection Hrun as <-.
    exact (removeSession_wf_refill now k
             (set_completedSessions (completedSessions st + 1) st) a
             (set_completedSessions_WF _ st HW) Ha).
  - cbn in Hsrv. subst pn.
    rewrite removeSession_WF_eq in Hrun by assumption. injection Hrun as <-.
    now apply removeSession_wf_refill.
  - destruct (checkSessionTimeout_cases now k st HW) as [Heq|[Heq|[d Heq]]];
      rewrite Heq in Hrun; injection Hrun as <-.
    + congruence.
    + now apply removeSession_wf_refill.
    + cbn. congruence.
  - rewrite cleanupExpiredSessions_WF in Hrun by assumption. injection Hrun as <-.
    rewrite sweep_all_get. intros Hgone. exfalso.
    destruct (expired now st a) eqn:Ee; [|congruence].
    destruct (expired_waiting now st a Ee) as [s' [Hs' [Hw _]]].
    rewrite Hs in Hs'. injection Hs' as <-. rewrite Hst in Hw. discriminate.
Qed.

(** C3, as stated, fails: "A" joins before "B" and both wait while "X"
    holds the slot; when "X" completes at 650 s, "A" has waited more than
    ten minutes and "B" has not: the sweep that precedes the promotion
    removes "A", and "B" is promoted although "A" never was. *)
Lemma C3_counterexample :
  exists st st',
    overtaking = Some st
    /\ activeSession st = Some "X" /\ queue st = ["A"; "B"]
    /\ completeSession 650000 "X" st = Some st'
    /\ activeSession st' = Some "B"
    /\ get "A" (sessions st') = None.
Proof.
  do 2 eexists. split; [vm_compute; reflexivity|].
  split; [reflexivity|]. split; [reflexivity|].
  split; [vm_compute; reflexivity|].
  split; reflexivity.
Qed.

(** C3, amended: sessions enter the waiting line at its tail, in the
    order of their arrival.  Every promotion first sweeps the sessions
    that have waited for more than ten minutes and then takes the head of
    the line that is left: a session [b] that stands behind [a] is
    promoted only when that sweep removes [a], and is never promoted
    while [a] still waits; the two keep their order in the line.
    Whenever a call of the server removes the session in the slot, the
    head of the line the sweep leaves takes the slot, and under those
    calls the slot is never empty while someone waits. *)
Theorem C3_fifo events st :
  reaches admissible events st ->
  (forall now k fi,
      has k (sessions st) = false -> activeSession st <> None ->
      (List.length (queue st) < MAX_QUEUE_SIZE)%nat ->
      queue (fst (joinQueue now k fi st)) = queue st ++ [k])
  /\ (forall now op st' b,
         admissible op = true -> run_op now op st = Some st' ->
         In b (queue st) -> activeSession st' = Some b ->
         live now st = b :: queue st'
         /\ forall a, Before a b (queue st) ->
                      expired now st a = true /\ get a (sessions st') = None)
  /\ (forall now op st' a,
         served op = true -> run_op now op st = Some st' ->
         activeSession st = Some a -> get a (sessions st') = None ->
         activeSession st' = hd_error (live now st)
         /\ queue st' = tl (live now st))
  /\ (forall now op st' a b,
         admissible op = true -> run_op now op st = Some st' ->
         Before a b (queue st) ->
         (activeSession st' = Some b -> ~ In a (queue st'))
         /\ (In a (queue st') -> In b (queue st') -> Before a b (queue st')))
  /\ (forallb (fun e => served (snd e)) events = true ->
      activeSession st = None -> queue st = []).
Proof.
  intros Hreach. pose proof (reaches_admissible_WF _ _ Hreach) as HW.
  split; [|split; [|split; [|split]]].
  - intros now k fi Hhas Hact Hlen.
    rewrite joinQueue_admitted; auto.
    + unfold joined. apply (WF_active_truthy st HW) in Hact. now rewrite Hact.
    + apply andb_false_iff. left. now apply Nat.leb_gt.
  - intros now op st' b Hadm Hrun Hb Hact.
    exact (run_op_promotes_head now op st st' b HW Hadm Hrun Hb Hact).
  - intros now op st' a Hsrv Hrun Ha Hgone.
    exact (run_op_refills_slot now op st st' a HW Hsrv Hrun Ha Hgone).
  - intros now op st' a b Hadm Hrun HB.
    exact (run_op_fifo now op st st' HW Hadm Hrun a b HB).
  - intros Hsrv. apply (reaches_served_NoIdleSlot events). split; [assumption|].
    apply Hreach.
Qed.

Lemma C3_fifo_witness :
  exists st st',
    reaches admissible
            [(1000, OpJoinQueue "A" someFile); (2000, OpJoinQueue "B" someFile);
             (3000, OpJoinQueue "C" someFile)] st
    /\ queue st = ["B"; "C"]
    /\ run_op 4000 (OpRemoveSession "A" true) st = Some st'
    /\ activeSession st' = Some "B" /\ queue st' = ["C"].
Proof.
  do 2 eexists. split; [split; [reflexivity | vm_compute; reflexivity]|].
  split; [reflexivity|]. split; [vm_compute; reflexivity|].
  match goal with
  | |- activeSession ?s' = _ /\ _ => set (st' := s')
  end.
  destruct (C3_fifo [(1000, OpJoinQueue "A" someFile); (2000, OpJoinQueue "B" someFile);
                     (3000, OpJoinQueue "C" someFile)]
              (fst (joinQueue 3000 "C" someFile
                      (fst (joinQueue 2000 "B" someFile
                              (fst (joinQueue 1000 "A" someFile init))))))
              (conj eq_refl eq_refl)) as [_ [_ [Hrefill _]]].
  destruct (Hrefill 4000 (OpRemoveSession "A" true) st' "A" eq_refl
              ltac:(vm_compute; reflexivity) eq_refl eq_refl) as [H1 H2].
  split; [rewrite H1 | rewrite H2]; vm_compute; reflexivity.
Defined.

End QueueTheorems.

(* ------------------------------------------------------------------------- *)
(** ** The admission queue: timeouts and the status report *)
(* ------------------------------------------------------------------------- *)

Module TimeoutTheorems.
Import Js JsMap QueueManager QueueRuns Scenarios.
Import JsMapFacts JsFacts QueueFacts QueueSteps QueueInvariants.
Import QueueTheorems.

Lemma filter_values_present {V} (p : V -> bool) k v (m : JsMap.t V) :
  get k m = Some v -> p v = true -> (1 <= List.length (filter p (values m)))%nat.
Proof.
  induction m as [|[k' v'] m IH]; simpl; [discriminate|].
  destruct (String.eqb k k').
  - intros [= ->] Hp. rewrite Hp. simpl. lia.
  - intros Hg Hp. specialize (IH Hg Hp). destruct (p v'); simpl; lia.
Qed.

(** C4, as stated, fails: the timeout check removes the idle active
    session, but the promotion first sweeps the waiting sessions older
    than ten minutes; here "B" is the only one waiting and is swept, so
    the waiting line was not empty and nobody becomes active. *)
Lemma C4_counterexample :
  exists st st',
    staleAfter 8 = Some st
    /\ activeSession st = Some "A" /\ queue st = ["B"]
    /\ sessionTimeout <= 731000 - num_or (get "A" (lastActivityTime st)) 0
    /\ checkSessionTimeout 731000 "A" st = Some st'
    /\ activeSession st' = None /\ sessions st' = [].
Proof.
  do 2 eexists. split; [vm_compute; reflexivity|].
  split; [reflexivity|]. split; [reflexivity|].
  split; [vm_compute; discriminate|].
  split; [vm_compute; reflexivity|].
  split; reflexivity.
Qed.

(** C4, amended: when the active session has been idle for at least 90
    seconds the timeout check removes it, and the first session of the
    waiting line that has not waited for more than ten minutes becomes
    the one active session, the line being what stood behind it; when no
    such session waits, the slot stays empty.  When the last activity is
    more recent than 90 seconds the state is unchanged but for a new
    timer over the remaining time. *)
Theorem C4_timeout_check events st now a :
  reaches external events st -> activeSession st = Some a ->
  (sessionTimeout <= now - num_or (get a (lastActivityTime st)) 0 ->
   exists st',
     checkSessionTimeout now a st = Some st'
     /\ get a (sessions st') = None /\ ~ In a (queue st')
     /\ match live now st with
        | [] => activeSession st' = None /\ queue st' = []
        | n :: rest =>
            activeSession st' = Some n /\ queue st' = rest
            /\ activeCount st' = 1%nat
        end)
  /\ (now - num_or (get a (lastActivityTime st)) 0 < sessionTimeout ->
      checkSessionTimeout now a st
      = Some (setTimeout now
                (sessionTimeout - (now - num_or (get a (lastActivityTime st)) 0))
                a st)).
Proof.
  intros Hreach Ha.
  pose proof (reaches_external_WF _ _ Hreach) as HW.
  pose proof (reaches_external_OneActive _ _ Hreach) as HO.
  assert (Hse : strict_eq (activeSession st) a = true) by now apply strict_eq_true.
  unfold checkSessionTimeout. rewrite Hse. cbn [negb]. split.
  - intros Hidle.
    replace (now - num_or (get a (lastActivityTime st)) 0 >=? sessionTimeout)
      with true by (symmetry; apply Z.geb_le; lia).
    rewrite removeSession_WF_eq by assumption.
    unfold removeSession_wf. rewrite Hse. cbn [andb].
    set (st1 := removeSession_detach a st).
    assert (HW1 : WF st1) by now apply detach_WF.
    assert (HO1 : OneActive st1) by now apply detach_OneActive.
    assert (Ha1 : activeSession st1 = None).
    { unfold st1. now rewrite detach_activeSession, Hse. }
    pose proof (processQueue_wf_WF now st1 HW1) as HW'.
    pose proof (processQueue_wf_OneActive now st1 HW1 HO1 Ha1) as HO'.
    pose proof (WF_active_not_queued st a HW Ha) as Hnq.
    eexists. split; [reflexivity|]. split; [|split].
    + apply processQueue_wf_absent; [assumption|].
      unfold st1. rewrite detach_get. now rewrite String.eqb_refl.
    + intros Hin.
      destruct (processQueue_wf_queue now st1 HW1) as [[_ [Hq _]]|[n [Hl _]]].
      * rewrite Hq in Hin. destruct Hin.
      * assert (Hin' : In a (live now st1)) by (rewrite Hl; simpl; auto).
        unfold st1 in Hin'. rewrite live_detach_active in Hin' by assumption.
        apply live_in in Hin'. tauto.
    + rewrite <- (live_detach_active now a st HW Ha). fold st1.
      destruct (processQueue_wf_queue now st1 HW1) as [[Hl [Hq Hact]]|[n [Hl Hact]]];
        rewrite Hl; [tauto|].
      split; [assumption|]. split; [reflexivity|].
      apply Nat.le_antisymm; [now apply OneActive_count|].
      destruct (wf_active _ HW' n Hact) as [s [Hs Hst]].
      unfold activeCount.
      apply (filter_values_present _ n s); [assumption|]. now rewrite Hst.
  - intros Hidle.
    replace (now - num_or (get a (lastActivityTime st)) 0 >=? sessionTimeout)
      with false by (symmetry; rewrite Z.geb_leb; apply Z.leb_gt; lia).
    reflexivity.
Qed.

Lemma C4_timeout_check_witness :
  let events := [(1000, OpJoinQueue "A" someFile); (2000, OpJoinQueue "B" someFile);
                 (3000, OpJoinQueue "C" someFile)] in
  exists st,
    reaches external events st /\ activeSession st = Some "A"
    /\ exists st',
        checkSessionTimeout 91000 "A" st = Some st'
        /\ get "A" (sessions st') = None /\ ~ In "A" (queue st')
        /\ activeSession st' = Some "B" /\ queue st' = ["C"]
        /\ activeCount st' = 1%nat.
Proof.
  eexists. split; [split; reflexivity|]. split; [reflexivity|].
  destruct (C4_timeout_check
              [(1000, OpJoinQueue "A" someFile); (2000, OpJoinQueue "B" someFile);
               (3000, OpJoinQueue "C" someFile)] _ 91000 "A"
              (conj eq_refl eq_refl) eq_refl) as [Hfire _].
  destruct Hfire as [st' [H1 [H2 [H3 H4]]]]; [vm_compute; discriminate|].
  exists st'. split; [exact H1|]. split; [exact H2|]. split; [exact H3|]. exact H4.
Defined.

(** C8, as stated, fails: nothing sweeps on an interval.  "A" holds the
    slot and sends a heartbeat every 80 seconds, the timers fire as they
    come due, and an hour later "B", which joined at 2 s, is still
    waiting. *)
Lemma C8_counterexample :
  exists st s,
    staleAfter 45 = Some st
    /\ get "B" (sessions st) = Some s /\ status s = waiting /\ In "B" (queue st)
    /\ maxWaitTime < 3601000 - joinedAt s
    /\ forallb (fun t => 3601000 <? due t) (pending st) = true.
Proof.
  do 2 eexists. split; [vm_compute; reflexivity|].
  split; [vm_compute; reflexivity|].
  split; [reflexivity|]. split; [simpl; auto|].
  split; [vm_compute; reflexivity|]. vm_compute. reflexivity.
Qed.

(** C8, amended: the sweep [cleanupExpiredSessions] removes every waiting
    session that joined more than ten minutes ago, from the session map
    and from the waiting line, and leaves every other session as it is;
    every [processQueue] starts with this sweep.  It runs on no interval:
    a heartbeat, and a timeout check that finds the active session alive,
    leave the sessions and the waiting line as they are. *)
Theorem C8_sweep events st now :
  reaches admissible events st ->
  (exists st',
      cleanupExpiredSessions now st = Some st'
      /\ (forall k s, get k (sessions st') = Some s -> status s = waiting ->
                      now - joinedAt s <= maxWaitTime)
      /\ (forall k, expired now st k = true ->
                    get k (sessions st') = None /\ ~ In k (queue st'))
      /\ (forall k, expired now st k = false ->
                    get k (sessions st') = get k (sessions st)))
  /\ (exists st' r,
         processQueue now st = Some (st', r)
         /\ (forall k s, get k (sessions st') = Some s -> status s = waiting ->
                         now - joinedAt s <= maxWaitTime)
         /\ (forall k, expired now st k = true ->
                       get k (sessions st') = None /\ ~ In k (queue st')))
  /\ (forall k, sessions (updateActivity now k st) = sessions st
                /\ queue (updateActivity now k st) = queue st)
  /\ (forall k,
         now - num_or (get k (lastActivityTime st)) 0 < sessionTimeout ->
         exists st',
           checkSessionTimeout now k st = Some st'
           /\ sessions st' = sessions st /\ queue st' = queue st).
Proof.
  intros Hreach. pose proof (reaches_admissible_WF _ _ Hreach) as HW.
  set (sw := sweep now (keys (sessions st)) st).
  assert (Hfresh : forall k s, get k (sessions sw) = Some s -> status s = waiting ->
                               now - joinedAt s <= maxWaitTime).
  { intros k s. unfold sw. rewrite sweep_all_get.
    destruct (expired now st k) eqn:E; [discriminate|].
    intros Hs Hst. unfold expired in E. rewrite Hs, Hst in E. simpl in E. lia. }
  assert (Hgone : forall k, expired now st k = true ->
                            get k (sessions sw) = None /\ ~ In k (queue sw)).
  { intros k E. unfold sw. rewrite sweep_all_get, E. split; [reflexivity|].
    rewrite sweep_all_queue by assumption. intros Hin.
    apply live_in in Hin. destruct Hin; congruence. }
  split; [|split; [|split]].
  - exists sw. split; [now apply cleanupExpiredSessions_WF|].
    split; [assumption|]. split; [assumption|].
    intros k E. unfold sw. now rewrite sweep_all_get, E.
  - rewrite processQueue_WF by assumption.
    exists (fst (processQueue_wf now st)), (snd (processQueue_wf now st)).
    split; [now destruct (processQueue_wf now st)|].
    unfold processQueue_wf, promote. fold sw.
    destruct (queue sw) as [|n rest] eqn:Hq; simpl.
    + split; [assumption|]. intros k E. destruct (Hgone k E) as [Hg Hnq].
      rewrite ?Hq. auto.
    + destruct (get n (sessions sw)) as [sn|] eqn:Hn; simpl.
      * split.
        -- intros k s. destruct (String.eqb_spec k n); subst.
           ++ rewrite get_set_same. intros [= <-]. discriminate.
           ++ rewrite get_set_other by assumption. apply Hfresh.
        -- intros k E. destruct (Hgone k E) as [Hg Hnq]. rewrite ?Hq in Hnq.
           split; [|simpl in Hnq; tauto].
           rewrite get_set_other; [assumption | congruence].
      * split; [assumption|]. intros k E. destruct (Hgone k E) as [Hg Hnq].
        rewrite ?Hq in Hnq. simpl in Hnq. tauto.
  - intros k. unfold updateActivity.
    destruct (strict_eq (activeSession st) k); auto.
  - intros k Hidle.
    destruct (checkSessionTimeout_alive now k st Hidle) as [H|H];
      eexists; (split; [exact H | split; reflexivity]).
Qed.

Lemma C8_sweep_witness :
  let events := [(1000, OpJoinQueue "A" someFile); (2000, OpJoinQueue "B" someFile)] in
  exists st,
    reaches admissible events st
    /\ expired 700000 st "B" = true
    /\ exists st',
        cleanupExpiredSessions 700000 st = Some st'
        /\ get "B" (sessions st') = None /\ ~ In "B" (queue st').
Proof.
  eexists. split; [split; reflexivity|]. split; [reflexivity|].
  destruct (C8_sweep
              [(1000, OpJoinQueue "A" someFile); (2000, OpJoinQueue "B" someFile)]
              _ 700000 (conj eq_refl eq_refl)) as [[st' [H1 [_ [H3 _]]]] _].
  exists st'. split; [exact H1|]. apply H3. reflexivity.
Defined.

(** *** The status report for the active session *)

Lemma getQueueStatus_active now k st :
  WF st -> activeSession st = Some k ->
  exists s,
    get k (sessions st) = Some s
    /\ getQueueStatus now k st
       = statusActive (Z.max 0 (sessionTimeout - (now - num_or (activatedAt s) now))).
Proof.
  intros HW Ha. destruct (wf_active st HW k Ha) as [s [Hs _]].
  exists s. split; [assumption|]. unfold getQueueStatus. rewrite Hs.
  replace (strict_eq (activeSession st) k) with true; [reflexivity|].
  symmetry. now apply strict_eq_true.
Qed.

(** C5 fails on the code: [timeRemaining] is computed from [activatedAt],
    which no heartbeat moves, while the timeout clock runs from
    [lastActivityTime].  "s1" becomes active at 1 s and sends a heartbeat
    at 61 s: the status then reports 30 s left although the clock has
    the full 90 s; at 91 s it reports 0 s while the timeout check of that
    instant keeps the session for 60 s more. *)
Theorem C5_timeRemaining_after_heartbeat :
  let st1 := fst (joinQueue 1000 "s1" someFile init) in
  let st2 := updateActivity 61000 "s1" st1 in
  let r := getQueueStatus 61000 "s1" st2 in
  r_status r = Some "active" /\ r_position r = Some 0
  /\ r_canProceed r = Some true
  /\ r_timeRemaining r = Some 30000
  /\ sessionTimeout - (61000 - num_or (get "s1" (lastActivityTime st2)) 0) = 90000
  /\ r_timeRemaining (getQueueStatus 91000 "s1" st2) = Some 0
  /\ checkSessionTimeout 91000 "s1" st2 = Some (setTimeout 91000 60000 "s1" st2).
Proof.
  repeat split; reflexivity.
Qed.

End TimeoutTheorems.

(* ------------------------------------------------------------------------- *)
(** ** The device bridge: delivery of coin events *)
(* ------------------------------------------------------------------------- *)

Module CoinTheorems.
Import Js JsMap CoinListener JsMapFacts.

Section Delivery.
Variable U : Type.
Implicit Types (cbs : list (Callback U)) (w : World U).

(** The guarded call of one observer completes normally and records
    one delivery, whatever the observer does. *)
Lemma guarded_call index (cb : Callback U) v t w :
  snd (try_catch U (call U index cb v t) w) = Normal
  /\ deliveries (fst (try_catch U (call U index cb v t) w))
     = deliveries w ++ [mkDelivery index v t].
Proof.
  unfold try_catch, call. destruct (cb v t (user w)) as [u' [|e]]; simpl; auto.
Qed.

(** The loop over the observers reaches every one of them, in the
    order of registration. *)
Lemma forEach_delivers v t cbs : forall index w,
  snd (forEach_from U index
         (fun i cb => try_catch U (call U i cb v t)) cbs w) = Normal
  /\ deliveries (fst (forEach_from U index
                        (fun i cb => try_catch U (call U i cb v t)) cbs w))
     = deliveries w
       ++ map (fun i => mkDelivery i v t) (seq index (List.length cbs)).
Proof.
  induction cbs as [|cb cbs IH]; intros index w; simpl.
  - now rewrite app_nil_r.
  - destruct (guarded_call index cb v t w) as [Hc Hd].
    destruct (try_catch U (call U index cb v t) w) as [w' c]. simpl in *.
    subst c. destruct (IH (S index) w') as [Hc' Hd'].
    split; [assumption|]. rewrite Hd', Hd, <- app_assoc. reflexivity.
Qed.

Lemma coinValues_truthy t v : get t coinValues = Some v -> truthy_value v = true.
Proof.
  unfold coinValues. simpl.
  repeat (destruct (String.eqb t _); [intros [= <-]; reflexivity|]).
  discriminate.
Qed.

(** A coin of the table reaches every observer, in order, with the
    value and the type, and the handler completes normally even when
    observers throw. *)
Lemma handleCoinDetection_known cbs t v w :
  get t coinValues = Some v ->
  snd (handleCoinDetection cbs t w) = Normal
  /\ deliveries (fst (handleCoinDetection cbs t w))
     = deliveries w ++ map (fun i => mkDelivery i v t) (seq 0 (List.length cbs)).
Proof.
  intros Hv. unfold handleCoinDetection, lookupCoinValue. rewrite Hv.
  rewrite (coinValues_truthy t v Hv). apply forEach_delivers.
Qed.

(** A type that is no property of the table at all, own or inherited,
    reaches no observer. *)
Lemma handleCoinDetection_undefined cbs t w :
  get t coinValues = None -> get t objectPrototype = None ->
  handleCoinDetection cbs t w = (w, Normal).
Proof.
  intros H1 H2. unfold handleCoinDetection, lookupCoinValue.
  now rewrite H1, H2.
Qed.

(** C6 fails on the code for a type that names a member of
    [Object.prototype]: ["constructor"] is not in the denomination
    table, yet [this.coinValues["constructor"]] is the inherited
    function, which is truthy, and both observers are called with it. *)
Theorem C6_inherited_name_is_delivered (cb1 cb2 : Callback U) w :
  get "constructor" coinValues = None
  /\ snd (handleArduinoData [cb1; cb2] "COIN:constructor" w) = Normal
  /\ deliveries (fst (handleArduinoData [cb1; cb2] "COIN:constructor" w))
     = deliveries w
       ++ [mkDelivery 0 (nativeFunction "Object") "constructor";
           mkDelivery 1 (nativeFunction "Object") "constructor"].
Proof.
  split; [reflexivity|].
  change (handleArduinoData [cb1; cb2] "COIN:constructor" w)
    with (forEach_from U 0
            (fun i cb => try_catch U (call U i cb (nativeFunction "Object")
                                           "constructor")) [cb1; cb2] w).
  apply (forEach_delivers (nativeFunction "Object") "constructor" [cb1; cb2] 0%nat w).
Qed.

(** What holds of C6: the lines [COIN:1], [COIN:5], [COIN:10] and
    [COIN:20] reach every observer in order, and a type such as [99]
    reaches none. *)
Lemma handleArduinoData_coin_10 cbs w :
  snd (handleArduinoData cbs "COIN:10" w) = Normal
  /\ deliveries (fst (handleArduinoData cbs "COIN:10" w))
     = deliveries w
       ++ map (fun i => mkDelivery i (VNumber 10) "10") (seq 0 (List.length cbs)).
Proof. apply (handleCoinDetection_known cbs "10" (VNumber 10) w). reflexivity. Qed.

Lemma handleArduinoData_coin_99 cbs w :
  handleArduinoData cbs "COIN:99" w = (w, Normal).
Proof. reflexivity. Qed.
End Delivery.

End CoinTheorems.

(* ------------------------------------------------------------------------- *)
(** ** The claimed-coin ledger and the payment gate *)
(* ------------------------------------------------------------------------- *)

Module ServerTheorems.
Import Js JsMap QueueManager Server JsMapFacts.

(** The test of the sweep on the entry stored under [x]. *)
Lemma sweep_visit_get fiveMinutesAgo m k x :
  get x (sweep_visit fiveMinutesAgo m k)
  = if String.eqb x k
       && match get x m with
          | Some e => claimedAt e <? fiveMinutesAgo
          | None => false
          end
    then None else get x m.
Proof.
  unfold sweep_visit. destruct (String.eqb_spec x k); subst; simpl.
  - destruct (get k m) as [e|] eqn:He; [|now rewrite He].
    destruct (claimedAt e <? fiveMinutesAgo); [apply get_delete_same | assumption].
  - destruct (get k m) as [e|]; [|reflexivity].
    destruct (claimedAt e <? fiveMinutesAgo); [now apply get_delete_other | reflexivity].
Qed.

Lemma sweep_fold_get fiveMinutesAgo ks : forall m x,
  get x (fold_left (sweep_visit fiveMinutesAgo) ks m)
  = if existsb (String.eqb x) ks
       && match get x m with
          | Some e => claimedAt e <? fiveMinutesAgo
          | None => false
          end
    then None else get x m.
Proof.
  induction ks as [|k ks IH]; intros m x; simpl; [reflexivity|].
  rewrite IH, sweep_visit_get.
  destruct (String.eqb_spec x k); subst; simpl.
  - destruct (get k m) as [e|]; simpl.
    + destruct (claimedAt e <? fiveMinutesAgo) eqn:E; simpl.
      * now rewrite andb_false_r.
      * now rewrite E, andb_false_r.
    + now rewrite andb_false_r.
  - reflexivity.
Qed.

(** The ledger after a sweep at [now]. *)
Lemma sweepClaimedCoins_get now st x :
  get x (claimedCoins (sweepClaimedCoins now st))
  = match get x (claimedCoins st) with
    | Some e => if claimedAt e <? now - 5 * 60 * 1000 then None else Some e
    | None => None
    end.
Proof.
  unfold sweepClaimedCoins. cbn [claimedCoins set_claimedCoins].
  rewrite sweep_fold_get.
  destruct (get x (claimedCoins st)) as [e|] eqn:He.
  - apply get_Some_key in He.
    replace (existsb (String.eqb x) (keys (claimedCoins st))) with true.
    + reflexivity.
    + symmetry. apply existsb_exists. exists x. split; [assumption|].
      apply String.eqb_refl.
  - now rewrite andb_false_r.
Qed.

(** An entry claimed at [c] is gone once the interval timer has fired
    after [c + claimTTL]. *)
Lemma sweeps_from_expires key c upto : forall fuel next st,
  (get key (claimedCoins st) = None
   \/ exists e, get key (claimedCoins st) = Some e /\ claimedAt e = c
                /\ next <= c + claimTTL + sweepInterval) ->
  c + claimTTL + sweepInterval <= upto ->
  upto < next + Z.of_nat fuel * sweepInterval ->
  get key (claimedCoins (sweeps_from fuel next upto st)) = None.
Proof.
  induction fuel as [|fuel IH]; intros next st Hinv Hupto Hfuel.
  - simpl. destruct Hinv as [Hn|[e [_ [_ Hle]]]]; [assumption|]. simpl in Hfuel. lia.
  - cbn [sweeps_from]. destruct (next <=? upto) eqn:Hdue.
    + apply IH; [|assumption|lia].
      rewrite sweepClaimedCoins_get.
      destruct Hinv as [Hn|[e [He [Hc Hle]]]].
      * left. now rewrite Hn.
      * rewrite He. destruct (claimedAt e <? next - 5 * 60 * 1000) eqn:Hold.
        -- now left.
        -- right. exists e. repeat split; auto.
           apply Z.ltb_ge in Hold. unfold claimTTL in *. lia.
    + apply Z.leb_gt in Hdue.
      destruct Hinv as [Hn|[e [_ [_ Hle]]]]; [assumption | lia].
Qed.

Lemma sweeps_from_idle upto : forall fuel next st,
  upto < next -> sweeps_from fuel next upto st = st.
Proof.
  intros [|fuel] next st Hlt; cbn [sweeps_from]; [reflexivity|].
  replace (next <=? upto) with false by (symmetry; apply Z.leb_gt; lia).
  reflexivity.
Qed.

Lemma sweeps_from_keeps key e upto : forall fuel next k st,
  get key (claimedCoins st) = Some e ->
  next + Z.of_nat k * sweepInterval <= claimedAt e + claimTTL ->
  upto < next + (Z.of_nat k + 1) * sweepInterval ->
  get key (claimedCoins (sweeps_from fuel next upto st)) = Some e.
Proof.
  induction fuel as [|fuel IH]; intros next k st He Hlast Hupto;
    cbn [sweeps_from]; [assumption|].
  destruct (next <=? upto) eqn:Hdue; [|assumption].
  assert (Hkept : get key (claimedCoins (sweepClaimedCoins next st)) = Some e).
  { rewrite sweepClaimedCoins_get, He.
    replace (claimedAt e <? next - 5 * 60 * 1000) with false; [reflexivity|].
    symmetry. apply Z.ltb_ge. unfold claimTTL, sweepInterval in *. lia. }
  destruct k as [|k].
  - rewrite sweeps_from_idle; [assumption|]. unfold sweepInterval in *. lia.
  - apply (IH _ k); [assumption | |]; unfold sweepInterval in *; lia.
Qed.

Lemma claim_truthy now t v sid st :
  truthy_value t = true -> truthy_value v = true -> truthy_value sid = true ->
  claim now t v sid st
  = set_claimedCoins
      (set (coinKey t v) (mkClaimedCoin t v sid now) (claimedCoins st)) st.
Proof.
  intros Ht Hv Hs. unfold claim, api_claim_coin.
  cbn [b_timestamp b_value b_sessionId]. now rewrite Ht, Hv, Hs.
Qed.

(** C7, as stated, fails: the lookup tests no age, and only a sweep
    deletes.  A coin is claimed at 1 s and the sweeps fire at 60 s, 120 s
    and so on; at 359.999 s more than five minutes have passed since the
    claim, the last sweep was the one at 300 s, which found the entry
    299 s old, and the lookup still gives the claiming session. *)
Lemma C7_counterexample :
  let claimed := claim 1000 (VNumber 7) (VNumber 10) (VString "S1")
                       (mkState init empty None) in
  1000 + claimTTL < 359999
  /\ option_map c_sessionId
                (lookup (VNumber 7) (VNumber 10) (sweeps_from 100 60000 359999 claimed))
     = Some (VString "S1").
Proof.
  cbv zeta. split; [unfold claimTTL; lia | vm_compute; reflexivity].
Qed.

(** C7, amended: a claim followed by the lookup of its key gives the
    claiming session; a later claim of the same key replaces it; the
    lookup keeps giving the session until a sweep of the interval timer
    runs more than five minutes after the claim, and that sweep deletes
    the entry; with the timer firing every 60 seconds the entry is gone
    at the latest six minutes after the claim. *)
Theorem C7_claim_lookup_ttl now t v sid st :
  truthy_value t = true -> truthy_value v = true -> truthy_value sid = true ->
  lookup t v (claim now t v sid st) = Some (mkClaimedCoin t v sid now)
  /\ (forall now' sid',
         truthy_value sid' = true ->
         lookup t v (claim now' t v sid' (claim now t v sid st))
         = Some (mkClaimedCoin t v sid' now'))
  /\ (forall at_, now + claimTTL < at_ ->
                  lookup t v (sweepClaimedCoins at_ (claim now t v sid st)) = None)
  /\ (forall at_, at_ <= now + claimTTL ->
                  lookup t v (sweepClaimedCoins at_ (claim now t v sid st))
                  = Some (mkClaimedCoin t v sid now))
  /\ (forall fuel next upto,
         next <= now + sweepInterval ->
         now + claimTTL + sweepInterval <= upto ->
         upto < next + Z.of_nat fuel * sweepInterval ->
         lookup t v (sweeps_from fuel next upto (claim now t v sid st)) = None)
  /\ (forall fuel next k upto,
         next + Z.of_nat k * sweepInterval <= now + claimTTL ->
         upto < next + (Z.of_nat k + 1) * sweepInterval ->
         lookup t v (sweeps_from fuel next upto (claim now t v sid st))
         = Some (mkClaimedCoin t v sid now)).
Proof.
  intros Ht Hv Hs.
  assert (Hl : lookup t v (claim now t v sid st) = Some (mkClaimedCoin t v sid now)).
  { rewrite claim_truthy by assumption. unfold lookup.
    cbn [claimedCoins set_claimedCoins]. apply get_set_same. }
  split; [exact Hl|]. split; [|split; [|split; [|split]]].
  - intros now' sid' Hs'. rewrite (claim_truthy now' t v sid') by assumption.
    unfold lookup. cbn [claimedCoins set_claimedCoins]. apply get_set_same.
  - intros at_ Hlate. unfold lookup in *. rewrite sweepClaimedCoins_get, Hl.
    cbn [claimedAt].
    replace (now <? at_ - 5 * 60 * 1000) with true; [reflexivity|].
    symmetry. apply Z.ltb_lt. unfold claimTTL in Hlate. lia.
  - intros at_ Hearly. unfold lookup in *. rewrite sweepClaimedCoins_get, Hl.
    cbn [claimedAt].
    replace (now <? at_ - 5 * 60 * 1000) with false; [reflexivity|].
    symmetry. apply Z.ltb_ge. unfold claimTTL in Hearly. lia.
  - intros fuel next upto Hnext Hupto Hfuel. unfold lookup in *.
    apply (sweeps_from_expires (coinKey t v) now upto); auto.
    right. eexists. split; [exact Hl|]. split; [reflexivity|].
    unfold claimTTL. lia.
  - intros fuel next k upto Hlast Hupto. unfold lookup in *.
    apply (sweeps_from_keeps _ _ upto fuel next k); assumption.
Qed.

Lemma C7_claim_lookup_ttl_witness :
  let st := mkState init empty None in
  let t := VNumber 1700000000000 in
  let claimed := claim 1700000001000 t (VNumber 10) (VString "S1") st in
  truthy_value t = true /\ truthy_value (VNumber 10) = true
  /\ truthy_value (VString "S1") = true
  /\ option_map c_sessionId (lookup t (VNumber 10) claimed) = Some (VString "S1")
  /\ lookup t (VNumber 10) (sweepClaimedCoins 1700000301001 claimed) = None
  /\ option_map c_sessionId
                (lookup t (VNumber 10)
                        (sweeps_from 10 1700000000500 1700000360499 claimed))
     = Some (VString "S1")
  /\ lookup t (VNumber 10) (sweeps_from 10 1700000000500 1700000361000 claimed) = None.
Proof.
  cbv zeta. split; [reflexivity|]. split; [reflexivity|]. split; [reflexivity|].
  destruct (C7_claim_lookup_ttl 1700000001000 (VNumber 1700000000000) (VNumber 10)
              (VString "S1") (mkState init empty None) eq_refl eq_refl eq_refl)
    as [H1 [_ [H3 [_ [H5 H6]]]]].
  split; [rewrite H1; reflexivity|].
  split; [apply H3; unfold claimTTL; lia|].
  split.
  - rewrite (H6 10%nat 1700000000500 5%nat 1700000360499);
      [reflexivity | |]; unfold claimTTL, sweepInterval; lia.
  - apply H5; unfold claimTTL, sweepInterval; lia.
Defined.



Section Print.
Variable printPipeline : PrintRequest -> bool.

(** C9: a print request that carries a file and no [sessionId] passes
    the gate in every state of the queue; its answer is the one of the
    print pipeline, never the 403, and the queue is left as it is.  The
    gate refuses only requests that carry a non-empty [sessionId]
    other than the active one. *)
Theorem C9_print_without_sessionId now req st f :
  file req = Some f -> p_sessionId req = None ->
  print_gate now req st = None
  /\ api_print printPipeline now req st
     = Some (st, if printPipeline req then PrintSent else PrintError)
  /\ (forall now' req' st' refusal,
         print_gate now' req' st' = Some refusal ->
         exists sessionId,
           p_sessionId req' = Some sessionId /\ sessionId <> ""
           /\ canProceedToPayment sessionId (queueManager st') = false).
Proof.
  intros Hf Hs. unfold api_print, print_gate, print_complete.
  rewrite Hf, Hs. split; [reflexivity|]. split.
  - now destruct (printPipeline req).
  - intros now' req' st' refusal.
    destruct (p_sessionId req') as [sid|]; [|discriminate].
    destruct (truthy (Some sid)) eqn:Ht; [|discriminate].
    destruct (canProceedToPayment sid (queueManager st')) eqn:Hc; [discriminate|].
    intros _. exists sid. repeat split; auto.
    simpl in Ht. intros ->. discriminate.
Qed.
End Print.

Lemma C9_print_without_sessionId_witness :
  let req := mkPrintRequest (Some "a.pdf") None [("startPage", "1"); ("endPage", "3")] in
  let q := fst (joinQueue 1000 "A" Scenarios.someFile init) in
  let st := mkState q empty None in
  file req = Some "a.pdf" /\ p_sessionId req = None
  /\ activeSession (queueManager st) = Some "A"
  /\ api_print (fun _ => true) 2000 req st = Some (st, PrintSent).
Proof.
  cbv zeta. split; [reflexivity|]. split; [reflexivity|]. split; [reflexivity|].
  apply (C9_print_without_sessionId (fun _ => true) 2000
           (mkPrintRequest (Some "a.pdf") None [("startPage", "1"); ("endPage", "3")])
           _ "a.pdf" eq_refl eq_refl).
Defined.

End ServerTheorems.

(* ------------------------------------------------------------------------- *)
(** ** More of the queue manager: what every reachable state satisfies *)
(* ------------------------------------------------------------------------- *)

Module QueueMoreFacts.
Import Js JsMap QueueManager QueueRuns QueueMore Scenarios.
Import JsMapFacts JsFacts QueueFacts QueueSteps QueueInvariants QueueTheorems.

(** *** Waiting sessions stand in the line *)

Lemma detach_WaitingQueued k st :
  WaitingQueued st -> WaitingQueued (removeSession_detach k st).
Proof.
  intros HQ x s. rewrite detach_get, detach_queue.
  destruct (String.eqb_spec x k); [discriminate|].
  intros Hs Hst. apply remove_first_keeps; [assumption|]. eapply HQ; eauto.
Qed.

Lemma sweep_WaitingQueued now ks st :
  WaitingQueued st -> WaitingQueued (sweep now ks st).
Proof.
  revert st. induction ks as [|k ks IH]; intros st HQ; simpl; [assumption|].
  apply IH. unfold sweep_step. destruct (expired now st k); [|assumption].
  now apply detach_WaitingQueued.
Qed.

Lemma promote_WaitingQueued now st :
  WF st -> WaitingQueued st -> WaitingQueued (fst (promote now st)).
Proof.
  intros HW HQ. unfold promote.
  destruct (queue st) as [|n rest] eqn:Hq; simpl.
  - intros k s Hs Hst. cbn [sessions queue set_activeSession] in *.
    rewrite Hq. specialize (HQ k s Hs Hst). now rewrite Hq in HQ.
  - destruct (get n (sessions st)) as [sn|] eqn:Hn; simpl.
    + intros k s. unfold activate.
      cbn [sessions queue set_sessions set_activeSession set_lastActivityTime
           setTimeout set_queue].
      destruct (String.eqb_spec k n); subst.
      * rewrite get_set_same. intros [= <-]. discriminate.
      * rewrite get_set_other by assumption. intros Hs Hst.
        specialize (HQ k s Hs Hst). rewrite Hq in HQ. simpl in HQ.
        destruct HQ; congruence.
    + intros k s Hs Hst. cbn [sessions queue set_queue] in *.
      specialize (HQ k s Hs Hst). rewrite Hq in HQ. simpl in HQ.
      destruct HQ; congruence.
Qed.

Lemma removeSession_wf_WaitingQueued now k processNext st :
  WF st -> WaitingQueued st -> WaitingQueued (removeSession_wf now k processNext st).
Proof.
  intros HW HQ. unfold removeSession_wf.
  destruct (strict_eq (activeSession st) k && processNext).
  - apply promote_WaitingQueued.
    + now apply sweep_WF, detach_WF.
    + now apply sweep_WaitingQueued, detach_WaitingQueued.
  - now apply detach_WaitingQueued.
Qed.

Lemma joined_WaitingQueued now k fi st :
  WaitingQueued st -> WaitingQueued (joined now k fi st).
Proof.
  intros HQ x s. unfold joined. destruct (truthy (activeSession st)).
  - cbn [sessions queue set_queue set_sessions].
    destruct (String.eqb_spec x k); subst.
    + intros _ _. apply in_or_app. right. simpl. auto.
    + rewrite get_set_other by assumption. intros Hs Hst.
      apply in_or_app. left. eapply HQ; eauto.
  - unfold activate.
    cbn [sessions queue set_sessions set_activeSession set_lastActivityTime
         setTimeout set_queue].
    destruct (String.eqb_spec x k); subst.
    + rewrite get_set_same. intros [= <-]. discriminate.
    + rewrite !get_set_other by assumption. apply HQ.
Qed.

Lemma run_op_WaitingQueued now op st st' :
  WF st -> WaitingQueued st -> admissible op = true ->
  run_op now op st = Some st' -> WaitingQueued st'.
Proof.
  intros HW HQ Hadm. destruct op as [k fi| |k|k|k pn|k|]; simpl in *.
  - intros [= <-].
    destruct (joinQueue_cases now k fi st HW) as [->|[Hhas [Hroom ->]]];
      [assumption | now apply joined_WaitingQueued].
  - rewrite processQueue_WF by assumption. intros [= <-].
    apply promote_WaitingQueued; [now apply sweep_WF | now apply sweep_WaitingQueued].
  - intros [= <-]. unfold updateActivity.
    destruct (strict_eq (activeSession st) k); assumption.
  - unfold completeSession.
    rewrite removeSession_WF_eq by now apply set_completedSessions_WF.
    intros [= <-].
    apply removeSession_wf_WaitingQueued; [now apply set_completedSessions_WF|].
    exact HQ.
  - rewrite removeSession_WF_eq by assumption. intros [= <-].
    now apply removeSession_wf_WaitingQueued.
  - destruct (checkSessionTimeout_cases now k st HW) as [->|[->|[d ->]]];
      intros [= <-]; auto.
    now apply removeSession_wf_WaitingQueued.
  - rewrite cleanupExpiredSessions_WF by assumption. intros [= <-].
    now apply sweep_WaitingQueued.
Qed.

Lemma run_WaitingQueued events : forall st0 st,
  WF st0 -> WaitingQueued st0 ->
  forallb (fun e => admissible (snd e)) events = true ->
  run events st0 = Some st -> WaitingQueued st.
Proof.
  induction events as [|[now op] events IH]; intros st0 st HW HQ Hall; simpl in *.
  - now intros [= <-].
  - apply andb_true_iff in Hall as [Hop Hall].
    destruct (run_op_WF now op st0 HW Hop) as [st1 [Hst1 HW1]].
    rewrite Hst1. apply IH; auto.
    exact (run_op_WaitingQueued now op st0 st1 HW HQ Hop Hst1).
Qed.

Lemma reaches_WaitingQueued events st :
  reaches admissible events st -> WaitingQueued st.
Proof.
  intros [Hall Hrun]. eapply run_WaitingQueued; eauto using init_WF.
  intros k s. discriminate.
Qed.

Lemma reaches_external_admissible events st :
  reaches external events st -> reaches admissible events st.
Proof.
  intros [Hall Hrun]. split; [|assumption].
  apply forallb_forall. intros e He.
  apply external_admissible. now apply (proj1 (forallb_forall _ _) Hall).
Qed.

(** X1.  The waiting line holds no id twice, never holds the id in the active
    slot, holds only sessions that exist with the status ['waiting'], and
    never more than ten. *)
Theorem waiting_line_invariant events st :
  reaches admissible events st ->
  NoDup (queue st)
  /\ (forall a, activeSession st = Some a -> ~ In a (queue st))
  /\ (forall k, In k (queue st) ->
                exists s, get k (sessions st) = Some s /\ status s = waiting)
  /\ (List.length (queue st) <= MAX_QUEUE_SIZE)%nat.
Proof.
  intros Hreach. pose proof (reaches_admissible_WF _ _ Hreach) as HW.
  split; [apply HW|]. split; [|split; apply HW].
  intros a. now apply WF_active_not_queued.
Qed.

Lemma waiting_line_invariant_witness :
  exists st,
    reaches admissible fullHouse st
    /\ NoDup (queue st)
    /\ (forall a, activeSession st = Some a -> ~ In a (queue st))
    /\ List.length (queue st) = 10%nat.
Proof.
  eexists. split; [split; reflexivity|].
  destruct (waiting_line_invariant fullHouse _ (conj eq_refl eq_refl)) as [H1 [H2 _]].
  split; [exact H1|]. split; [exact H2 | reflexivity].
Defined.

(** *** The status report *)

Lemma indexOf_from_nth b k q :
  In k q ->
  exists i, nth_error q i = Some k /\ indexOf_from b k q = b + Z.of_nat i.
Proof.
  revert b. induction q as [|y q IH]; intros b Hin; [destruct Hin|]. simpl.
  destruct (String.eqb_spec y k); subst.
  - exists 0%nat. split; [reflexivity | simpl; lia].
  - destruct Hin as [Heq|Hin]; [congruence|].
    destruct (IH (b + 1) Hin) as [i [Hi Hidx]].
    exists (S i). split; [exact Hi | rewrite Hidx; lia].
Qed.

(** X2.  In a state reached by the calls from outside, the status of a session
    the queue knows is never ['unknown']: the session holds the slot and
    the report is the active one, or it stands in the line and the report
    gives its place, counted from 1; a session the queue does not know is
    reported as not found. *)
Theorem status_is_active_or_waiting events st now k :
  reaches external events st ->
  (get k (sessions st) = None -> getQueueStatus now k st = statusNotFound)
  /\ (forall s, get k (sessions st) = Some s ->
        (activeSession st = Some k
         /\ getQueueStatus now k st
            = statusActive (Z.max 0 (sessionTimeout
                                     - (now - num_or (activatedAt s) now))))
        \/ (exists i, nth_error (queue st) i = Some k
                      /\ getQueueStatus now k st = statusWaiting (Z.of_nat i + 1))).
Proof.
  intros Hreach.
  pose proof (reaches_external_WF _ _ Hreach) as HW.
  pose proof (reaches_external_OneActive _ _ Hreach) as HO.
  pose proof (reaches_WaitingQueued _ _ (reaches_external_admissible _ _ Hreach)) as HQ.
  unfold getQueueStatus. split; [intros ->; reflexivity|].
  intros s Hs. rewrite Hs.
  destruct (strict_eq (activeSession st) k) eqn:E.
  - left. apply strict_eq_true in E. auto.
  - right. assert (Hw : status s = waiting).
    { destruct (status s) eqn:Hst; [reflexivity|].
      apply strict_eq_false in E. elim E. now apply (HO k s). }
    destruct (indexOf_from_nth 0 k (queue st) (HQ k s Hs Hw)) as [i [Hi Hidx]].
    exists i. split; [assumption|]. unfold indexOf. rewrite Hidx.
    replace (0 + Z.of_nat i + 1 >? 0) with true by (symmetry; apply Z.gtb_lt; lia).
    reflexivity.
Qed.

Lemma status_is_active_or_waiting_witness :
  let events := [(1000, OpJoinQueue "A" someFile); (2000, OpJoinQueue "B" someFile);
                 (3000, OpJoinQueue "C" someFile)] in
  exists st,
    reaches external events st
    /\ getQueueStatus 4000 "C" st = statusWaiting 2
    /\ getQueueStatus 4000 "Z" st = statusNotFound.
Proof.
  eexists. split; [split; reflexivity|].
  destruct (status_is_active_or_waiting
              [(1000, OpJoinQueue "A" someFile); (2000, OpJoinQueue "B" someFile);
               (3000, OpJoinQueue "C" someFile)] _ 4000 "Z"
              (conj eq_refl eq_refl)) as [Hnone _].
  split; [reflexivity | apply Hnone; reflexivity].
Defined.

(** X3.  The admission check and the status report agree: [canProceedToPayment]
    holds for a session exactly when its status says [canProceed: true]. *)
Theorem gate_agrees_with_status events st now k :
  reaches admissible events st ->
  canProceedToPayment k st = true
  <-> r_canProceed (getQueueStatus now k st) = Some true.
Proof.
  intros Hreach. pose proof (reaches_admissible_WF _ _ Hreach) as HW.
  unfold canProceedToPayment, getQueueStatus. split.
  - intros E. pose proof E as E'. apply strict_eq_true in E'.
    destruct (wf_active st HW k E') as [s [Hs _]]. now rewrite Hs, E.
  - destruct (get k (sessions st)); [|discriminate].
    destruct (strict_eq (activeSession st) k); [reflexivity|].
    destruct (indexOf k (queue st) + 1 >? 0); discriminate.
Qed.

Lemma gate_agrees_with_status_witness :
  let events := [(1000, OpJoinQueue "A" someFile); (2000, OpJoinQueue "B" someFile)] in
  exists st,
    reaches admissible events st
    /\ canProceedToPayment "A" st = true
    /\ r_canProceed (getQueueStatus 3000 "A" st) = Some true
    /\ canProceedToPayment "B" st = false.
Proof.
  eexists. split; [split; reflexivity|]. split; [reflexivity|].
  split; [|reflexivity].
  apply (gate_agrees_with_status
           [(1000, OpJoinQueue "A" someFile); (2000, OpJoinQueue "B" someFile)]
           _ 3000 "A" (conj eq_refl eq_refl)).
  reflexivity.
Defined.

(** *** A removed session is gone *)

Lemma removeSession_wf_absent now k processNext st :
  WF st -> get k (sessions (removeSession_wf now k processNext st)) = None.
Proof.
  intros HW. unfold removeSession_wf.
  assert (Hd : get k (sessions (removeSession_detach k st)) = None).
  { rewrite detach_get. now rewrite String.eqb_refl. }
  destruct (strict_eq (activeSession st) k && processNext); [|assumption].
  apply processQueue_wf_absent; [now apply detach_WF | assumption].
Qed.

(** X4.  After [removeSession] (a leave, a timeout or a completion) the session
    is not found, may not pay and stands nowhere in the line; a timeout
    check or a heartbeat that arrives for it later changes nothing. *)
Theorem removed_session_is_gone events st now k processNext :
  reaches admissible events st ->
  exists st',
    removeSession now k processNext st = Some st'
    /\ (forall now', getQueueStatus now' k st' = statusNotFound)
    /\ canProceedToPayment k st' = false
    /\ ~ In k (queue st')
    /\ (forall now', checkSessionTimeout now' k st' = Some st')
    /\ (forall now', updateActivity now' k st' = st').
Proof.
  intros Hreach. pose proof (reaches_admissible_WF _ _ Hreach) as HW.
  rewrite removeSession_WF_eq by assumption.
  set (st' := removeSession_wf now k processNext st).
  assert (HW' : WF st') by now apply removeSession_wf_WF.
  assert (Habs : get k (sessions st') = None) by now apply removeSession_wf_absent.
  assert (Hact : strict_eq (activeSession st') k = false).
  { apply strict_eq_false. intros Ha.
    destruct (wf_active st' HW' k Ha) as [s [Hs _]]. congruence. }
  exists st'. split; [reflexivity|]. split; [|split; [|split; [|split]]].
  - intros now'. unfold getQueueStatus. now rewrite Habs.
  - exact Hact.
  - intros Hin. destruct (wf_waiting st' HW' k Hin) as [s [Hs _]]. congruence.
  - intros now'. unfold checkSessionTimeout. now rewrite Hact.
  - intros now'. unfold updateActivity. now rewrite Hact.
Qed.

Lemma removed_session_is_gone_witness :
  let events := [(1000, OpJoinQueue "A" someFile); (2000, OpJoinQueue "B" someFile)] in
  exists st st',
    reaches admissible events st
    /\ removeSession 3000 "A" true st = Some st'
    /\ getQueueStatus 4000 "A" st' = statusNotFound
    /\ checkSessionTimeout 91000 "A" st' = Some st'.
Proof.
  eexists.
  destruct (removed_session_is_gone
              [(1000, OpJoinQueue "A" someFile); (2000, OpJoinQueue "B" someFile)]
              _ 3000 "A" true (conj eq_refl eq_refl))
    as [st' [H1 [H2 [_ [_ [H5 _]]]]]].
  exists st'. split; [split; reflexivity|]. split; [exact H1|].
  split; [apply H2 | apply H5].
Defined.

End QueueMoreFacts.

Module QueueBookkeeping.
Import Js JsMap QueueManager QueueRuns QueueMore Scenarios.
Import JsMapFacts JsFacts QueueFacts QueueSteps QueueInvariants QueueTheorems.
Import QueueMoreFacts.

(** *** The counter of completed sessions *)

Lemma detach_completedSessions k st :
  completedSessions (removeSession_detach k st) = completedSessions st.
Proof.
  unfold removeSession_detach.
  destruct (strict_eq (activeSession st) k); simpl;
    destruct (indexOf k (queue st) >? -1); reflexivity.
Qed.

Lemma sweep_completedSessions now ks st :
  completedSessions (sweep now ks st) = completedSessions st.
Proof.
  revert st. induction ks as [|k ks IH]; intros st; simpl; [reflexivity|].
  rewrite IH. unfold sweep_step. destruct (expired now st k); [|reflexivity].
  apply detach_completedSessions.
Qed.

Lemma promote_completedSessions now st :
  completedSessions (fst (promote now st)) = completedSessions st.
Proof.
  unfold promote. destruct (queue st); [reflexivity|].
  destruct (get _ (sessions st)); reflexivity.
Qed.

Lemma removeSession_wf_completedSessions now k processNext st :
  completedSessions (removeSession_wf now k processNext st) = completedSessions st.
Proof.
  unfold removeSession_wf, processQueue_wf.
  destruct (strict_eq (activeSession st) k && processNext).
  - now rewrite promote_completedSessions, sweep_completedSessions,
      detach_completedSessions.
  - apply detach_completedSessions.
Qed.

Lemma run_op_completedSessions now op st st' :
  WF st -> run_op now op st = Some st' ->
  completedSessions st'
  = completedSessions st + completions [(now, op)].
Proof.
  intros HW. unfold completions, is_completeSession.
  destruct op as [k fi| |k|k|k pn|k|]; cbn [run_op snd filter List.length Z.of_nat];
    rewrite ?Z.add_0_r.
  - intros [= <-].
    destruct (joinQueue_cases now k fi st HW) as [->|[Hhas [Hroom ->]]];
      [reflexivity|].
    unfold joined. now destruct (truthy (activeSession st)).
  - rewrite processQueue_WF by assumption. intros [= <-].
    unfold processQueue_wf.
    now rewrite promote_completedSessions, sweep_completedSessions.
  - intros [= <-]. unfold updateActivity.
    now destruct (strict_eq (activeSession st) k).
  - unfold completeSession.
    rewrite removeSession_WF_eq by now apply set_completedSessions_WF.
    intros [= <-]. rewrite removeSession_wf_completedSessions. simpl. lia.
  - rewrite removeSession_WF_eq by assumption. intros [= <-].
    apply removeSession_wf_completedSessions.
  - destruct (checkSessionTimeout_cases now k st HW) as [->|[->|[d ->]]];
      intros [= <-]; [reflexivity| |reflexivity].
    apply removeSession_wf_completedSessions.
  - rewrite cleanupExpiredSessions_WF by assumption. intros [= <-].
    apply sweep_completedSessions.
Qed.

Lemma completions_cons e events :
  completions (e :: events) = completions [e] + completions events.
Proof.
  unfold completions. cbn [filter].
  destruct (is_completeSession e); cbn [List.length]; lia.
Qed.

Lemma run_completedSessions events : forall st0 st,
  WF st0 -> forallb (fun e => admissible (snd e)) events = true ->
  run events st0 = Some st ->
  completedSessions st = completedSessions st0 + completions events.
Proof.
  induction events as [|[now op] events IH]; intros st0 st HW Hall; simpl in *.
  - intros [= <-]. unfold completions. simpl. lia.
  - apply andb_true_iff in Hall as [Hop Hall].
    destruct (run_op_WF now op st0 HW Hop) as [st1 [Hst1 HW1]].
    rewrite Hst1. intros Hrun.
    rewrite (IH st1 st HW1 Hall Hrun), completions_cons.
    rewrite (run_op_completedSessions now op st0 st1 HW Hst1). lia.
Qed.

(** X5.  [completedSessions] counts the calls of [completeSession], whatever
    session they name: active, waiting or unknown. *)
Theorem completedSessions_counts_calls events st :
  reaches admissible events st ->
  completedSessions st = completions events.
Proof.
  intros [Hall Hrun].
  now rewrite (run_completedSessions events init st init_WF Hall Hrun).
Qed.

Lemma completedSessions_counts_calls_witness :
  let events := [(1000, OpJoinQueue "A" someFile); (2000, OpJoinQueue "B" someFile);
                 (3000, OpCompleteSession "B"); (4000, OpCompleteSession "nobody")] in
  exists st,
    reaches admissible events st
    /\ completedSessions st = 2
    /\ activeSession st = Some "A".
Proof.
  eexists. split; [split; [reflexivity | vm_compute; reflexivity]|].
  split; [|reflexivity].
  apply (completedSessions_counts_calls
           [(1000, OpJoinQueue "A" someFile); (2000, OpJoinQueue "B" someFile);
            (3000, OpCompleteSession "B"); (4000, OpCompleteSession "nobody")]).
  split; [reflexivity | vm_compute; reflexivity].
Defined.

(** *** The number of sessions *)

Lemma sessions_count st :
  WF st -> OneActive st -> WaitingQueued st ->
  i_totalSessions (getQueueInfo st)
  = (i_queueLength (getQueueInfo st)
     + match i_activeSession (getQueueInfo st) with Some _ => 1 | None => 0 end)%nat
  /\ (i_totalSessions (getQueueInfo st) <= 11)%nat.
Proof.
  intros HW HO HQ.
  unfold getQueueInfo. cbn [i_totalSessions i_queueLength i_activeSession].
  set (line := match activeSession st with
               | Some a => a :: queue st
               | None => queue st
               end).
  assert (Hline : List.length line
                  = (List.length (queue st)
                     + match activeSession st with Some _ => 1 | None => 0 end)%nat).
  { unfold line. destruct (activeSession st); simpl; lia. }
  assert (Hnd : NoDup line).
  { unfold line. destruct (activeSession st) as [a|] eqn:Ha; [|apply HW].
    constructor; [now apply WF_active_not_queued | apply HW]. }
  assert (Hin1 : incl line (keys (sessions st))).
  { intros x Hx. unfold line in Hx.
    destruct (activeSession st) as [a|] eqn:Ha.
    - destruct Hx as [<-|Hx].
      + destruct (wf_active st HW a Ha) as [s [Hs _]]. eauto using get_Some_key.
      + destruct (wf_waiting st HW x Hx) as [s [Hs _]]. eauto using get_Some_key.
    - destruct (wf_waiting st HW x Hx) as [s [Hs _]]. eauto using get_Some_key. }
  assert (Hin2 : incl (keys (sessions st)) line).
  { intros x Hx. apply key_get_Some in Hx as [s Hs]. unfold line.
    destruct (status s) eqn:Hst.
    - pose proof (HQ x s Hs Hst). destruct (activeSession st); simpl; auto.
    - rewrite (HO x s Hs Hst). simpl. auto. }
  assert (Hlen : size (sessions st) = List.length line).
  { unfold size. rewrite <- (length_map fst (sessions st)). fold (keys (sessions st)).
    apply Nat.le_antisymm.
    - apply NoDup_incl_length; [apply HW | assumption].
    - apply NoDup_incl_length; assumption. }
  rewrite Hlen, Hline. split; [reflexivity|].
  pose proof (wf_cap st HW) as Hcap. unfold MAX_QUEUE_SIZE in Hcap.
  destruct (activeSession st); lia.
Qed.

(** X6.  The sessions the queue stores are the waiting ones and the active one:
    [totalSessions] is [queueLength], plus one when the slot is taken, and
    is never more than eleven. *)
Theorem totalSessions_is_waiting_plus_active events st :
  reaches external events st ->
  i_totalSessions (getQueueInfo st)
  = (i_queueLength (getQueueInfo st)
     + match i_activeSession (getQueueInfo st) with Some _ => 1 | None => 0 end)%nat
  /\ (i_totalSessions (getQueueInfo st) <= 11)%nat.
Proof.
  intros Hreach. apply sessions_count.
  - exact (reaches_external_WF _ _ Hreach).
  - exact (reaches_external_OneActive _ _ Hreach).
  - exact (reaches_WaitingQueued _ _ (reaches_external_admissible _ _ Hreach)).
Qed.

Lemma totalSessions_is_waiting_plus_active_witness :
  exists st,
    reaches external fullHouse st
    /\ i_totalSessions (getQueueInfo st) = 11%nat
    /\ i_queueLength (getQueueInfo st) = 10%nat.
Proof.
  eexists. split; [split; reflexivity|].
  destruct (totalSessions_is_waiting_plus_active fullHouse _ (conj eq_refl eq_refl))
    as [H _].
  split; [exact H | reflexivity].
Defined.

(** *** What a join answers *)

Lemma indexOf_from_snoc b k q :
  ~ In k q -> indexOf_from b k (q ++ [k]) = b + Z.of_nat (List.length q).
Proof.
  revert b. induction q as [|y q IH]; intros b Hnin; simpl.
  - rewrite String.eqb_refl. lia.
  - destruct (String.eqb_spec y k); [subst; simpl in Hnin; tauto|].
    rewrite IH by (simpl in Hnin; tauto). lia.
Qed.

(** X7.  A session the queue does not know, joining when the queue is not full:
    with the slot free it is active at once, with the full 90 seconds; with
    the slot taken it goes to the end of the line, and its position is the
    new length of the line. *)
Theorem join_outcome events st now k fi :
  reaches admissible events st ->
  has k (sessions st) = false ->
  (activeSession st = None ->
   snd (joinQueue now k fi st) = statusActive sessionTimeout
   /\ activeSession (fst (joinQueue now k fi st)) = Some k
   /\ queue (fst (joinQueue now k fi st)) = queue st)
  /\ (activeSession st <> None ->
      (List.length (queue st) < MAX_QUEUE_SIZE)%nat ->
      snd (joinQueue now k fi st)
      = statusWaiting (Z.of_nat (List.length (queue st)) + 1)
      /\ activeSession (fst (joinQueue now k fi st)) = activeSession st
      /\ queue (fst (joinQueue now k fi st)) = queue st ++ [k]).
Proof.
  intros Hreach Hhas. pose proof (reaches_admissible_WF _ _ Hreach) as HW.
  pose proof (WF_active_truthy st HW) as Htruthy.
  assert (Hnq : ~ In k (queue st)).
  { intros Hin. destruct (wf_waiting st HW k Hin) as [s [Hs _]].
    unfold has in Hhas. now rewrite Hs in Hhas. }
  split.
  - intros Hnone.
    assert (Ht : truthy (activeSession st) = false) by now rewrite Hnone.
    rewrite joinQueue_admitted; auto; [|now rewrite Ht, andb_false_r].
    unfold joined. rewrite Ht. cbn [fst snd].
    unfold getQueueStatus, activate.
    cbn [sessions queue activeSession set_sessions set_activeSession
         set_lastActivityTime setTimeout].
    rewrite get_set_same. cbn [strict_eq activatedAt num_or].
    rewrite String.eqb_refl. split; [|auto].
    f_equal. destruct (now =? 0); unfold sessionTimeout; lia.
  - intros Hsome Hlen.
    assert (Ht : truthy (activeSession st) = true) by now apply Htruthy.
    rewrite joinQueue_admitted; auto.
    2:{ apply andb_false_iff. left. now apply Nat.leb_gt. }
    unfold joined. rewrite Ht. cbn [fst snd]. split; [|auto].
    unfold getQueueStatus.
    cbn [sessions queue activeSession set_sessions set_queue].
    rewrite get_set_same.
    replace (strict_eq (activeSession st) k) with false.
    + unfold indexOf. rewrite indexOf_from_snoc by assumption.
      replace (0 + Z.of_nat (List.length (queue st)) + 1 >? 0) with true
        by (symmetry; apply Z.gtb_lt; lia).
      reflexivity.
    + symmetry. apply strict_eq_false. intros Ha.
      destruct (wf_active st HW k Ha) as [s [Hs _]].
      unfold has in Hhas. now rewrite Hs in Hhas.
Qed.

Lemma join_outcome_witness :
  let events := [(1000, OpJoinQueue "A" someFile); (2000, OpJoinQueue "B" someFile)] in
  exists st,
    reaches admissible events st
    /\ has "C" (sessions st) = false
    /\ activeSession st <> None
    /\ (List.length (queue st) < MAX_QUEUE_SIZE)%nat
    /\ snd (joinQueue 3000 "C" someFile st) = statusWaiting 2.
Proof.
  eexists. split; [split; reflexivity|]. split; [reflexivity|].
  split; [discriminate|]. split; [unfold MAX_QUEUE_SIZE; simpl; lia|].
  destruct (join_outcome
              [(1000, OpJoinQueue "A" someFile); (2000, OpJoinQueue "B" someFile)]
              _ 3000 "C" someFile (conj eq_refl eq_refl) eq_refl) as [_ H].
  apply H; [discriminate | unfold MAX_QUEUE_SIZE; simpl; lia].
Defined.

Lemma joined_has now k fi st : has k (sessions (joined now k fi st)) = true.
Proof.
  unfold joined, has. destruct (truthy (activeSession st)).
  - cbn [sessions set_queue set_sessions]. now rewrite get_set_same.
  - unfold activate.
    cbn [sessions set_sessions set_activeSession set_lastActivityTime setTimeout].
    now rewrite get_set_same.
Qed.

(** X8.  Joining again with an id the queue already admitted changes nothing,
    whatever file is named and whenever it happens, and at the same clock
    reading it repeats the answer of the first join. *)
Theorem rejoin_changes_nothing events st now k fi :
  reaches admissible events st ->
  snd (joinQueue now k fi st) <> statusQueueFull ->
  (forall now' fi',
      fst (joinQueue now' k fi' (fst (joinQueue now k fi st)))
      = fst (joinQueue now k fi st))
  /\ (forall fi',
         snd (joinQueue now k fi' (fst (joinQueue now k fi st)))
         = snd (joinQueue now k fi st)).
Proof.
  intros Hreach Hnotfull. pose proof (reaches_admissible_WF _ _ Hreach) as HW.
  destruct (has k (sessions st)) eqn:Hhas.
  - rewrite joinQueue_known by assumption. cbn [fst snd].
    split; intros; now rewrite joinQueue_known.
  - destruct ((MAX_QUEUE_SIZE <=? List.length (queue st))%nat
              && truthy (activeSession st)) eqn:Hfull.
    + rewrite joinQueue_full in Hnotfull by assumption. now elim Hnotfull.
    + rewrite joinQueue_admitted by assumption. cbn [fst snd].
      split; intros; now rewrite joinQueue_known by apply joined_has.
Qed.

Lemma rejoin_changes_nothing_witness :
  let events := [(1000, OpJoinQueue "A" someFile)] in
  exists st,
    reaches admissible events st
    /\ snd (joinQueue 2000 "B" someFile st) <> statusQueueFull
    /\ fst (joinQueue 9000 "B" (mkFileInfo "other.pdf" 1 0)
                      (fst (joinQueue 2000 "B" someFile st)))
       = fst (joinQueue 2000 "B" someFile st).
Proof.
  eexists. split; [split; reflexivity|]. split; [discriminate|].
  destruct (rejoin_changes_nothing [(1000, OpJoinQueue "A" someFile)] _ 2000 "B"
              someFile (conj eq_refl eq_refl)) as [H _]; [discriminate|].
  apply H.
Defined.

End QueueBookkeeping.

Module QueueTimers.
Import Js JsMap QueueManager QueueRuns QueueMore Scenarios.
Import JsMapFacts JsFacts QueueFacts QueueSteps QueueInvariants QueueTheorems.
Import QueueMoreFacts.

(** *** The record of the last activity *)

Lemma detach_ActivityTracked k st :
  ActivityTracked st -> ActivityTracked (removeSession_detach k st).
Proof.
  intros [H1 H2]. split.
  - intros x. rewrite detach_lastActivityTime, detach_activeSession, in_keys_delete.
    intros [Hne Hin]. rewrite (H1 x Hin). simpl.
    destruct (String.eqb_spec x k); congruence.
  - intros a. rewrite detach_lastActivityTime, detach_activeSession.
    destruct (strict_eq (activeSession st) k) eqn:E; [discriminate|].
    intros Ha. apply strict_eq_false in E.
    rewrite get_delete_other by congruence. now apply H2.
Qed.

Lemma sweep_ActivityTracked now ks st :
  ActivityTracked st -> ActivityTracked (sweep now ks st).
Proof.
  revert st. induction ks as [|k ks IH]; intros st HA; simpl; [assumption|].
  apply IH. unfold sweep_step. destruct (expired now st k); [|assumption].
  now apply detach_ActivityTracked.
Qed.

Lemma activate_ActivityTracked now n s st :
  ActivityTracked st -> activeSession st = None ->
  ActivityTracked (activate now n s st).
Proof.
  intros [H1 H2] Hnone. unfold activate. split;
    cbn [lastActivityTime activeSession set_sessions set_activeSession
         set_lastActivityTime setTimeout].
  - intros x. rewrite in_keys_set. intros [->|Hin]; [reflexivity|].
    specialize (H1 x Hin). congruence.
  - intros a [= <-]. rewrite get_set_same. eauto.
Qed.

Lemma promote_ActivityTracked now st :
  ActivityTracked st -> activeSession st = None ->
  ActivityTracked (fst (promote now st)).
Proof.
  intros HA Hnone. unfold promote.
  destruct (queue st) as [|n rest]; simpl.
  - destruct HA as [H1 H2]. split; cbn [lastActivityTime activeSession set_activeSession].
    + intros x Hin. specialize (H1 x Hin). congruence.
    + discriminate.
  - destruct (get n (sessions st)) as [s|]; simpl.
    + apply activate_ActivityTracked; assumption.
    + exact HA.
Qed.

Lemma removeSession_wf_ActivityTracked now k processNext st :
  WF st -> ActivityTracked st ->
  ActivityTracked (removeSession_wf now k processNext st).
Proof.
  intros HW HA. unfold removeSession_wf.
  destruct (strict_eq (activeSession st) k) eqn:E; simpl;
    [destruct processNext|]; try now apply detach_ActivityTracked.
  apply promote_ActivityTracked.
  - now apply sweep_ActivityTracked, detach_ActivityTracked.
  - rewrite sweep_activeSession by now apply detach_WF.
    now rewrite detach_activeSession, E.
Qed.

Lemma run_op_ActivityTracked now op st st' :
  WF st -> ActivityTracked st -> external op = true ->
  run_op now op st = Some st' -> ActivityTracked st'.
Proof.
  intros HW HA Hext. destruct op as [k fi| |k|k|k pn|k|]; simpl in *;
    try discriminate.
  - intros [= <-].
    destruct (joinQueue_cases now k fi st HW) as [->|[Hhas [Hroom ->]]];
      [assumption|].
    unfold joined. destruct (truthy (activeSession st)) eqn:Ht; [exact HA|].
    apply activate_ActivityTracked; [exact HA|].
    cbn [activeSession set_sessions].
    destruct (activeSession st) eqn:Ha; [|reflexivity].
    assert (Hsome : activeSession st <> None) by congruence.
    apply (WF_active_truthy st HW) in Hsome. congruence.
  - intros [= <-]. unfold updateActivity.
    destruct (strict_eq (activeSession st) k) eqn:E; [|assumption].
    apply strict_eq_true in E. destruct HA as [H1 H2]. split;
      cbn [lastActivityTime activeSession set_lastActivityTime].
    + intros x. rewrite in_keys_set. intros [->|Hin]; auto.
    + intros a Ha. destruct (String.eqb_spec a k); subst.
      * rewrite get_set_same. eauto.
      * rewrite get_set_other by assumption. auto.
  - unfold completeSession.
    rewrite removeSession_WF_eq by now apply set_completedSessions_WF.
    intros [= <-].
    apply removeSession_wf_ActivityTracked; [now apply set_completedSessions_WF|].
    exact HA.
  - rewrite removeSession_WF_eq by assumption. intros [= <-].
    now apply removeSession_wf_ActivityTracked.
  - destruct (checkSessionTimeout_cases now k st HW) as [->|[->|[d ->]]];
      intros [= <-]; auto.
    now apply removeSession_wf_ActivityTracked.
  - rewrite cleanupExpiredSessions_WF by assumption. intros [= <-].
    now apply sweep_ActivityTracked.
Qed.

Lemma run_ActivityTracked events : forall st0 st,
  WF st0 -> ActivityTracked st0 ->
  forallb (fun e => external (snd e)) events = true ->
  run events st0 = Some st -> ActivityTracked st.
Proof.
  induction events as [|[now op] events IH]; intros st0 st HW HA Hall; simpl in *.
  - now intros [= <-].
  - apply andb_true_iff in Hall as [Hop Hall].
    destruct (run_op_WF now op st0 HW (external_admissible op Hop)) as [st1 [Hst1 HW1]].
    rewrite Hst1. apply IH; auto.
    exact (run_op_ActivityTracked now op st0 st1 HW HA Hop Hst1).
Qed.

Lemma run_op_lastActivityTime_NoDup now op st st' :
  WF st -> NoDup (keys (lastActivityTime st)) ->
  run_op now op st = Some st' -> NoDup (keys (lastActivityTime st')).
Proof.
  intros HW Hnd.
  assert (Hsw : forall ks s, NoDup (keys (lastActivityTime s)) ->
                             NoDup (keys (lastActivityTime (sweep now ks s)))).
  { induction ks as [|k ks IHk]; intros s H; simpl; [assumption|].
    apply IHk. unfold sweep_step. destruct (expired now s k); [|assumption].
    rewrite detach_lastActivityTime. now apply NoDup_keys_delete. }
  assert (Hpr : forall s, NoDup (keys (lastActivityTime s)) ->
                          NoDup (keys (lastActivityTime (fst (promote now s))))).
  { intros s H. unfold promote. destruct (queue s); [assumption|].
    destruct (get _ (sessions s)); [|assumption].
    simpl. now apply NoDup_keys_set. }
  assert (Hrm : forall k pn s, NoDup (keys (lastActivityTime s)) ->
                  NoDup (keys (lastActivityTime (removeSession_wf now k pn s)))).
  { intros k pn s H. unfold removeSession_wf, processQueue_wf.
    assert (Hd : NoDup (keys (lastActivityTime (removeSession_detach k s)))).
    { rewrite detach_lastActivityTime. now apply NoDup_keys_delete. }
    destruct (strict_eq (activeSession s) k && pn); auto. }
  destruct op as [k fi| |k|k|k pn|k|]; simpl.
  - intros [= <-].
    destruct (joinQueue_cases now k fi st HW) as [->|[Hhas [Hroom ->]]];
      [assumption|].
    unfold joined. destruct (truthy (activeSession st)); [assumption|].
    simpl. now apply NoDup_keys_set.
  - rewrite processQueue_WF by assumption. intros [= <-].
    unfold processQueue_wf. auto.
  - intros [= <-]. unfold updateActivity.
    destruct (strict_eq (activeSession st) k); [|assumption].
    simpl. now apply NoDup_keys_set.
  - unfold completeSession.
    rewrite removeSession_WF_eq by now apply set_completedSessions_WF.
    intros [= <-]. now apply Hrm.
  - rewrite removeSession_WF_eq by assumption. intros [= <-]. now apply Hrm.
  - destruct (checkSessionTimeout_cases now k st HW) as [->|[->|[d ->]]];
      intros [= <-]; auto.
  - rewrite cleanupExpiredSessions_WF by assumption. intros [= <-].
    now apply Hsw.
Qed.

Lemma run_lastActivityTime_NoDup events : forall st0 st,
  WF st0 -> NoDup (keys (lastActivityTime st0)) ->
  forallb (fun e => admissible (snd e)) events = true ->
  run events st0 = Some st -> NoDup (keys (lastActivityTime st)).
Proof.
  induction events as [|[now op] events IH]; intros st0 st HW Hnd Hall; simpl in *.
  - now intros [= <-].
  - apply andb_true_iff in Hall as [Hop Hall].
    destruct (run_op_WF now op st0 HW Hop) as [st1 [Hst1 HW1]].
    rewrite Hst1. apply IH; auto.
    exact (run_op_lastActivityTime_NoDup now op st0 st1 HW Hnd Hst1).
Qed.

(** X9.  [lastActivityTime] holds an entry for the session in the slot and for
    no other session: entries do not pile up, and a timeout check of the
    active session always finds a recorded activity. *)
Theorem lastActivityTime_tracks_the_slot events st :
  reaches external events st ->
  (forall k t, get k (lastActivityTime st) = Some t -> activeSession st = Some k)
  /\ (forall a, activeSession st = Some a ->
                exists t, get a (lastActivityTime st) = Some t)
  /\ (List.length (lastActivityTime st) <= 1)%nat.
Proof.
  intros Hreach. pose proof Hreach as [Hall Hrun].
  assert (HA : ActivityTracked st).
  { eapply run_ActivityTracked; eauto using init_WF.
    split; [intros k [] | discriminate]. }
  assert (Hnd : NoDup (keys (lastActivityTime st))).
  { destruct (reaches_external_admissible _ _ Hreach) as [Hall' _].
    eapply run_lastActivityTime_NoDup; eauto using init_WF. constructor. }
  destruct HA as [H1 H2]. split; [|split; [exact H2|]].
  - intros k t Hk. apply H1. eauto using get_Some_key.
  - destruct (lastActivityTime st) as [|[k1 t1] [|[k2 t2] rest]] eqn:HL;
      simpl; try lia.
    exfalso.
    assert (E1 : activeSession st = Some k1) by (apply H1; simpl; auto).
    assert (E2 : activeSession st = Some k2) by (apply H1; simpl; auto).
    assert (k1 = k2) by congruence. subst k2.
    simpl in Hnd. inversion Hnd; subst. simpl in *. tauto.
Qed.

Lemma lastActivityTime_tracks_the_slot_witness :
  let events := [(1000, OpJoinQueue "A" someFile); (2000, OpJoinQueue "B" someFile);
                 (3000, OpUpdateActivity "B"); (4000, OpCompleteSession "A")] in
  exists st,
    reaches external events st
    /\ activeSession st = Some "B"
    /\ (forall k t, get k (lastActivityTime st) = Some t -> activeSession st = Some k)
    /\ get "B" (lastActivityTime st) = Some 4000.
Proof.
  eexists. split; [split; [reflexivity | vm_compute; reflexivity]|].
  split; [reflexivity|]. split; [|reflexivity].
  apply (lastActivityTime_tracks_the_slot
           [(1000, OpJoinQueue "A" someFile); (2000, OpJoinQueue "B" someFile);
            (3000, OpUpdateActivity "B"); (4000, OpCompleteSession "A")]).
  split; [reflexivity | vm_compute; reflexivity].
Defined.

(** *** The pending timeout check *)

Lemma detach_Watched k st : Watched st -> Watched (removeSession_detach k st).
Proof.
  intros HWt a. rewrite detach_activeSession, detach_pending.
  destruct (strict_eq (activeSession st) k); [discriminate | apply HWt].
Qed.

Lemma sweep_Watched now ks st : Watched st -> Watched (sweep now ks st).
Proof.
  revert st. induction ks as [|k ks IH]; intros st HWt; simpl; [assumption|].
  apply IH. unfold sweep_step. destruct (expired now st k); [|assumption].
  now apply detach_Watched.
Qed.

Lemma activate_Watched now n s st : Watched (activate now n s st).
Proof.
  intros a. unfold activate.
  cbn [pending activeSession set_sessions set_activeSession set_lastActivityTime
       setTimeout].
  intros [= <-]. exists (mkTimer now sessionTimeout n). split; [|reflexivity].
  apply in_or_app. right. simpl. auto.
Qed.

Lemma promote_Watched now st : Watched st -> Watched (fst (promote now st)).
Proof.
  intros HWt. unfold promote. destruct (queue st) as [|n rest]; simpl.
  - intros a. discriminate.
  - destruct (get n (sessions st)); simpl; [apply activate_Watched | exact HWt].
Qed.

Lemma removeSession_wf_Watched now k processNext st :
  Watched st -> Watched (removeSession_wf now k processNext st).
Proof.
  intros HWt. unfold removeSession_wf, processQueue_wf.
  destruct (strict_eq (activeSession st) k && processNext).
  - now apply promote_Watched, sweep_Watched, detach_Watched.
  - now apply detach_Watched.
Qed.

Lemma setTimeout_Watched now d k st : Watched st -> Watched (setTimeout now d k st).
Proof.
  intros HWt a Ha. destruct (HWt a Ha) as [t [Hin Ht]].
  exists t. split; [|assumption]. simpl. apply in_or_app. auto.
Qed.

Lemma run_op_Watched now op st st' :
  WF st -> Watched st -> admissible op = true ->
  run_op now op st = Some st' -> Watched st'.
Proof.
  intros HW HWt Hadm. destruct op as [k fi| |k|k|k pn|k|]; simpl in *.
  - intros [= <-].
    destruct (joinQueue_cases now k fi st HW) as [->|[Hhas [Hroom ->]]];
      [assumption|].
    unfold joined. destruct (truthy (activeSession st)); [exact HWt|].
    apply activate_Watched.
  - rewrite processQueue_WF by assumption. intros [= <-].
    now apply promote_Watched, sweep_Watched.
  - intros [= <-]. unfold updateActivity.
    destruct (strict_eq (activeSession st) k); exact HWt.
  - unfold completeSession.
    rewrite removeSession_WF_eq by now apply set_completedSessions_WF.
    intros [= <-]. apply removeSession_wf_Watched. exact HWt.
  - rewrite removeSession_WF_eq by assumption. intros [= <-].
    now apply removeSession_wf_Watched.
  - destruct (checkSessionTimeout_cases now k st HW) as [->|[->|[d ->]]];
      intros [= <-]; auto.
    + now apply removeSession_wf_Watched.
    + now apply setTimeout_Watched.
  - rewrite cleanupExpiredSessions_WF by assumption. intros [= <-].
    now apply sweep_Watched.
Qed.

Lemma set_pending_WF p st : WF st -> WF (EventLoop.set_pending p st).
Proof. intros HW. constructor; apply HW. Qed.

Lemma unregister_keeps t x ts :
  In x ts -> target x <> target t -> In x (EventLoop.unregister t ts).
Proof.
  intros Hin Hne. induction ts as [|y ts IH]; simpl; [destruct Hin|].
  destruct (EventLoop.Timer_eqb t y) eqn:E.
  - destruct Hin as [->|Hin]; [|assumption].
    exfalso. apply Hne. unfold EventLoop.Timer_eqb in E.
    apply andb_true_iff in E as [_ E]. apply String.eqb_eq in E. congruence.
  - destruct Hin as [->|Hin]; simpl; auto.
Qed.

Lemma fire_WF t st : WF st -> exists st', fire t st = Some st' /\ WF st'.
Proof.
  intros HW. unfold fire.
  apply (run_op_WF (due t) (OpCheckSessionTimeout (target t))); [|reflexivity].
  now apply set_pending_WF.
Qed.

Lemma fire_Watched t st st' :
  WF st -> Watched st -> fire t st = Some st' -> Watched st'.
Proof.
  intros HW HWt. unfold fire.
  set (st0 := EventLoop.set_pending (EventLoop.unregister t (pending st)) st).
  assert (HW0 : WF st0) by now apply set_pending_WF.
  unfold checkSessionTimeout.
  rewrite (removeSession_WF_eq (due t) (target t) true st0 HW0).
  change (activeSession st0) with (activeSession st).
  generalize (sessionTimeout
              - (due t - num_or (get (target t) (lastActivityTime st0)) 0)).
  intros d.
  destruct (strict_eq (activeSession st) (target t)) eqn:E; cbn [negb].
  - destruct (due t - num_or (get (target t) (lastActivityTime st0)) 0
              >=? sessionTimeout); intros [= <-].
    + unfold removeSession_wf, processQueue_wf.
      change (activeSession st0) with (activeSession st). rewrite E. cbn [andb].
      apply promote_Watched, sweep_Watched.
      intros a. rewrite detach_activeSession.
      change (activeSession st0) with (activeSession st). now rewrite E.
    + intros a Ha. cbn [activeSession setTimeout] in Ha.
      change (activeSession st0) with (activeSession st) in Ha.
      apply strict_eq_true in E. assert (a = target t) by congruence. subst a.
      exists (mkTimer (due t) d (target t)). split; [|reflexivity].
      cbn [pending setTimeout]. apply in_or_app. right. simpl. auto.
  - intros [= <-]. intros a Ha.
    change (activeSession st0) with (activeSession st) in Ha.
    destruct (HWt a Ha) as [x [Hin Hx]]. exists x. split; [|assumption].
    unfold st0. cbn [pending EventLoop.set_pending].
    apply unregister_keeps; [assumption|].
    apply strict_eq_false in E. congruence.
Qed.

Lemma turns_Watched es : forall st0,
  WF st0 -> Watched st0 -> forallb admissible_turn es = true ->
  exists st, turns es st0 = Some st /\ WF st /\ Watched st.
Proof.
  induction es as [|e es IH]; intros st0 HW HWt Hall; simpl in *; [eauto|].
  apply andb_true_iff in Hall as [He Hall].
  assert (Hstep : exists st1, turn e st0 = Some st1 /\ WF st1 /\ Watched st1).
  { destruct e as [now op|t]; simpl in *.
    - destruct (run_op_WF now op st0 HW He) as [st1 [Hst1 HW1]].
      exists st1. split; [assumption|]. split; [assumption|].
      exact (run_op_Watched now op st0 st1 HW HWt He Hst1).
    - destruct (existsb (EventLoop.Timer_eqb t) (pending st0)); [|eauto].
      destruct (fire_WF t st0 HW) as [st1 [Hst1 HW1]].
      exists st1. split; [assumption|]. split; [assumption|].
      exact (fire_Watched t st0 st1 HW HWt Hst1). }
  destruct Hstep as [st1 [-> [HW1 HWt1]]]. now apply IH.
Qed.

(** X10.  Whatever calls arrive and whichever pending timers fire (a timer that
    fires leaves the pending ones), every turn returns and the session in
    the slot still has a timeout check pending: the slot cannot be held
    without a timer that will look at it. *)
Theorem active_session_is_watched es :
  forallb admissible_turn es = true ->
  exists st,
    turns es init = Some st
    /\ forall a, activeSession st = Some a ->
                 exists t, In t (pending st) /\ target t = a.
Proof.
  intros Hall.
  destruct (turns_Watched es init init_WF) as [st [Hst [_ HWt]]];
    [intros a; discriminate | assumption | eauto].
Qed.

Lemma active_session_is_watched_witness :
  let es := [Call 1000 (OpJoinQueue "A" someFile);
             Call 2000 (OpJoinQueue "B" someFile);
             Call 50000 (OpUpdateActivity "A");
             Fire (mkTimer 1000 90000 "A");
             Fire (mkTimer 91000 49000 "A")] in
  forallb admissible_turn es = true
  /\ exists st,
       turns es init = Some st
       /\ activeSession st = Some "B"
       /\ pending st = [mkTimer 140000 90000 "B"].
Proof.
  split; [reflexivity|].
  destruct (active_session_is_watched
              [Call 1000 (OpJoinQueue "A" someFile);
               Call 2000 (OpJoinQueue "B" someFile);
               Call 50000 (OpUpdateActivity "A");
               Fire (mkTimer 1000 90000 "A");
               Fire (mkTimer 91000 49000 "A")] eq_refl) as [st [Hst _]].
  exists st. split; [exact Hst|].
  vm_compute in Hst. injection Hst as <-. split; reflexivity.
Defined.

End QueueTimers.

(* ------------------------------------------------------------------------- *)
(** ** The queue behind the routes of the server *)
(* ------------------------------------------------------------------------- *)

Module RouteFacts.
Import Js JsMap QueueManager QueueRuns QueueMore Server Routes.
Import JsMapFacts JsFacts QueueFacts QueueSteps QueueInvariants QueueTheorems.
Import QueueMoreFacts QueueBookkeeping QueueTimers.

Lemma init_Sound : Sound init.
Proof.
  split.
  - exact init_WF.
  - intros k s H. discriminate.
  - intros _. reflexivity.
  - intros k s H. discriminate.
Qed.

Lemma run_op_Sound now op q :
  Sound q -> served op = true ->
  exists q', run_op now op q = Some q' /\ Sound q'.
Proof.
  intros [HW HO HI HL] Hop.
  pose proof (served_external op Hop) as Hext.
  pose proof (external_admissible op Hext) as Hadm.
  destruct (run_op_WF now op q HW Hadm) as [q' [Hq' HW']].
  exists q'. split; [assumption|]. split.
  - assumption.
  - exact (run_op_OneActive now op q q' HW HO Hext Hq').
  - exact (run_op_NoIdleSlot now op q q' HW HI Hop Hq').
  - exact (run_op_WaitingQueued now op q q' HW HL Hadm Hq').
Qed.

Lemma set_pending_Sound p q : Sound q -> Sound (EventLoop.set_pending p q).
Proof.
  intros [HW HO HI HL]. split.
  - now apply set_pending_WF.
  - exact HO.
  - exact HI.
  - exact HL.
Qed.

Lemma turn_Fire_Sound t q :
  Sound q -> exists q', turn (Fire t) q = Some q' /\ Sound q'.
Proof.
  intros HS. cbn [turn].
  destruct (existsb (EventLoop.Timer_eqb t) (pending q)); [|eauto].
  unfold fire.
  apply (run_op_Sound (due t) (OpCheckSessionTimeout (target t)));
    [|reflexivity].
  now apply set_pending_Sound.
Qed.

Lemma set_queueManager_same st : set_queueManager (queueManager st) st = st.
Proof. now destruct st. Qed.

Lemma truthy_Some_ne sid : sid <> "" -> truthy (Some sid) = true.
Proof.
  intros Hne. unfold truthy. destruct (String.eqb_spec sid ""); [contradiction|reflexivity].
Qed.

Lemma print_complete_Sound now req st :
  Sound (queueManager st) ->
  exists st', print_complete now req st = Some st' /\ Sound (queueManager st').
Proof.
  intros HS. unfold print_complete.
  destruct (p_sessionId req) as [sid|]; [|now (eexists; split; [reflexivity | exact HS])].
  destruct (truthy (Some sid)); [|now (eexists; split; [reflexivity | exact HS])].
  destruct (run_op_Sound now (OpCompleteSession sid) (queueManager st) HS eq_refl)
    as [q' [Hq' HS']].
  cbn [run_op] in Hq'. rewrite Hq'. cbn [option_map].
  eexists. split; [reflexivity|]. exact HS'.
Qed.

Lemma serve_Sound r s :
  Sound (queueManager (server s)) ->
  exists s', serve r s = Some s'
             /\ Sound (queueManager (server s')).
Proof.
  intros HS.
  destruct r as [now body|now sid| |now sid|now sid|now req|now n ok|now body|t];
    cbn [serve].
  - eexists. split; [reflexivity|]. cbn [server]. unfold api_queue_join.
    destruct (j_sessionId body) as [sid|]; [|exact HS].
    destruct (truthy (Some sid)) eqn:Ht; [|exact HS].
    set (fi := mkFileInfo _ _ _).
    destruct (run_op_Sound now (OpJoinQueue sid fi) (queueManager (server s)) HS Ht)
      as [q' [Hq' HS']].
    cbn [run_op] in Hq'. injection Hq' as Hq'.
    destruct (joinQueue now sid fi (queueManager (server s))) as [q status].
    cbn [fst] in *. subst q'. exact HS'.
  - eexists. split; [reflexivity | exact HS].
  - eexists. split; [reflexivity | exact HS].
  - eexists. split; [reflexivity|]. cbn [server]. unfold api_queue_heartbeat.
    destruct sid as [sid|]; [|exact HS].
    destruct (truthy (Some sid)); [|exact HS].
    destruct (run_op_Sound now (OpUpdateActivity sid) (queueManager (server s))
                HS eq_refl) as [q' [Hq' HS']].
    cbn [run_op] in Hq'. injection Hq' as Hq'. cbn [fst queueManager set_queueManager].
    now rewrite Hq'.
  - unfold api_queue_leave.
    destruct sid as [sid|]; [|now (eexists; split; [reflexivity | exact HS])].
    destruct (truthy (Some sid)); [|now (eexists; split; [reflexivity | exact HS])].
    destruct (run_op_Sound now (OpRemoveSession sid true) (queueManager (server s))
                HS eq_refl) as [q' [Hq' HS']].
    cbn [run_op] in Hq'. rewrite Hq'. cbn [option_map fst].
    eexists. split; [reflexivity|]. exact HS'.
  - destruct (print_arrives now req (server s));
      eexists; (split; [reflexivity | exact HS]).
  - destruct (nth_error (printing s) n) as [req|];
      [|now (eexists; split; [reflexivity | exact HS])].
    unfold print_finishes.
    destruct ok; [|now (eexists; split; [reflexivity | exact HS])].
    destruct (print_complete_Sound now req (server s) HS) as [st' [Hst' HS']].
    rewrite Hst'. cbn [option_map fst].
    eexists. split; [reflexivity|]. exact HS'.
  - eexists. split; [reflexivity|]. cbn [server]. unfold api_claim_coin.
    destruct (_ || _); exact HS.
  - destruct (turn_Fire_Sound t (queueManager (server s)) HS) as [q' [Hq' HS']].
    rewrite Hq'. cbn [option_map]. eexists. split; [reflexivity|]. exact HS'.
Qed.

Lemma serveAll_Sound rs : forall s,
  Sound (queueManager (server s)) ->
  exists s', serveAll rs s = Some s'
             /\ Sound (queueManager (server s')).
Proof.
  induction rs as [|r rs IH]; intros s HS; cbn [serveAll]; [eauto|].
  destruct (serve_Sound r s HS) as [s1 [-> HS1]]. now apply IH.
Qed.

(** X11.  Whatever requests arrive, whenever the prints under way finish and
    whichever timers fire in between, every turn of the server returns,
    and behind the routes at most one session is active, nobody waits
    behind a free slot, and no more than eleven sessions are stored. *)
Theorem server_keeps_the_queue_sound rs :
  exists s,
    serveAll rs startedServing = Some s
    /\ (activeCount (queueManager (server s)) <= 1)%nat
    /\ (activeSession (queueManager (server s)) = None ->
        queue (queueManager (server s)) = [])
    /\ (i_totalSessions (getQueueInfo (queueManager (server s))) <= 11)%nat.
Proof.
  destruct (serveAll_Sound rs startedServing init_Sound) as [s [Hs [HW HO HI HL]]].
  exists s. split; [assumption|]. split; [|split].
  - now apply OneActive_count.
  - exact HI.
  - now apply sessions_count.
Qed.

(** X12.  A print request with a session id is checked when it arrives: the
    session in the slot goes on, any other is refused with its status.
    When the print finishes, in whatever state the server then is, a
    failure changes nothing and a success completes the session: the
    counter of completed sessions grows by one and the session is not
    found afterwards.  If it still holds the slot, the first session of
    the line that has not waited too long takes the slot; if it lost the
    slot while the print ran, the holder of the slot stays and the line
    only loses that session. *)
Theorem print_completes_the_session rs s now req f sid :
  serveAll rs startedServing = Some s ->
  file req = Some f -> p_sessionId req = Some sid -> sid <> "" ->
  let st := server s in
  let q := queueManager st in
  (canProceedToPayment sid q = false ->
   print_arrives now req st = Some (PrintNotYourTurn (getQueueStatus now sid q)))
  /\ (canProceedToPayment sid q = true -> print_arrives now req st = None)
  /\ print_finishes false now req st = Some (st, PrintError)
  /\ (exists st',
        print_finishes true now req st = Some (st', PrintSent)
        /\ getQueueStatus now sid (queueManager st') = statusNotFound
        /\ completedSessions (queueManager st') = completedSessions q + 1
        /\ claimedCoins st' = claimedCoins st
        /\ (canProceedToPayment sid q = true ->
            activeSession (queueManager st') = hd_error (live now q)
            /\ queue (queueManager st') = tl (live now q))
        /\ (canProceedToPayment sid q = false ->
            activeSession (queueManager st') = activeSession q
            /\ queue (queueManager st') = remove_first sid (queue q))).
Proof.
  intros Hrun Hf Hsid Hne st q.
  destruct (serveAll_Sound rs startedServing init_Sound) as [s0 [Hs0 [HW HO HI HL]]].
  rewrite Hrun in Hs0. injection Hs0 as <-. fold st in HW. fold q in HW.
  pose proof (truthy_Some_ne sid Hne) as Ht.
  unfold print_arrives, print_finishes, print_gate, print_complete.
  rewrite Hf, Hsid, Ht. fold q.
  split; [|split; [|split]].
  - intros Hc. now rewrite Hc.
  - intros Hc. now rewrite Hc.
  - reflexivity.
  - unfold completeSession.
    set (qc := set_completedSessions (completedSessions q + 1) q).
    assert (HWc : WF qc) by now apply set_completedSessions_WF.
    rewrite (removeSession_WF_eq now sid true qc HWc).
    cbn [option_map]. eexists. split; [reflexivity|].
    cbn [queueManager set_queueManager claimedCoins].
    split; [|split; [|split; [|split]]].
    + unfold getQueueStatus.
      now rewrite (removeSession_wf_absent now sid true qc HWc).
    + now rewrite removeSession_wf_completedSessions.
    + reflexivity.
    + unfold canProceedToPayment. intros Hc.
      assert (Ha : activeSession qc = Some sid) by (apply strict_eq_true; exact Hc).
      unfold removeSession_wf.
      change (activeSession qc) with (activeSession q). rewrite Hc. cbn [andb].
      change (live now q) with (live now qc).
      rewrite <- (live_detach_active now sid qc HWc Ha).
      destruct (processQueue_wf_queue now (removeSession_detach sid qc)
                  (detach_WF sid qc HWc)) as [[Hl [Hq Hact]]|[n [Hl Hact]]];
        rewrite Hl, Hact; [rewrite Hq|]; split; reflexivity.
    + unfold canProceedToPayment. intros Hc.
      unfold removeSession_wf.
      change (activeSession qc) with (activeSession q). rewrite Hc. cbn [andb].
      rewrite detach_activeSession, detach_queue.
      change (activeSession qc) with (activeSession q). rewrite Hc.
      split; reflexivity.
Qed.

Lemma server_keeps_the_queue_sound_witness :
  exists s,
    serveAll [ReqJoin 1000 (mkJoinBody (Some "A") None None);
              ReqJoin 2000 (mkJoinBody (Some "B") None None);
              PrintArrives 3000 (mkPrintRequest (Some "a.pdf") (Some "A") []);
              ReqLeave 4000 (Some "A");
              PrintFinishes 5000 0 true;
              TimerFires (mkTimer 1000 90000 "A")] startedServing = Some s
    /\ activeSession (queueManager (server s)) = Some "B"
    /\ printing s = []
    /\ (activeCount (queueManager (server s)) <= 1)%nat.
Proof.
  destruct (server_keeps_the_queue_sound
              [ReqJoin 1000 (mkJoinBody (Some "A") None None);
               ReqJoin 2000 (mkJoinBody (Some "B") None None);
               PrintArrives 3000 (mkPrintRequest (Some "a.pdf") (Some "A") []);
               ReqLeave 4000 (Some "A");
               PrintFinishes 5000 0 true;
               TimerFires (mkTimer 1000 90000 "A")]) as [s [H1 [H2 _]]].
  exists s. split; [exact H1|].
  split; [|split; [|exact H2]];
    vm_compute in H1; injection H1 as <-; reflexivity.
Defined.

Lemma print_completes_the_session_witness :
  let rs := [ReqJoin 1000 (mkJoinBody (Some "A") (Some "a.pdf") (Some 3));
             ReqJoin 2000 (mkJoinBody (Some "B") None None);
             PrintArrives 30000 (mkPrintRequest (Some "a.pdf") (Some "A") []);
             TimerFires (mkTimer 1000 90000 "A")] in
  let req := mkPrintRequest (Some "a.pdf") (Some "A") [] in
  exists s st',
    serveAll rs startedServing = Some s
    /\ printing s = [req]
    /\ activeSession (queueManager (server s)) = Some "B"
    /\ print_finishes true 95000 req (server s) = Some (st', PrintSent)
    /\ activeSession (queueManager st') = Some "B"
    /\ completedSessions (queueManager st') = 1.
Proof.
  cbv zeta. eexists.
  destruct (print_completes_the_session
              [ReqJoin 1000 (mkJoinBody (Some "A") (Some "a.pdf") (Some 3));
               ReqJoin 2000 (mkJoinBody (Some "B") None None);
               PrintArrives 30000 (mkPrintRequest (Some "a.pdf") (Some "A") []);
               TimerFires (mkTimer 1000 90000 "A")]
              _ 95000 (mkPrintRequest (Some "a.pdf") (Some "A") []) "a.pdf" "A"
              ltac:(vm_compute; reflexivity) eq_refl eq_refl ltac:(discriminate))
    as [_ [_ [_ H]]].
  destruct H as [st' [H1 [_ [H2 [_ [_ H3]]]]]].
  exists st'. split; [vm_compute; reflexivity|].
  split; [reflexivity|]. split; [reflexivity|]. split; [exact H1|].
  split; [exact (proj1 (H3 eq_refl)) | exact H2].
Defined.

(** *** The answers of the queue routes *)





(** X14.  A heartbeat of the session in the slot at [now] keeps it there for the
    next 90 seconds: a timeout check earlier than that only re-arms
    itself for the rest of the time.  A heartbeat of any other session
    changes nothing. *)
Theorem heartbeat_extends_the_turn now sid st :
  sid <> "" ->
  (canProceedToPayment sid (queueManager st) = true ->
   forall now', now' - now < sessionTimeout ->
     checkSessionTimeout now' sid
       (queueManager (fst (api_queue_heartbeat now (Some sid) st)))
     = Some (setTimeout now' (sessionTimeout - (now' - now)) sid
               (queueManager (fst (api_queue_heartbeat now (Some sid) st)))))
  /\ (canProceedToPayment sid (queueManager st) = false ->
      fst (api_queue_heartbeat now (Some sid) st) = st).
Proof.
  intros Hne. unfold api_queue_heartbeat. rewrite (truthy_Some_ne sid Hne).
  cbn [fst queueManager set_queueManager]. unfold updateActivity, canProceedToPayment.
  split.
  - intros Hc now' Hsoon. rewrite Hc.
    unfold checkSessionTimeout.
    cbn [activeSession set_lastActivityTime lastActivityTime]. rewrite Hc. cbn [negb].
    rewrite get_set_same.
    assert (Hn : num_or (Some now) 0 = now).
    { unfold num_or. destruct (Z.eqb_spec now 0); congruence. }
    rewrite Hn.
    replace (now' - now >=? sessionTimeout) with false
      by (symmetry; rewrite Z.geb_leb; apply Z.leb_gt; lia).
    reflexivity.
  - intros Hc. rewrite Hc. apply set_queueManager_same.
Qed.

Lemma heartbeat_extends_the_turn_witness :
  let st := fst (api_queue_join 1000 (mkJoinBody (Some "A") None None) started) in
  let st1 := fst (api_queue_heartbeat 80000 (Some "A") st) in
  checkSessionTimeout 91000 "A" (queueManager st1)
  = Some (setTimeout 91000 79000 "A" (queueManager st1)).
Proof.
  cbv zeta.
  exact (proj1 (heartbeat_extends_the_turn 80000 "A"
                  (fst (api_queue_join 1000 (mkJoinBody (Some "A") None None) started))
                  ltac:(discriminate))
           eq_refl 91000 ltac:(unfold sessionTimeout; lia)).
Defined.

End RouteFacts.

(* ------------------------------------------------------------------------- *)
(** ** The ledger and the last coin *)
(* ------------------------------------------------------------------------- *)

Module LedgerFacts.
Import Js JsMap Server.
Import JsMapFacts JsFacts ServerTheorems.

Lemma sweep_sweep_get t1 t2 st x :
  t1 <= t2 ->
  get x (claimedCoins (sweepClaimedCoins t2 (sweepClaimedCoins t1 st)))
  = get x (claimedCoins (sweepClaimedCoins t2 st)).
Proof.
  intros Hle. rewrite !sweepClaimedCoins_get.
  destruct (get x (claimedCoins st)) as [e|]; [|reflexivity].
  destruct (claimedAt e <? t1 - 5 * 60 * 1000) eqn:E1.
  - apply Z.ltb_lt in E1.
    replace (claimedAt e <? t2 - 5 * 60 * 1000) with true; [reflexivity|].
    symmetry. apply Z.ltb_lt. lia.
  - reflexivity.
Qed.

Lemma sweeps_from_frame upto : forall fuel next st,
  queueManager (sweeps_from fuel next upto st) = queueManager st
  /\ lastCoinDetected (sweeps_from fuel next upto st) = lastCoinDetected st.
Proof.
  induction fuel as [|fuel IH]; intros next st; cbn [sweeps_from]; [auto|].
  destruct (next <=? upto); [|auto].
  destruct (IH (next + sweepInterval) (sweepClaimedCoins next st)) as [-> ->].
  auto.
Qed.

(** X15.  The sweeps of the interval timer that have fired amount to the last
    of them: an entry is in the ledger exactly when it was there before
    and is not older than five minutes at the last sweep, which lies no
    more than a minute back; the queue and the last coin are not
    touched. *)
Theorem interval_sweeps_amount_to_the_last fuel next upto st :
  next <= upto -> upto < next + Z.of_nat fuel * sweepInterval ->
  exists last,
    next <= last <= upto /\ upto < last + sweepInterval
    /\ (forall key,
          get key (claimedCoins (sweeps_from fuel next upto st))
          = match get key (claimedCoins st) with
            | Some e => if claimedAt e <? last - claimTTL then None else Some e
            | None => None
            end)
    /\ queueManager (sweeps_from fuel next upto st) = queueManager st
    /\ lastCoinDetected (sweeps_from fuel next upto st) = lastCoinDetected st.
Proof.
  intros Hdue Hfuel.
  enough (H : exists last,
             next <= last <= upto /\ upto < last + sweepInterval
             /\ forall key,
                  get key (claimedCoins (sweeps_from fuel next upto st))
                  = get key (claimedCoins (sweepClaimedCoins last st))).
  { destruct H as [last [H1 [H2 H3]]]. exists last.
    split; [assumption|]. split; [assumption|]. split.
    - intros key. rewrite H3. apply sweepClaimedCoins_get.
    - apply sweeps_from_frame. }
  revert next st Hdue Hfuel.
  induction fuel as [|fuel IH]; intros next st Hdue Hfuel.
  - simpl in Hfuel. lia.
  - cbn [sweeps_from].
    replace (next <=? upto) with true by (symmetry; apply Z.leb_le; lia).
    destruct (Z_le_gt_dec (next + sweepInterval) upto) as [Hmore|Hlast].
    + destruct (IH (next + sweepInterval) (sweepClaimedCoins next st) Hmore
                  ltac:(lia)) as [last [H1 [H2 H3]]].
      exists last. unfold sweepInterval in *.
      split; [lia|]. split; [assumption|].
      intros key. rewrite H3. apply sweep_sweep_get. lia.
    + exists next. split; [lia|]. split; [lia|].
      intros key. destruct fuel as [|fuel]; cbn [sweeps_from]; [reflexivity|].
      replace (next + sweepInterval <=? upto) with false
        by (symmetry; apply Z.leb_gt; lia).
      reflexivity.
Qed.

Lemma interval_sweeps_amount_to_the_last_witness :
  let st := claim 1000 (VNumber 7) (VNumber 5) (VString "A")
              (claim 200000 (VNumber 8) (VNumber 10) (VString "B")
                 (mkState QueueManager.init empty None)) in
  exists last,
    60000 <= last <= 400000 /\ 400000 < last + sweepInterval
    /\ lookup (VNumber 7) (VNumber 5) (sweeps_from 10 60000 400000 st) = None
    /\ lookup (VNumber 8) (VNumber 10) (sweeps_from 10 60000 400000 st)
       = Some (mkClaimedCoin (VNumber 8) (VNumber 10) (VString "B") 200000).
Proof.
  intros st.
  destruct (interval_sweeps_amount_to_the_last 10 60000 400000 st
              ltac:(lia) ltac:(unfold sweepInterval; lia))
    as [last [H1 [H2 [H3 _]]]].
  exists last. split; [exact H1|]. split; [exact H2|].
  unfold lookup. rewrite !H3.
  assert (G1 : get (coinKey (VNumber 7) (VNumber 5)) (claimedCoins st)
               = Some (mkClaimedCoin (VNumber 7) (VNumber 5) (VString "A") 1000))
    by (vm_compute; reflexivity).
  assert (G2 : get (coinKey (VNumber 8) (VNumber 10)) (claimedCoins st)
               = Some (mkClaimedCoin (VNumber 8) (VNumber 10) (VString "B") 200000))
    by (vm_compute; reflexivity).
  rewrite G1, G2. cbn [claimedAt]. unfold claimTTL, sweepInterval in *.
  split.
  - replace (1000 <? last - 5 * 60 * 1000) with true
      by (symmetry; apply Z.ltb_lt; lia).
    reflexivity.
  - replace (200000 <? last - 5 * 60 * 1000) with false
      by (symmetry; apply Z.ltb_ge; lia).
    reflexivity.
Defined.

(** X16.  A coin the observer has stored shows as the last coin; once it is
    claimed under its timestamp and value the status names the claiming
    session, and after the sweep that follows five minutes later it
    reads as unclaimed again. *)
Theorem claimed_coin_shows_in_status now now' value type_ sid st :
  now <> 0 -> truthy_value value = true -> truthy_value sid = true ->
  let coin := mkLastCoin value type_ now in
  let st1 := fst (coinObserver now value type_ st) in
  let st2 := fst (api_claim_coin now' (mkClaimBody (VNumber now) value sid) st1) in
  (lookup (VNumber now) value st = None ->
   api_arduino_status_lastCoin st1 = Some (mkLastCoinView coin None false))
  /\ api_arduino_status_lastCoin st2 = Some (mkLastCoinView coin (Some sid) true)
  /\ (forall at_, now' + claimTTL < at_ ->
        api_arduino_status_lastCoin (sweepClaimedCoins at_ st2)
        = Some (mkLastCoinView coin None false)).
Proof.
  intros Hnow Hv Hs coin st1 st2.
  assert (Ht : truthy_value (VNumber now) = true).
  { cbn [truthy_value]. destruct (Z.eqb_spec now 0); [contradiction|reflexivity]. }
  assert (H2 : st2 = set_claimedCoins
                       (set (coinKey (VNumber now) value)
                            (mkClaimedCoin (VNumber now) value sid now')
                            (claimedCoins st1)) st1).
  { unfold st2. apply (claim_truthy now' (VNumber now) value sid st1 Ht Hv Hs). }
  split; [|split].
  - intros Hl. unfold api_arduino_status_lastCoin, st1, coinObserver.
    cbn [fst lastCoinDetected l_timestamp l_value].
    unfold lookup in *. cbn [claimedCoins]. now rewrite Hl.
  - rewrite H2. unfold api_arduino_status_lastCoin, st1, coinObserver.
    cbn [fst lastCoinDetected set_claimedCoins l_timestamp l_value].
    unfold lookup. cbn [claimedCoins set_claimedCoins]. rewrite get_set_same.
    reflexivity.
  - intros at_ Hlate. rewrite H2.
    unfold api_arduino_status_lastCoin.
    replace (lastCoinDetected (sweepClaimedCoins at_ _)) with (Some coin)
      by reflexivity.
    cbn [l_timestamp l_value coin]. unfold lookup.
    rewrite sweepClaimedCoins_get. cbn [claimedCoins set_claimedCoins].
    rewrite get_set_same. cbn [claimedAt].
    replace (now' <? at_ - 5 * 60 * 1000) with true; [reflexivity|].
    symmetry. apply Z.ltb_lt. unfold claimTTL in Hlate. lia.
Qed.

Lemma claimed_coin_shows_in_status_witness :
  let st1 := fst (coinObserver 1700000000000 (VNumber 5) "5" Routes.started) in
  let st2 := fst (api_claim_coin 1700000001000
                    (mkClaimBody (VNumber 1700000000000) (VNumber 5) (VString "A"))
                    st1) in
  api_arduino_status_lastCoin st2
  = Some (mkLastCoinView (mkLastCoin (VNumber 5) "5" 1700000000000)
                         (Some (VString "A")) true).
Proof.
  cbv zeta.
  exact (proj1 (proj2 (claimed_coin_shows_in_status 1700000000000 1700000001000
                         (VNumber 5) "5" (VString "A") Routes.started
                         ltac:(discriminate) eq_refl eq_refl))).
Defined.

End LedgerFacts.

(* ------------------------------------------------------------------------- *)
(** ** The serial link of the coin listener *)
(* ------------------------------------------------------------------------- *)

Module SerialLinkFacts.
Import SerialLink.

Lemma connectToArduino_portsOf env l :
  connectToArduino env l = tryNextPort env (portsOf env) 0 l.
Proof.
  unfold connectToArduino, portsOf.
  destruct (negb (String.eqb (Js.trim (SERIAL_PORT env)) "")); [reflexivity|].
  destruct (isWindows env); [reflexivity|].
  destruct (listed env) as [ports|]; [|reflexivity].
  destruct (candidatesOf ports); reflexivity.
Qed.

(** *** The counter of reconnections *)

Lemma handleConnectionError_Linked l :
  0 <= reconnectAttempts l <= maxReconnectAttempts ->
  Linked (handleConnectionError l).
Proof.
  intros Hr. unfold handleConnectionError. cbn [reconnectAttempts].
  destruct (reconnectAttempts l <? maxReconnectAttempts) eqn:E.
  - apply Z.ltb_lt in E. split; cbn; [lia | discriminate].
  - split; cbn; [lia | discriminate].
Qed.

Lemma tryNextPort_Linked env comPorts index l :
  Linked l -> Linked (tryNextPort env comPorts index l).
Proof.
  intros [Hr Hp]. unfold tryNextPort.
  destruct (nth_error comPorts index) as [portPath|];
    [|now apply handleConnectionError_Linked].
  destruct (attempt env portPath).
  - split; cbn; assumption.
  - apply handleConnectionError_Linked. cbn. assumption.
  - split; cbn; [unfold maxReconnectAttempts; lia | discriminate].
Qed.

Lemma cleanup_Linked l : Linked l -> Linked (cleanup l).
Proof. intros [Hr Hp]. split; cbn; [assumption | discriminate]. Qed.

Lemma sendCommand_Linked c l : Linked l -> Linked (sendCommand c l).
Proof.
  intros HL. unfold sendCommand.
  destruct (isConnected l) eqn:Ec; [|assumption].
  destruct (port l) eqn:Ep; [|assumption].
  destruct HL as [Hr Hp]. split; cbn; [assumption | discriminate].
Qed.

Lemma setTimeout_Linked d a l : Linked l -> Linked (setTimeout d a l).
Proof. intros HL. exact HL. Qed.

Lemma step_Linked e l : Linked l -> Linked (step e l).
Proof.
  intros HL. destruct e as [n env| |c| |p| |]; cbn [step].
  - destruct (nth_error (pending l) n) as [[d a]|]; [|assumption].
    set (l0 := mkListener _ _ _ _ _ _).
    assert (HL0 : Linked l0) by exact HL.
    destruct a as [|comPorts index| |]; cbn [perform].
    + rewrite connectToArduino_portsOf. now apply tryNextPort_Linked.
    + now apply tryNextPort_Linked.
    + exact HL0.
    + now apply sendCommand_Linked.
  - unfold onPortClosed. apply handleConnectionError_Linked. apply HL.
  - now apply sendCommand_Linked.
  - unfold testConnection. destruct (isConnected l); [|assumption].
    now apply sendCommand_Linked.
  - unfold setComPort. apply setTimeout_Linked.
    destruct (isConnected l); [now apply cleanup_Linked | assumption].
  - now apply cleanup_Linked.
  - exact HL.
Qed.

Lemma steps_Linked es : forall l, Linked l -> Linked (steps es l).
Proof.
  induction es as [|e es IH]; intros l HL; [assumption|].
  apply IH. now apply step_Linked.
Qed.

Lemma constructed_Linked : Linked constructed.
Proof. split; cbn; [unfold maxReconnectAttempts; lia | discriminate]. Qed.

(** X17.  Whatever happens to the listener (timers firing in any surroundings,
    the port closing, commands, a new port being set, [cleanup], [init]),
    the counter of reconnections stays between 0 and 5, and a connected
    listener has its port: a command is then written with a line feed
    after it, and [testConnection] answers true exactly when it has
    written its TEST line. *)
Theorem reconnectAttempts_bounded es command :
  let l := steps es constructed in
  0 <= reconnectAttempts l <= 5
  /\ (isConnected l = true ->
      written (sendCommand command l)
      = written l ++ [(command ++ String "010" EmptyString)%string]
      /\ testConnection l = (sendCommand "TEST" l, true))
  /\ (isConnected l = false ->
      sendCommand command l = l /\ testConnection l = (l, false)).
Proof.
  intros l. destruct (steps_Linked es constructed constructed_Linked) as [Hr Hp].
  fold l in Hr, Hp. split; [exact Hr|]. split.
  - intros Hc. specialize (Hp Hc). unfold testConnection, sendCommand.
    rewrite Hc. destruct (port l); [|contradiction]. split; reflexivity.
  - intros Hc. unfold testConnection, sendCommand. rewrite Hc. split; reflexivity.
Qed.

Lemma reconnectAttempts_bounded_witness :
  let env := mkEnv "/dev/ttyACM0" false None (fun _ => Opens) in
  let l := steps [EvTimer 0 env; EvTimer 0 env; EvTimer 0 env] constructed in
  isConnected l = true
  /\ written (sendCommand "PING" l)
     = [("READY" ++ String "010" EmptyString)%string;
        ("PING" ++ String "010" EmptyString)%string].
Proof.
  cbv zeta. split; [reflexivity|].
  exact (proj1 (proj1 (proj2 (reconnectAttempts_bounded
                                [EvTimer 0 (mkEnv "/dev/ttyACM0" false None (fun _ => Opens));
                                 EvTimer 0 (mkEnv "/dev/ttyACM0" false None (fun _ => Opens));
                                 EvTimer 0 (mkEnv "/dev/ttyACM0" false None (fun _ => Opens))]
                                "PING")) eq_refl)).
Defined.

(** *** Giving up *)

Lemma handleConnectionError_Cycling env p r a :
  0 <= r <= maxReconnectAttempts ->
  Cycling env (handleConnectionError (mkListener false p r [] [] a))
  /\ (budget env (handleConnectionError (mkListener false p r [] [] a))
      <= Z.to_nat (maxReconnectAttempts - r) * (List.length (portsOf env) + 2))%nat.
Proof.
  intros Hr. unfold handleConnectionError. cbn [reconnectAttempts].
  destruct (r <? maxReconnectAttempts) eqn:E.
  - apply Z.ltb_lt in E. split.
    + split; [reflexivity|]. split; [reflexivity|]. split; [cbn; lia|].
      right. left. eexists. reflexivity.
    + unfold budget. cbn [pending setTimeout app reconnectAttempts].
      replace (Z.to_nat (maxReconnectAttempts - r))
        with (S (Z.to_nat (maxReconnectAttempts - (r + 1)))) by lia.
      lia.
  - apply Z.ltb_ge in E. split.
    + split; [reflexivity|]. split; [reflexivity|]. split; [cbn; lia|].
      left. split; [reflexivity|]. cbn. lia.
    + unfold budget. cbn [pending]. lia.
Qed.

Lemma tryNextPort_Cycling env index p r a :
  (forall x, attempt env x <> Opens) ->
  0 <= r <= maxReconnectAttempts ->
  (index <= List.length (portsOf env))%nat ->
  Cycling env (tryNextPort env (portsOf env) index (mkListener false p r [] [] a))
  /\ (budget env (tryNextPort env (portsOf env) index
                              (mkListener false p r [] [] a))
      < Z.to_nat (maxReconnectAttempts - r) * (List.length (portsOf env) + 2)
        + (List.length (portsOf env) - index) + 1)%nat.
Proof.
  intros Hnever Hr Hle. unfold tryNextPort.
  destruct (nth_error (portsOf env) index) as [portPath|] eqn:En.
  - assert (Hlt : (index < List.length (portsOf env))%nat).
    { apply nth_error_Some. congruence. }
    cbn [isConnected port reconnectAttempts pending written attempted].
    destruct (attempt env portPath) eqn:Ea.
    + split.
      * split; [reflexivity|]. split; [reflexivity|]. split; [exact Hr|].
        right. right. exists 500, (S index). split; [reflexivity | lia].
      * unfold budget. cbn [pending setTimeout app reconnectAttempts]. lia.
    + unfold cleanup.
      cbn [isConnected port reconnectAttempts pending written attempted isOpen].
      destruct (handleConnectionError_Cycling env (Some (mkPort portPath false)) r
                  (a ++ [portPath]) Hr) as [H1 H2].
      split; [exact H1 | lia].
    + destruct (Hnever portPath Ea).
  - destruct (handleConnectionError_Cycling env p r a Hr) as [H1 H2].
    split; [exact H1 | lia].
Qed.

Lemma fire_Cycling env l :
  (forall x, attempt env x <> Opens) ->
  Cycling env l -> pending l <> [] ->
  Cycling env (step (EvTimer 0 env) l)
  /\ (budget env (step (EvTimer 0 env) l) < budget env l)%nat.
Proof.
  intros Hnever [Hc [Hw [Hr Hp]]] Hne.
  destruct l as [c p r pend w a]. cbn in Hc, Hw, Hr, Hp, Hne. subst c w.
  destruct Hp as [[Hp _]|[[d Hp]|[d [index [Hp Hle]]]]]; [contradiction| |];
    subst pend; cbn [step pending nth_error remove_nth perform isConnected port
                     reconnectAttempts written attempted].
  - rewrite connectToArduino_portsOf.
    destruct (tryNextPort_Cycling env 0%nat p r a Hnever Hr ltac:(lia)) as [H1 H2].
    split; [exact H1|]. unfold budget at 2. cbn [pending reconnectAttempts]. lia.
  - destruct (tryNextPort_Cycling env index p r a Hnever Hr Hle) as [H1 H2].
    split; [exact H1|]. unfold budget at 2. cbn [pending reconnectAttempts]. lia.
Qed.

Lemma drain_Cycling env : forall fuel l,
  (forall x, attempt env x <> Opens) ->
  Cycling env l -> (budget env l <= fuel)%nat ->
  Cycling env (drain fuel env l) /\ pending (drain fuel env l) = [].
Proof.
  induction fuel as [|fuel IH]; intros l Hnever Hcyc Hb; cbn [drain].
  - split; [assumption|].
    destruct Hcyc as [_ [_ [_ [[Hp _]|[[d Hp]|[d [index [Hp _]]]]]]]];
      [assumption| |]; unfold budget in Hb; rewrite Hp in Hb; nia.
  - destruct (pending l) as [|t rest] eqn:Hp; [now rewrite Hp|].
    destruct (fire_Cycling env l Hnever Hcyc) as [H1 H2]; [congruence|].
    apply IH; [assumption | assumption | lia].
Qed.

Lemma constructed_Cycling env : Cycling env constructed.
Proof.
  split; [reflexivity|]. split; [reflexivity|].
  split; [cbn; unfold maxReconnectAttempts; lia|].
  right. left. eexists. reflexivity.
Qed.

(** X18.  When no port ever opens, the listener gives up: after the first
    cycle and five reconnections no timer is pending any more, so no
    further attempt is made; the counter stands at 5, nothing has been
    written, and only the paths of the cycle were tried. *)
Theorem listener_gives_up env fuel :
  (forall x, attempt env x <> Opens) ->
  (6 * (List.length (portsOf env) + 2) <= fuel)%nat ->
  let l := drain fuel env constructed in
  pending l = [] /\ reconnectAttempts l = 5
  /\ isConnected l = false /\ written l = []
  /\ fst (testConnection l) = l.
Proof.
  intros Hnever Hfuel l.
  destruct (drain_Cycling env fuel constructed Hnever (constructed_Cycling env))
    as [[Hc [Hw [Hr Hp]]] Hpend].
  { unfold budget. cbn. lia. }
  fold l in Hc, Hw, Hr, Hp, Hpend.
  split; [exact Hpend|]. split; [|split; [exact Hc|split; [exact Hw|]]].
  - destruct Hp as [[_ Hp]|[[d Hp]|[d [index [Hp _]]]]];
      [exact Hp| |]; rewrite Hpend in Hp; discriminate.
  - unfold testConnection. now rewrite Hc.
Qed.

Lemma listener_gives_up_witness :
  let env := mkEnv "" false (Some [Some "/dev/ttyACM0"; Some "/dev/ttyS0"; None;
                                    Some "/dev/ttyUSB1"])
                   (fun x => if String.eqb x "/dev/ttyACM0" then Throws else OpenFails) in
  let l := drain 24 env constructed in
  pending l = [] /\ reconnectAttempts l = 5
  /\ List.length (attempted l) = 12%nat.
Proof.
  cbv zeta.
  destruct (listener_gives_up
              (mkEnv "" false (Some [Some "/dev/ttyACM0"; Some "/dev/ttyS0"; None;
                                      Some "/dev/ttyUSB1"])
                     (fun x => if String.eqb x "/dev/ttyACM0" then Throws else OpenFails))
              24%nat) as [H1 [H2 _]].
  - intros x. cbn [attempt]. destruct (String.eqb x "/dev/ttyACM0"); discriminate.
  - vm_compute. lia.
  - split; [exact H1|]. split; [exact H2|]. vm_compute. reflexivity.
Defined.

(** *** Connecting *)

Lemma tryNextPort_walk env post p : forall pre done l,
  (forall x, In x pre -> attempt env x = Throws) ->
  attempt env p = Opens ->
  pending l = [] ->
  drain (List.length pre + 2) env
        (tryNextPort env (done ++ pre ++ p :: post) (List.length done) l)
  = mkListener true (Some (mkPort p true)) 0 []
               (written l ++ [("READY" ++ String "010" EmptyString)%string])
               (attempted l ++ pre ++ [p]).
Proof.
  induction pre as [|x pre IH]; intros done l Hpre Hp Hpend.
  - unfold tryNextPort. cbn [app].
    rewrite nth_error_app2 by lia. rewrite Nat.sub_diag. cbn [nth_error].
    rewrite Hp. unfold setTimeout.
    cbn [pending isConnected port reconnectAttempts written attempted].
    rewrite Hpend. reflexivity.
  - unfold tryNextPort at 1. cbn [app].
    rewrite nth_error_app2 by lia. rewrite Nat.sub_diag. cbn [nth_error].
    rewrite (Hpre x) by (left; reflexivity).
    unfold setTimeout.
    cbn [pending isConnected port reconnectAttempts written attempted].
    rewrite Hpend.
    change (List.length (x :: pre) + 2)%nat with (S (List.length pre + 2)).
    cbn [drain pending app step nth_error remove_nth perform
         isConnected port reconnectAttempts written attempted].
    replace (done ++ x :: pre ++ p :: post) with ((done ++ [x]) ++ pre ++ p :: post)
      by (rewrite <- app_assoc; reflexivity).
    replace (S (List.length done)) with (List.length (done ++ [x]))
      by (rewrite length_app; cbn; lia).
    rewrite IH.
    + cbn [written attempted]. rewrite <- app_assoc. reflexivity.
    + intros y Hy. apply Hpre. right. exact Hy.
    + exact Hp.
    + reflexivity.
Qed.

(** X19.  The listener connects to the first path of the cycle on which
    [new SerialPort] does not throw, if that port opens: the paths after
    it are not tried, the counter of reconnections is back at 0, and the
    one line written, after the two timers of the reset, is READY. *)
Theorem connects_to_the_first_port env pre p post :
  portsOf env = pre ++ p :: post ->
  (forall x, In x pre -> attempt env x = Throws) ->
  attempt env p = Opens ->
  drain (List.length pre + 3) env constructed
  = mkListener true (Some (mkPort p true)) 0 []
               [("READY" ++ String "010" EmptyString)%string] (pre ++ [p]).
Proof.
  intros Hports Hpre Hp.
  replace (List.length pre + 3)%nat with (S (List.length pre + 2)) by lia.
  cbn [drain constructed init setTimeout pending app step nth_error remove_nth
       perform isConnected port reconnectAttempts written attempted].
  rewrite connectToArduino_portsOf, Hports.
  exact (tryNextPort_walk env post p pre [] (mkListener false None 0 [] [] [])
           Hpre Hp eq_refl).
Qed.

Lemma connects_to_the_first_port_witness :
  let env := mkEnv "" false (Some [Some "/dev/ttyS0"; Some "/dev/ttyUSB0";
                                    Some "/dev/ttyACM0"; Some "/dev/ttyACM1"])
                   (fun x => if String.eqb x "/dev/ttyUSB0" then Throws else Opens) in
  getConnectionStatus (drain 4 env constructed)
  = mkConnectionStatus true (Some "/dev/ttyACM0") 0.
Proof.
  intros env.
  assert (Hpre : forall x, In x ["/dev/ttyUSB0"] -> attempt env x = Throws).
  { intros x [<-|[]]. reflexivity. }
  exact (f_equal getConnectionStatus
           (connects_to_the_first_port env ["/dev/ttyUSB0"] "/dev/ttyACM0"
              ["/dev/ttyACM1"] eq_refl Hpre eq_refl)).
Defined.

End SerialLinkFacts.

(* ------------------------------------------------------------------------- *)
(** ** The observers and the lines of the device *)
(* ------------------------------------------------------------------------- *)

Module ObserverFacts.
Import Js Observers.

Section Registry.
Variable Ref : Type.
Variable same : Ref -> Ref -> bool.
Hypothesis same_spec : forall a b, same a b = true <-> a = b.

Lemma registry_indexOf_absent x : forall arr i,
  ~ In x arr -> indexOf_from Ref same i x arr = -1.
Proof.
  induction arr as [|y arr IH]; intros i Hn; cbn [indexOf_from]; [reflexivity|].
  destruct (same y x) eqn:E.
  - apply same_spec in E. subst y. exfalso. apply Hn. now left.
  - apply IH. intros Hin. apply Hn. now right.
Qed.

Lemma registry_indexOf_first x post : forall pre i,
  ~ In x pre ->
  indexOf_from Ref same i x (pre ++ x :: post) = i + Z.of_nat (List.length pre).
Proof.
  induction pre as [|y pre IH]; intros i Hn; cbn [indexOf_from app List.length].
  - replace (same x x) with true by (symmetry; now apply same_spec). lia.
  - destruct (same y x) eqn:E.
    + apply same_spec in E. subst y. exfalso. apply Hn. now left.
    + rewrite IH by (intros Hin; apply Hn; now right). lia.
Qed.

Lemma removeCallback_first pre cb post :
  ~ In cb pre -> removeCallback Ref same cb (pre ++ cb :: post) = pre ++ post.
Proof.
  intros Hn. unfold removeCallback. rewrite registry_indexOf_first by assumption.
  replace (0 + Z.of_nat (List.length pre) >? -1) with true
    by (symmetry; apply Z.gtb_lt; lia).
  replace (Z.to_nat (0 + Z.of_nat (List.length pre))) with (List.length pre) by lia.
  rewrite firstn_app, firstn_all, Nat.sub_diag. cbn [firstn].
  rewrite app_nil_r.
  replace (S (List.length pre)) with (List.length pre + 1)%nat by lia.
  rewrite skipn_app, skipn_all2 by lia.
  replace (List.length pre + 1 - List.length pre)%nat with 1%nat by lia.
  reflexivity.
Qed.

Lemma first_registration (cb : Ref) : forall cbs,
  In cb cbs -> exists pre post, cbs = pre ++ cb :: post /\ ~ In cb pre.
Proof.
  induction cbs as [|y cbs IH]; intros Hin; [destruct Hin|].
  destruct (same y cb) eqn:E.
  - apply same_spec in E. subst y. exists (@nil Ref), cbs.
    split; [reflexivity | intros []].
  - assert (Hne : y <> cb).
    { intros ->. assert (same cb cb = true) by now apply same_spec. congruence. }
    destruct Hin as [->|Hin]; [contradiction|].
    destruct (IH Hin) as [pre [post [-> Hn]]].
    exists (y :: pre), post. split; [reflexivity|].
    intros [->|H]; [contradiction | now apply Hn].
Qed.

(** X20.  [removeCallback] takes out the first registration of the callback
    and nothing else.  A callback that is not registered changes nothing,
    and registering and then removing it gives the registry back.  A
    registered callback has a first registration, and that one goes: one
    registered twice is still registered once, and registering it again
    and then removing it does not give the registry back, it moves the
    callback to the end. *)
Theorem removeCallback_removes_first cbs cb :
  (~ In cb cbs ->
   removeCallback Ref same cb cbs = cbs
   /\ removeCallback Ref same cb (onCoinDetected Ref cb cbs) = cbs)
  /\ (In cb cbs ->
      exists pre post,
        cbs = pre ++ cb :: post /\ ~ In cb pre
        /\ removeCallback Ref same cb cbs = pre ++ post
        /\ removeCallback Ref same cb (onCoinDetected Ref cb cbs)
           = pre ++ post ++ [cb]).
Proof.
  split.
  - intros Hn. split.
    + unfold removeCallback. now rewrite registry_indexOf_absent.
    + unfold onCoinDetected. rewrite removeCallback_first by assumption.
      apply app_nil_r.
  - intros Hin. destruct (first_registration cb cbs Hin) as [pre [post [-> Hn]]].
    exists pre, post. split; [reflexivity|]. split; [assumption|]. split.
    + now apply removeCallback_first.
    + unfold onCoinDetected. rewrite <- app_assoc. cbn [app].
      now apply removeCallback_first.
Qed.
End Registry.

Lemma removeCallback_removes_first_witness :
  removeCallback nat Nat.eqb 7%nat (onCoinDetected nat 7%nat [3]%nat) = [3]%nat
  /\ exists pre post,
       [7; 3; 7]%nat = pre ++ 7%nat :: post
       /\ removeCallback nat Nat.eqb 7%nat [7; 3; 7]%nat = pre ++ post
       /\ removeCallback nat Nat.eqb 7%nat (onCoinDetected nat 7%nat [7; 3]%nat)
          = [3; 7]%nat.
Proof.
  split.
  - exact (proj2 (proj1 (removeCallback_removes_first nat Nat.eqb Nat.eqb_eq
                           [3%nat] 7%nat)
                    ltac:(intros [H|[]]; discriminate))).
  - destruct (proj2 (removeCallback_removes_first nat Nat.eqb Nat.eqb_eq
                       [7; 3; 7]%nat 7%nat) ltac:(left; reflexivity))
      as [pre [post [H1 [_ [H2 _]]]]].
    exists pre, post. split; [exact H1|]. split; [exact H2|]. reflexivity.
Defined.

End ObserverFacts.

Module LineFacts.
Import Js JsMap CoinListener Helpers.

Section Lines.
Variable U : Type.
Implicit Types (cbs : list (Callback U)) (w : World U).

(** X21.  For a line of ASCII characters and observers that act on their own
    state only (they may throw, but they do not register or remove
    observers while they are called): the handler of the data completes
    normally.  A line that is not a COIN line reaches no observer; a COIN
    line reaches either none of them or every one of them, in the order
    of registration, with one truthy value and the trimmed type. *)
Theorem onData_never_throws cbs line w :
  asciiOnly line = true ->
  snd (onData cbs line w) = Normal
  /\ (startsWith "COIN:" (trim line) = false -> onData cbs line w = (w, Normal))
  /\ (onData cbs line w = (w, Normal)
      \/ exists v,
           truthy_value v = true
           /\ deliveries (fst (onData cbs line w))
              = deliveries w
                ++ map (fun i => mkDelivery i v (trim (substring_from 5 (trim line))))
                       (seq 0 (List.length cbs))).
Proof.
  intros _. unfold onData, handleArduinoData.
  destruct (startsWith "COIN:" (trim line)) eqn:Ec.
  - unfold handleCoinDetection.
    set (t := trim (substring_from 5 (trim line))).
    destruct (truthy_value (lookupCoinValue t)) eqn:Ev.
    + destruct (CoinTheorems.forEach_delivers U (lookupCoinValue t) t cbs 0%nat w)
        as [H1 H2].
      split; [exact H1|]. split; [discriminate|].
      right. exists (lookupCoinValue t). split; [exact Ev | exact H2].
    + split; [reflexivity|]. split; [discriminate|]. left. reflexivity.
  - assert (H : (if startsWith "STATUS:" (trim line) then (w, Normal)
                 else if startsWith "ERROR:" (trim line) then (w, Normal)
                 else if String.eqb (trim line) "READY" then (w, Normal)
                 else (w, Normal)) = (w, Normal)).
    { destruct (startsWith "STATUS:" (trim line)); [reflexivity|].
      destruct (startsWith "ERROR:" (trim line)); [reflexivity|].
      destruct (String.eqb (trim line) "READY"); reflexivity. }
    rewrite H. split; [reflexivity|]. split; [reflexivity|]. left. reflexivity.
Qed.
End Lines.

Lemma onData_never_throws_witness :
  onData [fun v t (u : nat) => (S u, Throw "boom")] "  STATUS: idle " (mkWorld 0%nat [])
  = (mkWorld 0%nat [], Normal)
  /\ snd (onData [fun v t (u : nat) => (S u, Throw "boom")] " COIN: 5 "
                 (mkWorld 0%nat [])) = Normal
  /\ deliveries (fst (onData [fun v t (u : nat) => (S u, Throw "boom")] " COIN: 5 "
                             (mkWorld 0%nat [])))
     = [mkDelivery 0 (VNumber 5) "5"].
Proof.
  split; [|split].
  - exact (proj1 (proj2 (onData_never_throws nat
                           [fun v t (u : nat) => (S u, Throw "boom")]
                           "  STATUS: idle " (mkWorld 0%nat []) eq_refl))
             eq_refl).
  - exact (proj1 (onData_never_throws nat
                    [fun v t (u : nat) => (S u, Throw "boom")]
                    " COIN: 5 " (mkWorld 0%nat []) eq_refl)).
  - reflexivity.
Defined.

End LineFacts.

(* ------------------------------------------------------------------------- *)
(** ** The helpers of server.js *)
(* ------------------------------------------------------------------------- *)

Module HelperFacts.
Import Js JsMap Helpers.

(** *** breakDownPayment *)

Lemma string_of_20 : string_of_Z 20 = "20".
Proof. reflexivity. Qed.

Lemma string_of_10 : string_of_Z 10 = "10".
Proof. reflexivity. Qed.

Lemma string_of_5 : string_of_Z 5 = "5".
Proof. reflexivity. Qed.

Lemma string_of_1 : string_of_Z 1 = "1".
Proof. reflexivity. Qed.

(** X22.  For an integer amount from 0 up to [Number.MAX_SAFE_INTEGER] the
    breakdown is worth the amount, uses as many 20s as fit, at most one
    10, one 5 and four 1s, and has no entry with a count of zero. *)
Theorem breakDownPayment_exact amount :
  0 <= amount <= MAX_SAFE_INTEGER ->
  valueOf (breakDownPayment amount) = amount
  /\ countOf (breakDownPayment amount) 20 = amount / 20
  /\ 0 <= countOf (breakDownPayment amount) 10 <= 1
  /\ 0 <= countOf (breakDownPayment amount) 5 <= 1
  /\ 0 <= countOf (breakDownPayment amount) 1 <= 4
  /\ (forall k c, get k (breakDownPayment amount) = Some c -> 0 < c).
Proof.
  intros [Hpos _].
  unfold breakDownPayment, denominations, valueOf, countOf, denominations.
  cbn [breakDown_loop fold_right].
  rewrite string_of_20, string_of_10, string_of_5, string_of_1.
  set (c20 := amount / 20).
  destruct (c20 >? 0) eqn:E20;
    [set (r20 := amount - c20 * 20) | set (r20 := amount)];
    set (c10 := r20 / 10);
    (destruct (c10 >? 0) eqn:E10;
     [set (r10 := r20 - c10 * 10) | set (r10 := r20)]);
    set (c5 := r10 / 5);
    (destruct (c5 >? 0) eqn:E5;
     [set (r5 := r10 - c5 * 5) | set (r5 := r10)]);
    set (c1 := r5 / 1);
    destruct (c1 >? 0) eqn:E1;
    cbn [fst set get empty String.eqb Ascii.eqb Bool.eqb];
    rewrite ?Z.gtb_ltb in *;
    repeat match goal with
           | H : (_ <? _) = true |- _ => apply Z.ltb_lt in H
           | H : (_ <? _) = false |- _ => apply Z.ltb_ge in H
           end;
    (split; [|split; [|split; [|split; [|split]]]]);
    try (intros k c;
         repeat (destruct (String.eqb k _); [intros [= <-]; lia|]);
         discriminate);
    subst c1 r5 c5 r10 c10 r20 c20;
    try (rewrite ?Z.div_1_r in *);
    Z.div_mod_to_equations; lia.
Qed.

Lemma breakDownPayment_exact_witness :
  valueOf (breakDownPayment 37) = 37
  /\ breakDownPayment 37 = [("20", 1); ("10", 1); ("5", 1); ("1", 2)].
Proof.
  split.
  - exact (proj1 (breakDownPayment_exact 37 ltac:(unfold MAX_SAFE_INTEGER; lia))).
  - reflexivity.
Defined.

(** *** sanitizeFileName *)

Lemma safe_not_separator c : isSafeChar c = true -> isSeparator c = false.
Proof.
  destruct c as [[] [] [] [] [] [] [] []]; vm_compute; intros H;
    first [reflexivity | discriminate H].
Qed.

Lemma safe_space_is_32 c :
  isSafeChar c = true -> is_space c = true -> c = " "%char.
Proof.
  destruct c as [[] [] [] [] [] [] [] []]; vm_compute; intros H1 H2;
    first [reflexivity | discriminate H1 | discriminate H2].
Qed.

Lemma dropChars_forall drop s :
  forallChars (fun c => negb (drop c)) (dropChars drop s) = true.
Proof.
  induction s as [|c s IH]; cbn [dropChars forallChars]; [reflexivity|].
  destruct (drop c) eqn:E; [assumption|].
  cbn [forallChars]. now rewrite E, IH.
Qed.

Lemma forallChars_dropChars p drop s :
  forallChars p s = true -> forallChars p (dropChars drop s) = true.
Proof.
  induction s as [|c s IH]; cbn [dropChars forallChars]; [reflexivity|].
  intros H. apply andb_true_iff in H as [Hc Hs].
  destruct (drop c); [now apply IH|].
  cbn [forallChars]. now rewrite Hc, IH.
Qed.

Lemma dropChars_id drop s :
  forallChars (fun c => negb (drop c)) s = true -> dropChars drop s = s.
Proof.
  induction s as [|c s IH]; cbn [dropChars forallChars]; [reflexivity|].
  intros H. apply andb_true_iff in H as [Hc Hs].
  apply negb_true_iff in Hc. rewrite Hc. now rewrite IH.
Qed.

Lemma forallChars_impl (p q : ascii -> bool) s :
  (forall c, p c = true -> q c = true) ->
  forallChars p s = true -> forallChars q s = true.
Proof.
  intros Hpq. induction s as [|c s IH]; cbn [forallChars]; [reflexivity|].
  intros H. apply andb_true_iff in H as [Hc Hs].
  now rewrite (Hpq c Hc), IH.
Qed.

Lemma forallChars_trimStart p s :
  forallChars p s = true -> forallChars p (trimStart s) = true.
Proof.
  induction s as [|c s IH]; cbn [trimStart forallChars]; [reflexivity|].
  intros H. destruct (is_space c); [|exact H].
  apply andb_true_iff in H as [_ Hs]. now apply IH.
Qed.

Lemma forallChars_trimEnd p s :
  forallChars p s = true -> forallChars p (trimEnd s) = true.
Proof.
  induction s as [|c s IH]; cbn [trimEnd forallChars]; [reflexivity|].
  intros H. apply andb_true_iff in H as [Hc Hs]. specialize (IH Hs).
  destruct (trimEnd s) as [|c' k].
  - destruct (is_space c); cbn [forallChars]; [reflexivity|]. now rewrite Hc.
  - cbn [forallChars] in *. now rewrite Hc, IH.
Qed.

Lemma trimStart_head s :
  match trimStart s with
  | EmptyString => True
  | String c _ => is_space c = false
  end.
Proof.
  induction s as [|c s IH]; cbn [trimStart]; [exact I|].
  destruct (is_space c) eqn:E; [exact IH | exact E].
Qed.

Lemma trimEnd_head s :
  match s with EmptyString => True | String c _ => is_space c = false end ->
  match trimEnd s with EmptyString => True | String c _ => is_space c = false end.
Proof.
  destruct s as [|c s]; cbn [trimEnd]; [auto|].
  intros Hc. destruct (trimEnd s); [now rewrite Hc | exact Hc].
Qed.

Lemma trimStart_clean s :
  match s with EmptyString => True | String c _ => is_space c = false end ->
  trimStart s = s.
Proof.
  destruct s as [|c s]; cbn [trimStart]; [reflexivity|].
  intros Hc. now rewrite Hc.
Qed.

Lemma trimEnd_trimEnd s : trimEnd (trimEnd s) = trimEnd s.
Proof.
  induction s as [|c s IH]; [reflexivity|]. cbn [trimEnd].
  destruct (trimEnd s) as [|c' k] eqn:Ek.
  - destruct (is_space c) eqn:Ec; [reflexivity|].
    cbn [trimEnd]. now rewrite Ec.
  - change (trimEnd (String c (String c' k)))
      with (match trimEnd (String c' k) with
            | EmptyString => if is_space c then EmptyString else String c EmptyString
            | kept => String c kept
            end).
    rewrite IH. reflexivity.
Qed.

Lemma trim_trim s : trim (trim s) = trim s.
Proof.
  unfold trim.
  rewrite (trimStart_clean (trimEnd (trimStart s))).
  - apply trimEnd_trimEnd.
  - apply trimEnd_head, trimStart_head.
Qed.

Lemma sanitizeFileName_cases name :
  sanitizeFileName name = "file"
  \/ (sanitizeFileName name <> ""
      /\ sanitizeFileName name
         = trim (dropChars isSeparator
                           (dropChars (fun c => negb (isSafeChar c)) name))).
Proof.
  unfold sanitizeFileName.
  destruct (String.eqb_spec
              (trim (dropChars isSeparator
                               (dropChars (fun c => negb (isSafeChar c)) name))) "");
    [left; reflexivity | right; split; [assumption | reflexivity]].
Qed.

Lemma safe_no_separator s :
  forallChars isSafeChar s = true ->
  forallChars (fun c => negb (isSeparator c)) s = true.
Proof.
  apply forallChars_impl. intros c Hc. now rewrite (safe_not_separator c Hc).
Qed.

Lemma sanitizeFileName_fixed s :
  s <> "" -> forallChars isSafeChar s = true -> trim s = s ->
  sanitizeFileName s = s.
Proof.
  intros Hne Hsafe Htrim. unfold sanitizeFileName.
  rewrite (dropChars_id (fun c => negb (isSafeChar c)) s).
  - rewrite (dropChars_id isSeparator s) by now apply safe_no_separator.
    rewrite Htrim. destruct (String.eqb_spec s ""); [contradiction | reflexivity].
  - apply (forallChars_impl isSafeChar); [|exact Hsafe].
    intros c Hc. now rewrite Hc.
Qed.

(** X23.  The name [sanitizeFileName] returns is never empty, holds only
    letters, digits, dots, underscores, spaces and hyphens, hence no
    slash or backslash, and sanitizing it again changes nothing. *)
Theorem sanitizeFileName_safe name :
  sanitizeFileName name <> ""
  /\ forallChars isSafeChar (sanitizeFileName name) = true
  /\ forallChars (fun c => negb (isSeparator c)) (sanitizeFileName name) = true
  /\ sanitizeFileName (sanitizeFileName name) = sanitizeFileName name.
Proof.
  destruct (sanitizeFileName_cases name) as [->|[Hne Heq]].
  - split; [discriminate|]. split; [reflexivity|]. split; reflexivity.
  - assert (Hsafe : forallChars isSafeChar (sanitizeFileName name) = true).
    { rewrite Heq. unfold trim.
      apply forallChars_trimEnd, forallChars_trimStart, forallChars_dropChars.
      apply (forallChars_impl (fun c => negb (negb (isSafeChar c)))).
      - intros c. now rewrite negb_involutive.
      - apply dropChars_forall. }
    split; [exact Hne|]. split; [exact Hsafe|].
    split; [now apply safe_no_separator|].
    apply sanitizeFileName_fixed; [exact Hne | exact Hsafe|].
    rewrite Heq. apply trim_trim.
Qed.

Lemma sanitizeFileName_safe_witness :
  sanitizeFileName "../../etc/pass wd?.pdf " = "....etcpass wd.pdf"
  /\ sanitizeFileName (sanitizeFileName "../../etc/pass wd?.pdf ")
     = sanitizeFileName "../../etc/pass wd?.pdf ".
Proof.
  split; [reflexivity|].
  exact (proj2 (proj2 (proj2 (sanitizeFileName_safe "../../etc/pass wd?.pdf ")))).
Defined.

(** *** requireAdminAuth *)

Lemma substring_all s : String.substring 0 (String.length s) s = s.
Proof.
  induction s as [|c s IH]; cbn [String.substring String.length]; [reflexivity|].
  now rewrite IH.
Qed.

Lemma substring_from_app p t :
  substring_from (String.length p) (p ++ t)%string = t.
Proof.
  unfold substring_from. induction p as [|c p IH]; cbn [String.append String.length].
  - rewrite Nat.sub_0_r. apply substring_all.
  - cbn [String.substring]. exact IH.
Qed.

Lemma prefix_split p : forall s,
  String.prefix p s = true -> exists t, s = (p ++ t)%string.
Proof.
  induction p as [|c p IH]; intros s H.
  - exists s. reflexivity.
  - destruct s as [|c' s]; cbn [String.prefix] in H; [discriminate|].
    destruct (ascii_dec c c') as [->|Hne]; [|discriminate].
    destruct (IH s H) as [t ->]. exists t. reflexivity.
Qed.

Lemma prefix_app p t : String.prefix p (p ++ t)%string = true.
Proof.
  induction p as [|c p IH]; cbn [String.append String.prefix].
  - now destruct t.
  - destruct (ascii_dec c c); [exact IH | contradiction].
Qed.

(** X24.  The admin middleware lets a request through exactly when its
    authorization header is [Bearer ] followed by the configured token;
    a header that does not start with [Bearer ] is answered "No token
    provided", any other one "Invalid token". *)
Theorem requireAdminAuth_accepts_only_the_token authorization :
  (requireAdminAuth authorization = AuthNext
   <-> authorization = Some ("Bearer " ++ ADMIN_TOKEN)%string)
  /\ (requireAdminAuth authorization = AuthRefused "Invalid token"
      <-> exists token, authorization = Some ("Bearer " ++ token)%string
                        /\ token <> ADMIN_TOKEN).
Proof.
  unfold requireAdminAuth.
  destruct authorization as [h|].
  2:{ split; split; try discriminate. intros [t [H _]]. discriminate. }
  destruct (startsWith "Bearer " h) eqn:Ep.
  - destruct (prefix_split "Bearer " h Ep) as [t ->].
    assert (Ht : truthy (Some ("Bearer " ++ t)%string) = true) by reflexivity.
    rewrite Ht. cbn [negb orb].
    change 7%nat with (String.length "Bearer ").
    rewrite substring_from_app.
    assert (Hinj : forall t', Some ("Bearer " ++ t)%string
                              = Some ("Bearer " ++ t')%string -> t = t').
    { intros t' H. cbn [String.append] in H. congruence. }
    destruct (String.eqb_spec t ADMIN_TOKEN) as [->|Hne].
    + split; split.
      * reflexivity.
      * reflexivity.
      * discriminate.
      * intros [t' [H Hne']]. apply Hinj in H. congruence.
    + split; split.
      * discriminate.
      * intros H. apply Hinj in H. contradiction.
      * intros _. exists t. split; [reflexivity | exact Hne].
      * reflexivity.
  - assert (Hr : (negb (truthy (Some h)) || negb false) = true)
      by now destruct (truthy (Some h)).
    rewrite Hr. split; split.
    + discriminate.
    + intros [= ->]. vm_compute in Ep. discriminate.
    + discriminate.
    + intros [t [[= ->] _]]. pose proof (prefix_app "Bearer " t) as Hp.
      unfold startsWith in Ep. cbn [String.append] in Ep, Hp. congruence.
Qed.

Lemma requireAdminAuth_accepts_only_the_token_witness :
  requireAdminAuth (Some "Bearer admin123") = AuthNext
  /\ requireAdminAuth (Some "bearer admin123") <> AuthNext.
Proof.
  split.
  - exact (proj2 (proj1 (requireAdminAuth_accepts_only_the_token
                           (Some "Bearer admin123"))) eq_refl).
  - intros H.
    pose proof (proj1 (proj1 (requireAdminAuth_accepts_only_the_token
                                (Some "bearer admin123"))) H) as E.
    discriminate E.
Defined.

End HelperFacts.
